(** * GeoGebra loader: a model of [pages/assets/js/geogebra-loader.js] (v1.1)

    The loader is browser glue: it validates its arguments, replaces a
    script element in the page, and settles one promise from the script's
    load/error event and from two polling timers.  The model below is a
    shallow embedding of that code over an explicit browser state:

    - the DOM is a store of nodes plus the elements inside [document.head]
      and inside the body, in tree order and with their nesting depth, so
      that the subtree of an element is the run of deeper elements that
      follows it; a JS reference to an element is a node handle, so a
      captured [container] still denotes the same node after the node has
      been detached;
    - assigning to [innerHTML] detaches the former descendants of the
      element and puts in their place the elements that the browser's HTML
      parser builds from the markup; the parser belongs to the browser and
      is a component of the page state; the elements that the GeoGebra
      library builds inside a container are not part of the model;
    - [window] is a finite map from property names to values;
    - [setInterval]/[clearInterval] work on a map of active timers; time
      is abstract, a tick is one invocation of a timer's callback;
    - a promise is the list of [resolve]/[reject] invocations made on it,
      in order; its state is decided by the first one (later ones are
      ignored by the Promise machinery);
    - the browser and the GeoGebra library are the environment: they act
      through events (script load, script error, timer tick, a write to a
      [window] property); a script element dispatches at most one of
      load and error, once, and may do so after it has been detached.

    Typed interface (JSDoc of the source): [containerId] is a string,
    [ggbFileName] and [materialId] are strings or omitted ([None]),
    [width]/[height] are integers, of a size that JavaScript prints in
    decimal notation (below 10^21 in absolute value). *)

From Stdlib Require Import ZArith Lia.
From stdpp Require Import base option list gmap strings pretty.

Local Open Scope string_scope.
Local Open Scope list_scope.
Local Open Scope stdpp_scope.

(** ** JavaScript strings and values *)

Module Js.

(** The double-quote character, for the HTML templates. *)
Definition dq : string := String (Ascii.ascii_of_nat 34) EmptyString.

(** [s.endsWith(suffix)]. *)
Definition endsWith (s suffix : string) : bool :=
  let n := String.length s in
  let k := String.length suffix in
  (k <=? n)%nat && String.eqb (String.substring (n - k) k s) suffix.

(** Truthiness of a string: only the empty string is falsy. *)
Definition truthy_string (s : string) : bool :=
  negb (String.eqb s "").

(** Truthiness of an optional string argument ([None] is [undefined]). *)
Definition truthy_arg (a : option string) : bool :=
  match a with
  | None => false
  | Some s => truthy_string s
  end.

End Js.

Import Js.

(** ** The page *)

Inductive Tag := TagDiv | TagScript | TagOther.

#[global] Instance Tag_eq_dec : EqDecision Tag.
Proof. solve_decision. Defined.

Record Element := mkElement {
  el_tag : Tag;
  el_id : string;
  el_src : string;
  el_innerHTML : string
}.

(** The page: the node store; the elements inside [document.head] and
    inside the body, each list in tree order ([document.head] comes before
    the body); the nesting depth of each node below the head or the body
    (0 for their children), so that the subtree of a node is the run of
    deeper nodes that follows it in its list; and the browser's HTML
    fragment parser, which turns markup, for the tag of the element it
    is written into, into the elements it denotes, in tree order, each
    with its depth inside the fragment.  An element without an
    [id] attribute has the empty [el_id]; [el_innerHTML] is the markup the
    element was given last. *)
Record Dom := mkDom {
  nodes : gmap nat Element;
  depth : gmap nat nat;
  head : list nat;
  body : list nat;
  next_node : nat;
  parseHTML : Tag -> string -> list (Element * nat)
}.

Module DomOps.

Definition tree (d : Dom) : list nat := head d ++ body d.

(** An element's ID is its [id] attribute unless that is empty. *)
Definition has_id (d : Dom) (id : string) (h : nat) : bool :=
  match nodes d !! h with
  | Some e => negb (String.eqb id "") && bool_decide (el_id e = id)
  | None => false
  end.

(** [document.getElementById(id)]: the first node in tree order. *)
Definition getElementById (id : string) (d : Dom) : option nat :=
  List.find (has_id d id) (tree d).

Definition depth_of (d : Dom) (x : nat) : nat := default 0 (depth d !! x).

(** [x] lies deeper than [c]. *)
Definition below (d : Dom) (c x : nat) : bool :=
  (depth_of d c <? depth_of d x)%nat.

(** Walk a list in tree order and put [repl] in the place of node [c] and
    of its subtree; [inside] tells that the walk is in the subtree of
    [c].  (A node occurs once in the lists of a page; the walk does not
    rely on it.) *)
Fixpoint graft (d : Dom) (c : nat) (repl : list nat) (inside : bool)
    (l : list nat) : list nat :=
  match l with
  | [] => []
  | x :: l' =>
      if Nat.eqb x c then repl ++ graft d c repl true l'
      else if inside && below d c x then graft d c repl true l'
      else x :: graft d c repl false l'
  end.

(** The subtree of [c] in a list in tree order: the run of deeper nodes
    that follows it. *)
Fixpoint subtree (d : Dom) (c : nat) (inside : bool) (l : list nat)
    : list nat :=
  match l with
  | [] => []
  | x :: l' =>
      if Nat.eqb x c then subtree d c true l'
      else if inside && below d c x then x :: subtree d c true l'
      else subtree d c false l'
  end.

(** The attached descendants of [c], in tree order. *)
Definition descendants (c : nat) (d : Dom) : list nat :=
  subtree d c false (head d) ++ subtree d c false (body d).

(** [node.remove()]: detach the node, with its subtree, from its parent. *)
Definition remove (h : nat) (d : Dom) : Dom :=
  {| nodes := nodes d;
     depth := depth d;
     head := graft d h [] false (head d);
     body := graft d h [] false (body d);
     next_node := next_node d;
     parseHTML := parseHTML d |}.

(** The elements that the browser builds when [html] is assigned to the
    [innerHTML] of node [h]. *)
Definition fragment (h : nat) (html : string) (d : Dom) : list (Element * nat) :=
  match nodes d !! h with
  | Some e => parseHTML d (el_tag e) html
  | None => []
  end.

#[global] Arguments fragment : simpl never.

Definition withInnerHTML (html : string) (e : Element) : Element :=
  {| el_tag := el_tag e; el_id := el_id e; el_src := el_src e;
     el_innerHTML := html |}.

(** [node.innerHTML = html]: the former descendants of the node are
    detached, and the elements parsed from [html] become its subtree. *)
Definition setInnerHTML (h : nat) (html : string) (d : Dom) : Dom :=
  let parsed := fragment h html d in
  let fresh := seq (next_node d) (length parsed) in
  {| nodes := alter (withInnerHTML html) h
                (list_to_map (zip fresh parsed.*1) ∪ nodes d);
     depth := list_to_map
                (zip fresh ((fun r => S (depth_of d h + r)) <$> parsed.*2))
              ∪ depth d;
     head := graft d h (h :: fresh) false (head d);
     body := graft d h (h :: fresh) false (body d);
     next_node := next_node d + length parsed;
     parseHTML := parseHTML d |}.

(** [document.createElement(...)] with the fields the caller then sets;
    the node is not attached yet. *)
Definition createElement (e : Element) (d : Dom) : Dom * nat :=
  ({| nodes := <[next_node d := e]> (nodes d);
      depth := depth d;
      head := head d;
      body := body d;
      next_node := S (next_node d);
      parseHTML := parseHTML d |}, next_node d).

(** [document.head.appendChild(node)] for a node that has no parent. *)
Definition appendToHead (h : nat) (d : Dom) : Dom :=
  {| nodes := nodes d;
     depth := <[h := 0]> (depth d);
     head := head d ++ [h];
     body := body d;
     next_node := next_node d;
     parseHTML := parseHTML d |}.

(** Elements (of any tag) attached to the page that carry [id]. *)
Definition with_id (id : string) (d : Dom) : list nat :=
  List.filter (has_id d id) (tree d).

Definition is_script (d : Dom) (h : nat) : bool :=
  match nodes d !! h with
  | Some e => bool_decide (el_tag e = TagScript)
  | None => false
  end.

(** Script elements attached to the page that carry [id]. *)
Definition scripts_with_id (id : string) (d : Dom) : list nat :=
  List.filter (is_script d) (with_id id d).

Definition innerHTML_of (h : nat) (d : Dom) : option string :=
  el_innerHTML <$> nodes d !! h.

(** The page as it is shown: the attached elements in tree order, each
    with its nesting depth, whatever their handles. *)
Definition rendered (d : Dom) : list (option Element * nat) :=
  (fun x => (nodes d !! x, depth_of d x)) <$> tree d.

(** The markup, written into node [h], builds an element that carries
    [id]. *)
Definition builds_id (d : Dom) (id : string) (h : nat) (html : string) : bool :=
  existsb (fun e => bool_decide (el_id e = id)) (fragment h html d).*1.

End DomOps.

Import DomOps.

(** ** Values, errors, promises *)

(** The options object handed to [new GGBApplet(params, true)]. *)
Record Params := mkParams {
  appName : string;
  width : Z;
  height : Z;
  showToolBar : bool;
  showAlgebraInput : bool;
  showMenuBar : bool;
  enableRightClick : bool;
  enableShiftDragZoom : bool;
  showResetIcon : bool;
  useBrowserForJS : bool;
  filename : string
}.

(** What a [window] property can hold, as far as the loader can tell. *)
Inductive WinVal :=
  | VFalsy
  | VObject (tag : nat)
  | VConstructor (throws : Params -> string -> option string).

Definition truthy (v : option WinVal) : bool :=
  match v with
  | None | Some VFalsy => false
  | Some _ => true
  end.

(** A rejection reason: [new Error(message)] or the event object that the
    browser hands to [script.onerror]. *)
Inductive Reason :=
  | ErrorObj (message : string)
  | EventObj (payload : string).

Inductive Outcome :=
  | Resolved (v : WinVal)
  | Rejected (r : Reason).

Inductive PromiseState :=
  | Pending
  | Fulfilled (v : WinVal)
  | Failed (r : Reason).

(** Promise semantics: the first invocation of [resolve] or [reject]
    settles the promise, the others have no effect. *)
Definition promise_state (invocations : list Outcome) : PromiseState :=
  match invocations with
  | [] => Pending
  | Resolved v :: _ => Fulfilled v
  | Rejected r :: _ => Failed r
  end.

(** ** Messages and HTML templates of the source *)

Module Text.

Definition mountNotFound (containerId : string) : string :=
  "❌ 错误：找不到容器 #" +:+ containerId.

Definition invalidResourceName : string :=
  "❌ 错误：请提供正确的 .ggb 文件名".

Definition initializationFailed (message : string) : string :=
  "❌ GeoGebra 初始化失败: " +:+ message.

Definition notAConstructor : string := "GGBApplet is not a constructor".

Definition scriptLoaded : string := "✅ GeoGebra 脚本加载成功".

Definition scriptExists : string := "⚠️ 脚本已存在，正在移除并重新加载...".

Definition scriptFailed : string := "❌ GeoGebra 脚本加载失败".

Definition appletLoaded (ggbFileName : string) : string :=
  "✅ GeoGebra 图形 " +:+ dq +:+ ggbFileName +:+ dq +:+ " 加载成功".

Definition invalidMaterial : string := "❌ 错误：请提供有效的 GeoGebra 材料ID".

Definition loadingHtml (ggbFileName : string) : string :=
"
      <div class=" +:+ dq +:+ "flex items-center justify-center py-12 bg-blue-50 rounded-lg border-2 border-dashed border-blue-300" +:+ dq +:+ ">
        <div class=" +:+ dq +:+ "animate-spin rounded-full h-8 w-8 border-b-2 border-blue-600 mr-3" +:+ dq +:+ "></div>
        <div>
          <p class=" +:+ dq +:+ "text-gray-700 font-medium" +:+ dq +:+ ">正在加载 GeoGebra 图形...</p>
          <p class=" +:+ dq +:+ "text-sm text-gray-500" +:+ dq +:+ ">文件名：" +:+ ggbFileName +:+ "</p>
        </div>
      </div>
    ".

Definition errorPanelHtml (ggbFileName path : string) : string :=
"
        <div class=" +:+ dq +:+ "bg-red-50 border border-red-200 rounded-lg p-6 text-center" +:+ dq +:+ ">
          <i class=" +:+ dq +:+ "fas fa-exclamation-triangle text-4xl text-red-500 mb-4" +:+ dq +:+ "></i>
          <h3 class=" +:+ dq +:+ "text-red-800 font-bold mb-2" +:+ dq +:+ ">图形加载失败</h3>
          <div class=" +:+ dq +:+ "text-sm text-red-700 text-left max-w-md mx-auto" +:+ dq +:+ ">
            <p class=" +:+ dq +:+ "mb-2" +:+ dq +:+ ">请检查以下常见问题：</p>
            <ul class=" +:+ dq +:+ "list-disc list-inside space-y-1" +:+ dq +:+ ">
              <li>文件名 <code class=" +:+ dq +:+ "bg-red-100 px-1 rounded" +:+ dq +:+ ">" +:+ ggbFileName +:+ "</code> 是否正确</li>
              <li>文件是否存在于 <code class=" +:+ dq +:+ "bg-red-100 px-1 rounded" +:+ dq +:+ ">assets/ggb/</code> 目录</li>
              <li>是否已启动 Live Server（VS Code插件）</li>
              <li>浏览器是否允许加载外部脚本</li>
            </ul>
          </div>
          <p class=" +:+ dq +:+ "mt-4 text-xs text-gray-600" +:+ dq +:+ ">当前路径：" +:+ path +:+ "</p>
        </div>
      ".

Definition borderOn : string := "border: 1px solid #e2e8f0; border-radius: 8px;".
Definition borderOff : string := "border: none; border-radius: 8px;".

Definition iframeHtml (materialId width height borderStyle : string) : string :=
"
    <div>
      <p class=" +:+ dq +:+ "text-sm text-gray-600 mb-2" +:+ dq +:+ ">材料ID：<code class=" +:+ dq +:+ "bg-gray-100 px-1 rounded" +:+ dq +:+ ">" +:+ materialId +:+ "</code></p>
      <iframe src=" +:+ dq +:+ "https://www.geogebra.org/material/iframe/id/" +:+ materialId +:+ "/width/" +:+ width +:+ "/height/" +:+ height +:+ dq +:+ " 
              width=" +:+ dq +:+ width +:+ dq +:+ " 
              height=" +:+ dq +:+ height +:+ dq +:+ " 
              frameborder=" +:+ dq +:+ "0" +:+ dq +:+ " 
              style=" +:+ dq +:+ borderStyle +:+ " box-shadow: 0 4px 6px rgba(0, 0, 0, 0.1);" +:+ dq +:+ "
              allowfullscreen>
      </iframe>
      <p class=" +:+ dq +:+ "text-sm text-gray-500 mt-2" +:+ dq +:+ ">
        <i class=" +:+ dq +:+ "fas fa-info-circle mr-1" +:+ dq +:+ "></i> 拖动滑块或图形进行交互，点击右下角可全屏查看
      </p>
    </div>
  ".

End Text.

(** ** Browser state *)

(** [window.location], read once when the loader script is evaluated. *)
Record Location := mkLocation {
  hostname : string;
  protocol : string
}.

(** The two [setInterval] callbacks of [script.onload], each closed over
    the call that installed it. *)
Inductive Timer :=
  | CheckInterval (call : nat)
  | OnLoaded (call : nat).

Definition timer_call (t : Timer) : nat :=
  match t with
  | CheckInterval c | OnLoaded c => c
  end.

(** What the handlers of one [loadGeoGebra] call have captured. *)
Record Closure := mkClosure {
  cl_container : nat;
  cl_containerId : string;
  cl_ggbFileName : string;
  cl_params : Params;
  cl_script : nat
}.

(** One call of [loadGeoGebra]: its handlers (when a script element was
    created), whether that element has dispatched its load or error event,
    and the invocations of [resolve]/[reject] so far. *)
Record Call := mkCall {
  c_closure : option Closure;
  c_fired : bool;
  c_settles : list Outcome
}.

Record World := mkWorld {
  location : Location;
  dom : Dom;
  window : gmap string WinVal;
  timers : gmap nat Timer;
  next_timer : nat;
  calls : list Call;
  console : list string;
  constructed : list (Params * string)
}.

Module Upd.

Definition with_dom (f : Dom -> Dom) (w : World) : World :=
  mkWorld (location w) (f (dom w)) (window w) (timers w) (next_timer w)
          (calls w) (console w) (constructed w).

Definition with_window (f : gmap string WinVal -> gmap string WinVal) (w : World) : World :=
  mkWorld (location w) (dom w) (f (window w)) (timers w) (next_timer w)
          (calls w) (console w) (constructed w).

Definition with_calls (f : list Call -> list Call) (w : World) : World :=
  mkWorld (location w) (dom w) (window w) (timers w) (next_timer w)
          (f (calls w)) (console w) (constructed w).

(** [console.log], [console.warn], [console.error]. *)
Definition log (msg : string) (w : World) : World :=
  mkWorld (location w) (dom w) (window w) (timers w) (next_timer w)
          (calls w) (console w ++ [msg]) (constructed w).

(** [setInterval(callback, ms)]: a fresh handle. *)
Definition setInterval (t : Timer) (w : World) : World :=
  mkWorld (location w) (dom w) (window w) (<[next_timer w := t]> (timers w))
          (S (next_timer w)) (calls w) (console w) (constructed w).

(** [clearInterval(handle)]. *)
Definition clearInterval (h : nat) (w : World) : World :=
  mkWorld (location w) (dom w) (window w) (delete h (timers w)) (next_timer w)
          (calls w) (console w) (constructed w).

(** Record one [new GGBApplet(params, true)] / [inject(containerId)]. *)
Definition construct (p : Params) (containerId : string) (w : World) : World :=
  mkWorld (location w) (dom w) (window w) (timers w) (next_timer w)
          (calls w) (console w) (constructed w ++ [(p, containerId)]).

(** [resolve(v)] / [reject(r)] of call [c]. *)
Definition settle (c : nat) (o : Outcome) (w : World) : World :=
  with_calls (alter (fun k => mkCall (c_closure k) (c_fired k) (c_settles k ++ [o])) c) w.

(** The script element of call [c] has dispatched its event. *)
Definition fire (c : nat) (w : World) : World :=
  with_calls (alter (fun k => mkCall (c_closure k) true (c_settles k)) c) w.

End Upd.

Import Upd.

(** The promise returned by call [c]. *)
Definition promise (c : nat) (w : World) : PromiseState :=
  match calls w !! c with
  | Some k => promise_state (c_settles k)
  | None => Pending
  end.

(** How many times call [c] has invoked [resolve] or [reject]. *)
Definition settlements (c : nat) (w : World) : nat :=
  match calls w !! c with
  | Some k => length (c_settles k)
  | None => 0
  end.

(** ** The loader *)

Definition isLiveServer (l : Location) : bool :=
  String.eqb (hostname l) "localhost" || String.eqb (hostname l) "127.0.0.1".

Definition isFileProtocol (l : Location) : bool :=
  String.eqb (protocol l) "file:".

Definition basePath (l : Location) : string :=
  if isLiveServer l
  then "http://" +:+ hostname l +:+ ":5500/assets/ggb/"
  else (if isFileProtocol l then "./assets/ggb/" else "/assets/ggb/").

Definition scriptId (is3D : bool) : string :=
  if is3D then "geogebra-3d-script" else "geogebra-script".

Definition scriptSrc (is3D : bool) : string :=
  if is3D
  then "https://www.geogebra.org/apps/latest/web3d.nocache.js"
  else "https://www.geogebra.org/apps/latest/web.nocache.js".

Definition mkParamsFor (l : Location) (ggbFileName : string) (is3D : bool) : Params :=
  {| appName := if is3D then "3d" else "classic";
     width := 800;
     height := 500;
     showToolBar := true;
     showAlgebraInput := true;
     showMenuBar := false;
     enableRightClick := false;
     enableShiftDragZoom := true;
     showResetIcon := true;
     useBrowserForJS := true;
     filename := basePath l +:+ ggbFileName |}.

(** [!ggbFileName || !ggbFileName.endsWith('.ggb')] *)
Definition invalidName (ggbFileName : option string) : bool :=
  match ggbFileName with
  | None => true
  | Some name => negb (truthy_string name) || negb (endsWith name ".ggb")
  end.

(** Start a promise whose executor has already rejected it. *)
Definition rejected (r : Reason) (w : World) : World * nat :=
  (with_calls (fun cs => cs ++ [mkCall None false [Rejected r]]) w,
   length (calls w)).

(** [loadGeoGebra(containerId, ggbFileName, is3D)]: the executor of the
    returned promise runs to its end inside the call; the result is the
    new state and the promise. *)
Definition loadGeoGebra (containerId : string) (ggbFileName : option string)
    (is3D : bool) (w : World) : World * nat :=
  match getElementById containerId (dom w) with
  | None => rejected (ErrorObj (Text.mountNotFound containerId)) w
  | Some container =>
    if invalidName ggbFileName
    then rejected (ErrorObj Text.invalidResourceName) w
    else
      let name := default "" ggbFileName in
      let w := with_dom (setInnerHTML container (Text.loadingHtml name)) w in
      let params := mkParamsFor (location w) name is3D in
      let w :=
        match getElementById (scriptId is3D) (dom w) with
        | Some existingScript =>
            with_dom (remove existingScript) (log Text.scriptExists w)
        | None => w
        end in
      let '(d, script) :=
        createElement (mkElement TagScript (scriptId is3D) (scriptSrc is3D) "") (dom w) in
      let w := with_dom (fun _ => d) w in
      let closure := mkClosure container containerId name params script in
      let w := with_dom (appendToHead script) w in
      (with_calls (fun cs => cs ++ [mkCall (Some closure) false []]) w,
       length (calls w))
  end.

(** ** Events *)

Inductive Event :=
  | ScriptLoad (call : nat)
  | ScriptError (call : nat) (error : string)
  | Tick (handle : nat)
  | SetWindow (key : string) (v : WinVal)
  | CallLoad (containerId : string) (ggbFileName : option string) (is3D : bool).

(** [script.onload] of call [c]. *)
Definition onload (c : nat) (w : World) : World :=
  setInterval (CheckInterval c) (log Text.scriptLoaded w).

(** [script.onerror] of call [c]. *)
Definition onerror (c : nat) (cl : Closure) (error : string) (w : World) : World :=
  let w := log Text.scriptFailed w in
  let w := with_dom (setInnerHTML (cl_container cl)
             (Text.errorPanelHtml (cl_ggbFileName cl)
                (basePath (location w) +:+ cl_ggbFileName cl))) w in
  settle c (Rejected (EventObj error)) w.

(** What [new GGBApplet(params, true)] followed by
    [applet.inject(containerId)] does when [window.GGBApplet] holds [v]:
    [Some message] when an error with that message is thrown.  What is
    thrown is taken to be an error object; a thrown [null] or
    [undefined], whose [message] the [catch] block could not read, is
    not part of the model. *)
Definition instantiate (v : option WinVal) (p : Params) (containerId : string)
    : option string :=
  match v with
  | Some (VConstructor throws) => throws p containerId
  | _ => Some Text.notAConstructor
  end.

(** The callback of [checkInterval], installed with handle [h] by call [c]. *)
Definition checkInterval (h c : nat) (cl : Closure) (w : World) : World :=
  if truthy (window w !! "GGBApplet") then
    let w := clearInterval h w in
    let w := construct (cl_params cl) (cl_containerId cl) w in
    match instantiate (window w !! "GGBApplet") (cl_params cl) (cl_containerId cl) with
    | None => setInterval (OnLoaded c) w
    | Some message =>
        settle c (Rejected (ErrorObj (Text.initializationFailed message))) w
    end
  else w.

(** The callback of [onLoaded], installed with handle [h] by call [c]. *)
Definition onLoaded (h c : nat) (cl : Closure) (w : World) : World :=
  let appletInstance := window w !! (cl_containerId cl +:+ "_applet") in
  match appletInstance with
  | Some v =>
    if truthy appletInstance then
      let w := clearInterval h w in
      let w := log (Text.appletLoaded (cl_ggbFileName cl)) w in
      settle c (Resolved v) w
    else w
  | None => w
  end.

Definition closure_of (c : nat) (w : World) : option Closure :=
  calls w !! c ≫= c_closure.

(** A script element dispatches at most one of load and error, once. *)
Definition fetching (c : nat) (w : World) : option Closure :=
  match calls w !! c with
  | Some k => if c_fired k then None else c_closure k
  | None => None
  end.

Definition step (e : Event) (w : World) : World :=
  match e with
  | ScriptLoad c =>
      match fetching c w with
      | Some _ => onload c (fire c w)
      | None => w
      end
  | ScriptError c error =>
      match fetching c w with
      | Some cl => onerror c cl error (fire c w)
      | None => w
      end
  | Tick h =>
      match timers w !! h with
      | Some (CheckInterval c) =>
          match closure_of c w with
          | Some cl => checkInterval h c cl w
          | None => w
          end
      | Some (OnLoaded c) =>
          match closure_of c w with
          | Some cl => onLoaded h c cl w
          | None => w
          end
      | None => w
      end
  | SetWindow key v => with_window (insert key v) w
  | CallLoad containerId ggbFileName is3D =>
      fst (loadGeoGebra containerId ggbFileName is3D w)
  end.

(** Run the events in order, oldest first. *)
Definition run (es : list Event) (w : World) : World :=
  fold_left (fun w e => step e w) es w.

(** ** The iframe helper *)

Definition embedGeoGebra (containerId : string) (materialId : option string)
    (width height : Z) (showBorder : bool) (w : World) : World :=
  match getElementById containerId (dom w) with
  | None => log (Text.mountNotFound containerId) w
  | Some container =>
    if negb (truthy_arg materialId)
    then log Text.invalidMaterial w
    else
      let borderStyle := if showBorder then Text.borderOn else Text.borderOff in
      with_dom (setInnerHTML container
                  (Text.iframeHtml (default "" materialId) (pretty width)
                     (pretty height) borderStyle)) w
  end.

(** A stand-in for the browser's parser, for the examples: inside a script
    element markup is text; elsewhere it builds the script element that
    one known piece of markup denotes, as a child of the element written
    to, and nothing else. *)
Definition scriptMarkup : string :=
  "<script id=" +:+ dq +:+ "geogebra-script" +:+ dq +:+ "></script>".

Definition demoParser (context : Tag) (html : string) : list (Element * nat) :=
  match context with
  | TagScript => []
  | TagDiv | TagOther =>
      match String.index 0 scriptMarkup html with
      | Some _ => [(mkElement TagScript "geogebra-script" "" "", 0)]
      | None => []
      end
  end.

(** A page with the given elements in its body, in tree order and each
    with its nesting depth, and nothing else. *)
Definition document (l : Location) (els : list (Element * nat)) : World :=
  {| location := l;
     dom := {| nodes := list_to_map (zip (seq 0 (length els)) els.*1);
               depth := list_to_map (zip (seq 0 (length els)) els.*2);
               head := [];
               body := seq 0 (length els);
               next_node := length els;
               parseHTML := demoParser |};
     window := ∅;
     timers := ∅;
     next_timer := 0;
     calls := [];
     console := [];
     constructed := [] |}.

(** A page with the given elements as the children of its body. *)
Definition page (l : Location) (els : list Element) : World :=
  document l ((fun e => (e, 0)) <$> els).

(** ** The protocol as a state machine

    Each call is in one of the states of the load protocol; the state is
    read off the call's record and the timers it owns. *)

(** The active timers whose callback belongs to call [c]. *)
Definition owned (c : nat) (ts : gmap nat Timer) : gmap nat Timer :=
  filter (fun ht => timer_call ht.2 = c) ts.

Inductive Phase :=
  | AwaitingResource
  | AwaitingLibraryGlobal (handle : nat)
  | AwaitingInstance (handle : nat)
  | Settled (o : Outcome).

Definition phase_holds (c : nat) (k : Call) (ts : gmap nat Timer) (p : Phase) : Prop :=
  match p with
  | AwaitingResource =>
      is_Some (c_closure k) ∧ c_fired k = false ∧ c_settles k = [] ∧ ts = ∅
  | AwaitingLibraryGlobal h =>
      is_Some (c_closure k) ∧ c_fired k = true ∧ c_settles k = []
      ∧ ts = {[h := CheckInterval c]}
  | AwaitingInstance h =>
      is_Some (c_closure k) ∧ c_fired k = true ∧ c_settles k = []
      ∧ ts = {[h := OnLoaded c]}
  | Settled o =>
      (c_closure k = None ∨ c_fired k = true) ∧ c_settles k = [o] ∧ ts = ∅
  end.

Definition in_phase (c : nat) (w : World) (p : Phase) : Prop :=
  ∃ k, calls w !! c = Some k ∧ phase_holds c k (owned c (timers w)) p.

(** The transitions of the protocol; there is no way back. *)
Inductive advance : Phase -> Phase -> Prop :=
  | adv_loaded h : advance AwaitingResource (AwaitingLibraryGlobal h)
  | adv_load_failed r : advance AwaitingResource (Settled (Rejected r))
  | adv_library h h' : advance (AwaitingLibraryGlobal h) (AwaitingInstance h')
  | adv_init_failed h r : advance (AwaitingLibraryGlobal h) (Settled (Rejected r))
  | adv_instance h v : advance (AwaitingInstance h) (Settled (Resolved v)).

(** Well-formed browser states: attached nodes and active timers have been
    allocated, a captured container is a node of the store, timers belong
    to existing calls, and every call is in a state of the protocol. *)
Record consistent (w : World) : Prop := mkConsistent {
  cons_dom : ∀ x, x ∈ tree (dom w) → x < next_node (dom w);
  cons_closure : ∀ c cl, closure_of c w = Some cl →
                   is_Some (nodes (dom w) !! cl_container cl);
  cons_timers : ∀ h t, timers w !! h = Some t →
                  h < next_timer w ∧ timer_call t < length (calls w);
  cons_phase : ∀ c, c < length (calls w) → ∃ p, in_phase c w p
}.

(** A test fixture: a mock library whose construction never throws. *)
Definition mockLibrary : WinVal := VConstructor (fun _ _ => None).

(** The script loads, the library global is observed by the [N]-th tick
    of the first timer [hA], the instance by the [M]-th tick of the second
    timer [hB]. *)
Definition mockSchedule (c hA hB N M : nat) (containerId : string)
    (library instance : WinVal) : list Event :=
  ScriptLoad c :: repeat (Tick hA) (N - 1)
    ++ SetWindow "GGBApplet" library :: Tick hA :: repeat (Tick hB) (M - 1)
    ++ [SetWindow (containerId +:+ "_applet") instance; Tick hB].

Definition isTick (e : Event) : bool :=
  match e with Tick _ => true | _ => false end.

(** The path formula as the specification words it. *)
Definition spec_basePath (l : Location) : string :=
  if decide (hostname l = "localhost" ∨ hostname l = "127.0.0.1")
  then "http://" +:+ hostname l +:+ ":5500/assets/ggb/"
  else if decide (protocol l = "file:")
       then "./assets/ggb/"
       else "/assets/ggb/".

(** The page after a call that passes both validations. *)
Definition replaced (container : nat) (name : string) (is3D : bool) (d : Dom) : Dom :=
  let d1 := setInnerHTML container (Text.loadingHtml name) d in
  let d2 := match getElementById (scriptId is3D) d1 with
            | Some existingScript => remove existingScript d1
            | None => d1
            end in
  appendToHead (next_node d2)
    (createElement (mkElement TagScript (scriptId is3D) (scriptSrc is3D) "") d2).1.

(** ** Fixtures *)

Definition demoLocation : Location := mkLocation "example.org" "https:".

(** A page whose body holds one [div] with id [box]. *)
Definition demoPage : World :=
  page demoLocation [mkElement TagDiv "box" "" "old"].

(** [demoPage] after [loadGeoGebra('box', 'derivative.ggb')]. *)
Definition demoLoading : World :=
  (loadGeoGebra "box" (Some "derivative.ggb") false demoPage).1.

(** A library whose construction throws. *)
Definition brokenLibrary : WinVal := VConstructor (fun _ _ => Some "boom").

(** [demoLoading] once the script has loaded and published a library
    whose construction throws. *)
Definition demoBroken : World :=
  run [ScriptLoad 0; SetWindow "GGBApplet" brokenLibrary] demoLoading.

(** ** Further notions used by the properties *)

(** The call an event belongs to: the call whose handler it runs. *)
Definition subject (e : Event) (w : World) : option nat :=
  match e with
  | ScriptLoad c | ScriptError c _ => Some c
  | Tick h => timer_call <$> timers w !! h
  | SetWindow _ _ | CallLoad _ _ _ => None
  end.

(** How far a call has come. *)
Definition progress (p : Phase) : nat :=
  match p with
  | AwaitingResource => 0
  | AwaitingLibraryGlobal _ => 1
  | AwaitingInstance _ => 2
  | Settled _ => 3
  end.

(** [demoLoading] once the script has loaded, the library has been
    constructed and the instance has been published. *)
Definition demoReady : World :=
  run [ScriptLoad 0; SetWindow "GGBApplet" mockLibrary; Tick 0;
       SetWindow "box_applet" (VObject 7)] demoLoading.

(** How a handler run by event [e] in state [w] settles call [c]. *)
Inductive settles_by (e : Event) (w : World) (c : nat) : Outcome -> Prop :=
  | by_instance h cl v :
      e = Tick h →
      timers w !! h = Some (OnLoaded c) →
      closure_of c w = Some cl →
      window w !! (cl_containerId cl +:+ "_applet") = Some v →
      truthy (Some v) = true →
      settles_by e w c (Resolved v)
  | by_load_failure error :
      e = ScriptError c error →
      settles_by e w c (Rejected (EventObj error))
  | by_initialization h cl message :
      e = Tick h →
      timers w !! h = Some (CheckInterval c) →
      closure_of c w = Some cl →
      truthy (window w !! "GGBApplet") = true →
      instantiate (window w !! "GGBApplet") (cl_params cl) (cl_containerId cl)
        = Some message →
      settles_by e w c (Rejected (ErrorObj (Text.initializationFailed message))).

(** The writes to an [innerHTML] that event [e] makes in state [w], each
    with the node written to: the loading notice of a call that passes
    both validations, the error panel of a script element that fails to
    load. *)
Definition writes (e : Event) (w : World) : list (nat * string) :=
  match e with
  | ScriptError c _ =>
      match fetching c w with
      | Some cl =>
          [(cl_container cl,
            Text.errorPanelHtml (cl_ggbFileName cl)
              (basePath (location w) +:+ cl_ggbFileName cl))]
      | None => []
      end
  | CallLoad containerId ggbFileName _ =>
      match getElementById containerId (dom w) with
      | Some container =>
          if invalidName ggbFileName then []
          else [(container, Text.loadingHtml (default "" ggbFileName))]
      | None => []
      end
  | ScriptLoad _ | Tick _ | SetWindow _ _ => []
  end.

(** No markup written by the event builds an element that carries [id]. *)
Definition tidy (id : string) (e : Event) (w : World) : bool :=
  forallb (fun wr => negb (builds_id (dom w) id wr.1 wr.2)) (writes e w).

(** The same for every event of a run. *)
Fixpoint clean (id : string) (es : list Event) (w : World) : bool :=
  match es with
  | [] => true
  | e :: es' => tidy id e w && clean id es' (step e w)
  end.

(** A file name that passes the check and has markup in it. *)
Definition markupName : string := scriptMarkup +:+ "a.ggb".

(** A page on which two script elements carry the same id. *)
Definition twinPage : World :=
  page demoLocation
    [mkElement TagDiv "box" "" "";
     mkElement TagScript "geogebra-script" "a.js" "";
     mkElement TagScript "geogebra-script" "b.js" ""].

(** A page whose mount point has an element inside it, and a sibling
    after it. *)
Definition nestedPage : World :=
  document demoLocation
    [(mkElement TagDiv "box" "" "<span id=inner></span>", 0);
     (mkElement TagOther "inner" "" "", 1);
     (mkElement TagDiv "footer" "" "", 0)].


(** ** Version 1.0 of the file

    The first part of the source file is the earlier version of the same
    script.  Its base path has two cases, and its iframe helper has no
    guard on the material id and no border switch. *)

Module V10.

Definition basePath (l : Location) : string :=
  if isLiveServer l
  then "http://" +:+ hostname l +:+ ":5500/assets/ggb/"
  else "/assets/ggb/".

Definition iframeHtml (materialId width height : string) : string :=
"
    <iframe src=" +:+ dq +:+ "https://www.geogebra.org/material/iframe/id/" +:+ materialId +:+ "/width/" +:+ width +:+ "/height/" +:+ height +:+ dq +:+ " 
            width=" +:+ dq +:+ width +:+ dq +:+ " height=" +:+ dq +:+ height +:+ dq +:+ " frameborder=" +:+ dq +:+ "0" +:+ dq +:+ " 
            style=" +:+ dq +:+ "border: 1px solid #e2e8f0; border-radius: 8px;" +:+ dq +:+ ">
    </iframe>
    <p class=" +:+ dq +:+ "text-sm text-gray-500 mt-2" +:+ dq +:+ ">
      💡 拖动滑块或图形进行交互
    </p>
  ".

(** A template literal prints an omitted argument as [undefined]. *)
Definition interpolate (a : option string) : string :=
  default "undefined" a.

Definition embedGeoGebra (containerId : string) (materialId : option string)
    (width height : Z) (w : World) : World :=
  match getElementById containerId (dom w) with
  | None => w
  | Some container =>
      with_dom (setInnerHTML container
                  (iframeHtml (interpolate materialId) (pretty width)
                     (pretty height))) w
  end.

End V10.

(** * Properties *)

(** ** Strings *)

Lemma eqb_decide (s t : string) : String.eqb s t = bool_decide (s = t).
Proof.
  destruct (String.eqb_spec s t) as [->|Hne].
  - by rewrite bool_decide_eq_true_2.
  - by rewrite bool_decide_eq_false_2.
Qed.

Lemma mountNotFound_not_invalidName containerId :
  Text.mountNotFound containerId ≠ Text.invalidResourceName.
Proof.
  intros H. apply (f_equal (String.substring 0 14)) in H.
  vm_compute in H. discriminate H.
Qed.

(** ** DOM lemmas *)

Section DomLemmas.

Implicit Types (d : Dom) (h x c : nat) (id : string) (l repl : list nat).

Lemma getElementById_Some id d h :
  getElementById id d = Some h →
  h ∈ tree d ∧ ∃ e, nodes d !! h = Some e ∧ el_id e = id.
Proof.
  unfold getElementById. intros H.
  apply find_some in H as [Hin Hid].
  split; [by apply list_elem_of_In|].
  unfold has_id in Hid. destruct (nodes d !! h) as [e|]; [|done].
  exists e. split; [done|].
  apply andb_true_iff in Hid as [_ Hid]. by apply bool_decide_eq_true in Hid.
Qed.

(** *** Fresh nodes *)

Lemma lookup_fresh {A} (n : nat) (els : list A) x :
  (list_to_map (zip (seq n (length els)) els) : gmap nat A) !! x
  = if decide (n ≤ x)%nat then els !! (x - n) else None.
Proof.
  revert n. induction els as [|a els IH]; intros n; simpl.
  - rewrite lookup_empty. by case_decide.
  - rewrite lookup_insert. destruct (decide (n = x)) as [->|E].
    + rewrite decide_True by lia. by rewrite Nat.sub_diag.
    + rewrite IH. repeat case_decide; try lia; [|done].
      by replace (x - n) with (S (x - S n)) by lia.
Qed.

Lemma lookup_fresh_old {A} (n : nat) (els : list A) x :
  x < n → (list_to_map (zip (seq n (length els)) els) : gmap nat A) !! x = None.
Proof. intros Hx. rewrite lookup_fresh. by rewrite decide_False by lia. Qed.

Lemma nodes_setInnerHTML_old h html d x :
  x < next_node d →
  nodes (setInnerHTML h html d) !! x
  = if decide (x = h) then withInnerHTML html <$> nodes d !! x else nodes d !! x.
Proof.
  intros Hx. unfold setInnerHTML. simpl.
  assert (length (fragment h html d).*1 = length (fragment h html d)) as Hlen
    by apply length_fmap.
  assert (∀ y, y < next_node d →
    (list_to_map (zip (seq (next_node d) (length (fragment h html d)))
                      (fragment h html d).*1) ∪ nodes d) !! y = nodes d !! y)
    as Hold.
  { intros y Hy. apply lookup_union_r. rewrite <- Hlen.
    by apply lookup_fresh_old. }
  rewrite lookup_alter.
  destruct (decide (h = x)) as [->|Hne].
  - rewrite decide_True by done. by rewrite Hold.
  - rewrite decide_False by done. by rewrite Hold.
Qed.

(** What the parser builds depends on the tag of the element written to,
    which a write does not change. *)
Lemma fragment_setInnerHTML h html d h' html' :
  h' < next_node d →
  fragment h' html' (setInnerHTML h html d) = fragment h' html' d.
Proof.
  intros Hh. unfold fragment. rewrite nodes_setInnerHTML_old by done.
  case_decide; [|done]. by destruct (nodes d !! h').
Qed.

Lemma nodes_setInnerHTML_new h html d x :
  (next_node d ≤ x)%nat →
  el_id <$> nodes (setInnerHTML h html d) !! x
  = el_id <$> ((fragment h html d).*1 !! (x - next_node d)
               ∪ nodes d !! x).
Proof.
  intros Hx. unfold setInnerHTML. simpl.
  assert (length (fragment h html d).*1 = length (fragment h html d)) as Hlen
    by apply length_fmap.
  assert ((list_to_map (zip (seq (next_node d) (length (fragment h html d)))
                      (fragment h html d).*1) ∪ nodes d) !! x
          = (fragment h html d).*1 !! (x - next_node d) ∪ nodes d !! x) as Hnew.
  { rewrite lookup_union. rewrite <- Hlen, lookup_fresh.
    by rewrite decide_True by done. }
  rewrite lookup_alter.
  destruct (decide (h = x)) as [E|Hne]; [subst x|]; rewrite Hnew; [|done].
  by destruct ((fragment h html d).*1 !! (h - next_node d) ∪ nodes d !! h).
Qed.

Lemma nodes_setInnerHTML_is_Some h html d x :
  is_Some (nodes d !! x) → is_Some (nodes (setInnerHTML h html d) !! x).
Proof.
  intros Hx. unfold setInnerHTML. simpl.
  apply lookup_alter_is_Some, lookup_union_is_Some. by right.
Qed.

Lemma depth_setInnerHTML h html d x :
  depth (setInnerHTML h html d) !! x
  = (if decide (next_node d ≤ x)%nat
     then (fun r => S (depth_of d h + r)) <$> (fragment h html d).*2 !! (x - next_node d)
     else None) ∪ depth d !! x.
Proof.
  unfold setInnerHTML. simpl. rewrite lookup_union. f_equal.
  set (L := (fun r => S (depth_of d h + r)) <$> (fragment h html d).*2).
  assert (length L = length (fragment h html d)) as Hlen
    by (unfold L; by rewrite !length_fmap).
  rewrite <- Hlen, lookup_fresh. case_decide; [|done].
  unfold L. by rewrite list_lookup_fmap.
Qed.

Lemma depth_setInnerHTML_old h html d x :
  x < next_node d → depth_of (setInnerHTML h html d) x = depth_of d x.
Proof.
  intros Hx. unfold depth_of at 1. rewrite depth_setInnerHTML.
  rewrite decide_False by lia. by rewrite (left_id_L None _).
Qed.

Lemma depth_setInnerHTML_new h html d x :
  h < next_node d →
  (next_node d ≤ x < next_node d + length (fragment h html d))%nat →
  below (setInnerHTML h html d) h x = true.
Proof.
  intros Hh Hx. unfold below. rewrite depth_setInnerHTML_old by done.
  unfold depth_of at 2. rewrite depth_setInnerHTML.
  rewrite decide_True by lia.
  destruct (lookup_lt_is_Some_2 (fragment h html d).*2 (x - next_node d))
    as [r Hr]; [rewrite length_fmap; lia|].
  rewrite Hr. apply Nat.ltb_lt. simpl.
  destruct (depth d !! x); simpl; lia.
Qed.

Lemma has_id_setInnerHTML_old h html d id x :
  x < next_node d → has_id (setInnerHTML h html d) id x = has_id d id x.
Proof.
  intros Hx. unfold has_id. rewrite nodes_setInnerHTML_old by done.
  case_decide; [|done]. by destruct (nodes d !! x).
Qed.

Lemma is_script_setInnerHTML_old h html d x :
  x < next_node d → is_script (setInnerHTML h html d) x = is_script d x.
Proof.
  intros Hx. unfold is_script. rewrite nodes_setInnerHTML_old by done.
  case_decide; [|done]. by destruct (nodes d !! x).
Qed.

(** A fresh node carries an id only if the markup builds an element with
    that id. *)
Lemma has_id_setInnerHTML_new h html d id x :
  (next_node d ≤ x < next_node d + length (fragment h html d))%nat →
  has_id (setInnerHTML h html d) id x = true → builds_id d id h html = true.
Proof.
  intros Hx. unfold has_id, builds_id.
  pose proof (nodes_setInnerHTML_new h html d x (proj1 Hx)) as Hid.
  destruct (lookup_lt_is_Some_2 (fragment h html d).*1 (x - next_node d))
    as [e' E]; [rewrite length_fmap; lia|].
  rewrite E in Hid.
  destruct (nodes (setInnerHTML h html d) !! x) as [e|]; [|done].
  intros [_ He%bool_decide_eq_true]%andb_true_iff.
  apply existsb_exists. exists e'. split.
  - by eapply list_elem_of_In, list_elem_of_lookup_2.
  - apply bool_decide_eq_true. destruct (nodes d !! x); simpl in Hid; congruence.
Qed.

Lemma innerHTML_of_setInnerHTML h html d :
  is_Some (nodes d !! h) → innerHTML_of h (setInnerHTML h html d) = Some html.
Proof.
  intros Hh. unfold innerHTML_of, setInnerHTML. simpl.
  rewrite lookup_alter_eq.
  assert (is_Some ((list_to_map (zip (seq (next_node d) (length (fragment h html d)))
                                    (fragment h html d).*1) ∪ nodes d) !! h))
    as [e ->]; [|done].
  apply lookup_union_is_Some. by right.
Qed.

(** *** Replacing a subtree *)

Lemma graft_elem d c repl inside l x :
  x ∈ graft d c repl inside l → (x ∈ repl ∧ c ∈ l) ∨ (x ∈ l ∧ x ≠ c).
Proof.
  revert inside. induction l as [|y l IH]; intros inside; simpl.
  - by intros ?%elem_of_nil.
  - assert (∀ s, x ∈ graft d c repl s l →
              x ∈ repl ∧ c ∈ y :: l ∨ x ∈ y :: l ∧ x ≠ c) as IH'.
    { intros s H. destruct (IH _ H) as [[? ?]|[? ?]]; [left|right].
      all: split; try done; by apply elem_of_cons; right. }
    destruct (Nat.eqb_spec y c) as [->|Hne].
    + rewrite elem_of_app. intros [?|H]; [|by eapply IH'].
      left. split; [done|]. by apply elem_of_cons; left.
    + destruct (inside && below d c y); [by apply IH'|].
      rewrite elem_of_cons. intros [->|H]; [|by eapply IH'].
      right. split; [by apply elem_of_cons; left|done].
Qed.

Lemma graft_keep d c repl inside l x :
  c ∈ l → x ∈ repl → x ∈ graft d c repl inside l.
Proof.
  intros Hc Hx. revert inside. induction l as [|y l IH]; intros inside; simpl.
  - by apply elem_of_nil in Hc.
  - destruct (Nat.eqb_spec y c) as [->|Hne].
    + apply elem_of_app. by left.
    + apply elem_of_cons in Hc as [->|Hc]; [done|].
      destruct (inside && below d c y); [by apply IH|].
      apply elem_of_cons. right. by apply IH.
Qed.

(** A node that is not in the list has no subtree there. *)
Lemma graft_absent d c repl l : c ∉ l → graft d c repl false l = l.
Proof.
  induction l as [|y l IH]; [done|]. intros Hc. simpl.
  apply not_elem_of_cons in Hc as [Hne Hc].
  destruct (Nat.eqb_spec y c) as [->|_]; [done|]. by rewrite IH.
Qed.

Lemma graft_filter_le d c repl inside l (f : nat → bool) :
  (length (List.filter f repl) ≤ length (List.filter f [c]))%nat →
  (length (List.filter f (graft d c repl inside l)) ≤ length (List.filter f l))%nat.
Proof.
  intros Hrepl. revert inside.
  induction l as [|y l IH]; intros inside; [done|]. simpl.
  destruct (Nat.eqb_spec y c) as [->|Hne].
  - rewrite List.filter_app, length_app. specialize (IH true).
    simpl in Hrepl. destruct (f c); simpl in *; lia.
  - destruct (inside && below d c y).
    + specialize (IH true). destruct (f y); simpl; lia.
    + specialize (IH false). simpl. destruct (f y); simpl; lia.
Qed.

(** Grafting onto a node whose subtree has just been replaced by deeper
    fresh nodes: the fresh nodes go, as the old subtree would have. *)
Lemma graft_graft d d' c fresh repl inside l :
  (∀ x, x ∈ fresh → x ≠ c ∧ below d' c x = true) →
  (∀ x, x ∈ l → below d' c x = below d c x) →
  graft d' c repl inside (graft d c (c :: fresh) inside l)
  = graft d c repl inside l.
Proof.
  intros Hfresh Hold.
  assert (∀ l', graft d' c repl true (fresh ++ l') = graft d' c repl true l')
    as Hskip.
  { intros l'. induction fresh as [|y fr IH]; [done|]. simpl.
    destruct (Hfresh y) as [Hy Hb]; [by apply elem_of_cons; left|].
    destruct (Nat.eqb_spec y c) as [?|_]; [done|]. rewrite Hb. simpl.
    apply IH. intros x Hx. apply Hfresh. by apply elem_of_cons; right. }
  revert inside. induction l as [|y l IH]; intros inside; [done|]. simpl.
  assert (∀ x, x ∈ l → below d' c x = below d c x) as Hold'.
  { intros x Hx. apply Hold. by apply elem_of_cons; right. }
  destruct (Nat.eqb_spec y c) as [->|Hne].
  - simpl. rewrite Nat.eqb_refl. f_equal. rewrite Hskip. by apply IH.
  - destruct (inside && below d c y) eqn:E.
    + apply andb_true_iff in E as [-> _]. by apply IH.
    + simpl. destruct (Nat.eqb_spec y c) as [?|_]; [done|].
      rewrite Hold by (by apply elem_of_cons; left). rewrite E.
      f_equal. by apply IH.
Qed.

(** The first node that satisfies a test stays the first one when its own
    subtree is replaced. *)
Lemma graft_find d c repl l (f g : nat → bool) :
  (∀ x, x ∈ l → g x = f x) →
  List.find f l = Some c →
  List.find g (graft d c (c :: repl) false l) = Some c.
Proof.
  intros Hfg. induction l as [|y l IH]; [done|]. simpl.
  assert (g y = f y) as Hy by (by apply Hfg, elem_of_cons; left).
  destruct (Nat.eqb_spec y c) as [->|Hne].
  - simpl. rewrite Hy. destruct (f c) eqn:E; [done|].
    intros [_ H]%find_some. congruence.
  - simpl. rewrite Hy. destruct (f y); [by intros [= ?]|].
    apply IH. intros x Hx. apply Hfg. by apply elem_of_cons; right.
Qed.

Lemma graft_find_none d c repl l (f g : nat → bool) :
  (∀ x, x ∈ l → g x = f x) →
  c ∉ l →
  List.find g (graft d c repl false l) = List.find f l.
Proof.
  intros Hfg Hc. rewrite graft_absent by done.
  induction l as [|y l IH]; [done|]. simpl.
  apply not_elem_of_cons in Hc as [_ Hc].
  rewrite Hfg by (by apply elem_of_cons; left).
  destruct (f y); [done|]. apply IH; [|done].
  intros x Hx. apply Hfg. by apply elem_of_cons; right.
Qed.

(** Two grafts at the same node show the same list through two views that
    agree on the old nodes and on the replacements. *)
Lemma graft_fmap {B} d c repl repl' inside l (v v' : nat → B) :
  (∀ x, x ∈ l → v x = v' x) →
  v <$> repl = v' <$> repl' →
  v <$> graft d c repl inside l = v' <$> graft d c repl' inside l.
Proof.
  intros Hold Hrepl. revert inside.
  induction l as [|y l IH]; intros inside; [done|]. simpl.
  assert (∀ x, x ∈ l → v x = v' x) as Hold'.
  { intros x Hx. apply Hold. by apply elem_of_cons; right. }
  destruct (Nat.eqb_spec y c) as [->|Hne].
  - rewrite !fmap_app, Hrepl. f_equal. by apply IH.
  - destruct (inside && below d c y); [by apply IH|].
    rewrite !fmap_cons. f_equal; [|by apply IH].
    by apply Hold, elem_of_cons; left.
Qed.

(** *** What the operations do to the tree *)

Lemma find_app' {A} (f : A → bool) (l1 l2 : list A) :
  List.find f (l1 ++ l2)
  = match List.find f l1 with Some a => Some a | None => List.find f l2 end.
Proof. induction l1 as [|a l1 IH]; [done|]. simpl. by destruct (f a). Qed.

Lemma find_hd_filter {A} (f : A → bool) (l : list A) :
  List.find f l = hd_error (List.filter f l).
Proof. induction l as [|a l IH]; [done|]. simpl. by destruct (f a). Qed.

Lemma filter_length_le {A} (f : A → bool) (l : list A) :
  (length (List.filter f l) ≤ length l)%nat.
Proof. induction l as [|a l IH]; [done|]. simpl. destruct (f a); simpl; lia. Qed.

Lemma filter_nil_intro {A} (f : A → bool) (l : list A) :
  (∀ a, a ∈ l → f a = false) → List.filter f l = [].
Proof.
  induction l as [|a l IH]; [done|]. intros H. simpl.
  rewrite H by (by apply elem_of_cons; left).
  apply IH. intros x Hx. apply H. by apply elem_of_cons; right.
Qed.

(** *** What the operations do to the tree *)

Lemma tree_remove_elem h d x :
  x ∈ tree (remove h d) → x ∈ tree d ∧ x ≠ h.
Proof.
  unfold tree, remove. simpl. rewrite !elem_of_app.
  intros [H|H]; apply graft_elem in H as [[H _]|[H ?]];
    try (by apply elem_of_nil in H); tauto.
Qed.

Lemma tree_setInnerHTML_elem h html d x :
  x ∈ tree (setInnerHTML h html d) →
  x ∈ tree d ∨ (next_node d ≤ x < next_node d + length (fragment h html d))%nat.
Proof.
  unfold tree, setInnerHTML. simpl. rewrite !elem_of_app.
  intros [H|H]; apply graft_elem in H as [[H Hh]|[H ?]]; try tauto.
  all: apply elem_of_cons in H as [->|H%elem_of_seq]; [tauto|by right].
Qed.

(** An attached element stays attached when its contents are replaced,
    and the elements built from the markup are attached with it. *)
Lemma tree_setInnerHTML_keep h html d x :
  h ∈ tree d →
  x = h ∨ (next_node d ≤ x < next_node d + length (fragment h html d))%nat →
  x ∈ tree (setInnerHTML h html d).
Proof.
  intros Hh Hx.
  assert (x ∈ h :: seq (next_node d) (length (fragment h html d))) as Hrepl.
  { apply elem_of_cons. destruct Hx as [->|Hx]; [by left|right].
    by apply elem_of_seq. }
  unfold tree, setInnerHTML in *. simpl. apply elem_of_app.
  apply elem_of_app in Hh as [Hh|Hh]; [left|right]; by apply graft_keep.
Qed.

(** A detached element has no place in the tree: writing to it or removing
    it leaves the tree as it is. *)
Lemma tree_setInnerHTML_detached h html d :
  h ∉ tree d → tree (setInnerHTML h html d) = tree d.
Proof.
  unfold tree, setInnerHTML. simpl. intros [H1 H2]%not_elem_of_app.
  by rewrite !graft_absent.
Qed.

Lemma has_id_remove h d id x : has_id (remove h d) id x = has_id d id x.
Proof. done. Qed.

Lemma with_id_elem id d x :
  x ∈ with_id id d ↔ x ∈ tree d ∧ has_id d id x = true.
Proof. unfold with_id. by rewrite list_elem_of_In, List.filter_In, <- list_elem_of_In. Qed.

Lemma with_id_has_id id d x : x ∈ with_id id d → has_id d id x = true.
Proof. by intros [_ ?]%with_id_elem. Qed.

Lemma getElementById_with_id id d :
  getElementById id d = hd_error (with_id id d).
Proof. apply find_hd_filter. Qed.

Lemma with_id_split id d :
  with_id id d = List.filter (has_id d id) (head d) ++ List.filter (has_id d id) (body d).
Proof. unfold with_id, tree. apply List.filter_app. Qed.

Lemma with_id_remove_elem id h d x :
  x ∈ with_id id (remove h d) → x ∈ with_id id d ∧ x ≠ h.
Proof.
  rewrite !with_id_elem, has_id_remove. intros [[? ?]%tree_remove_elem ?].
  done.
Qed.

Lemma with_id_remove_le id h d :
  (length (with_id id (remove h d)) ≤ length (with_id id d))%nat.
Proof.
  rewrite !with_id_split. simpl.
  change (has_id (remove h d) id) with (has_id d id).
  rewrite !length_app.
  pose proof (graft_filter_le d h [] false (head d) (has_id d id)) as H1.
  pose proof (graft_filter_le d h [] false (body d) (has_id d id)) as H2.
  simpl in H1, H2. specialize (H1 ltac:(lia)). specialize (H2 ltac:(lia)).
  lia.
Qed.

(** Removing the one element that carries an id leaves none. *)
Lemma with_id_teardown id h d :
  (length (with_id id d) ≤ 1)%nat → getElementById id d = Some h →
  with_id id (remove h d) = [].
Proof.
  rewrite getElementById_with_id. intros Hone Hhd.
  destruct (with_id id (remove h d)) as [|x l] eqn:E; [done|].
  assert (x ∈ with_id id (remove h d)) as Hx
    by (rewrite E; by apply elem_of_cons; left).
  apply with_id_remove_elem in Hx as [Hx Hne].
  destruct (with_id id d) as [|y [|z l']]; simpl in *; try done; try lia.
  injection Hhd as ->. by apply list_elem_of_singleton in Hx.
Qed.

Lemma with_id_setInnerHTML_elem id h html d x :
  (∀ y, y ∈ tree d → y < next_node d) →
  x ∈ with_id id (setInnerHTML h html d) →
  x ∈ with_id id d ∨ builds_id d id h html = true.
Proof.
  intros Hd. rewrite !with_id_elem. intros [[Hx|Hx]%tree_setInnerHTML_elem Hid].
  - left. split; [done|]. by rewrite has_id_setInnerHTML_old in Hid by auto.
  - right. by eapply has_id_setInnerHTML_new.
Qed.

(** A write whose markup builds no element with the id adds no element
    with that id to the page. *)
Lemma with_id_setInnerHTML_le id h html d :
  (∀ y, y ∈ tree d → y < next_node d) →
  builds_id d id h html = false →
  (length (with_id id (setInnerHTML h html d)) ≤ length (with_id id d))%nat.
Proof.
  intros Hd Hno. rewrite !with_id_split, !length_app.
  set (d' := setInnerHTML h html d).
  assert (∀ l, (∀ y, y ∈ l → y < next_node d) →
    (length (List.filter (has_id d' id)
               (graft d h (h :: seq (next_node d) (length (fragment h html d))) false l))
     ≤ length (List.filter (has_id d id) l))%nat) as Hpart.
  { intros l Hl.
    rewrite <- (List.filter_ext_in (has_id d' id) (has_id d id) l).
    2:{ intros y Hy%list_elem_of_In. apply has_id_setInnerHTML_old. auto. }
    apply graft_filter_le. simpl.
    rewrite (filter_nil_intro (has_id d' id) (seq _ _)).
    { by destruct (has_id d' id h). }
    intros y Hy%elem_of_seq.
    destruct (has_id d' id y) eqn:E; [|done].
    apply has_id_setInnerHTML_new in E; [congruence|done]. }
  pose proof (Hpart (head d)) as H1. pose proof (Hpart (body d)) as H2.
  unfold d' at 2 4. simpl.
  assert (∀ y, y ∈ head d → y < next_node d)
    by (intros y Hy; apply Hd, elem_of_app; by left).
  assert (∀ y, y ∈ body d → y < next_node d)
    by (intros y Hy; apply Hd, elem_of_app; by right).
  specialize (H1 ltac:(done)). specialize (H2 ltac:(done)). lia.
Qed.

(** A new element appended to the head adds itself to the elements that
    carry its id, and to no others. *)
Lemma with_id_append id e d :
  (∀ x, x ∈ tree d → x < next_node d) →
  with_id id (appendToHead (next_node d) (createElement e d).1)
  = List.filter (has_id d id) (head d)
    ++ (if negb (String.eqb id "") && bool_decide (el_id e = id)
        then [next_node d] else [])
    ++ List.filter (has_id d id) (body d).
Proof.
  intros Hd. unfold with_id, tree. simpl.
  set (d' := appendToHead (next_node d) (createElement e d).1).
  rewrite !List.filter_app. simpl.
  assert (∀ l, (∀ x, x ∈ l → x < next_node d) →
    List.filter (has_id d' id) l = List.filter (has_id d id) l) as Hold.
  { intros l Hl. apply List.filter_ext_in. intros x Hx.
    apply list_elem_of_In, Hl in Hx. unfold has_id. simpl.
    rewrite lookup_insert_ne by lia. done. }
  rewrite !Hold.
  - unfold has_id at 2. simpl. rewrite lookup_insert_eq.
    rewrite <- app_assoc.
    by destruct (negb (String.eqb id "") && bool_decide (el_id e = id)).
  - intros x Hx. apply Hd. unfold tree. apply elem_of_app. by right.
  - intros x Hx. apply Hd. unfold tree. apply elem_of_app. by left.
Qed.

(** *** Writing twice, and writing before removing *)

Lemma graft_setInnerHTML h html d repl l :
  h < next_node d → (∀ y, y ∈ l → y < next_node d) →
  graft (setInnerHTML h html d) h repl false
    (graft d h (h :: seq (next_node d) (length (fragment h html d))) false l)
  = graft d h repl false l.
Proof.
  intros Hh Hl. apply graft_graft.
  - intros x Hx%elem_of_seq. split; [lia|].
    by apply depth_setInnerHTML_new.
  - intros x Hx. unfold below.
    by rewrite !depth_setInnerHTML_old by auto.
Qed.

(** Removing an element whose contents have just been written removes
    what was written with it. *)
Lemma tree_remove_setInnerHTML h html d :
  (∀ y, y ∈ tree d → y < next_node d) → h < next_node d →
  tree (remove h (setInnerHTML h html d)) = tree (remove h d).
Proof.
  intros Hd Hh. unfold tree. simpl.
  rewrite !graft_setInnerHTML; try done.
  all: intros y Hy; apply Hd, elem_of_app; tauto.
Qed.

(** The mount point is still what its id denotes after its contents have
    been replaced. *)
Lemma getElementById_setInnerHTML_self id h html d :
  (∀ y, y ∈ tree d → y < next_node d) →
  getElementById id d = Some h →
  getElementById id (setInnerHTML h html d) = Some h.
Proof.
  intros Hd. unfold getElementById, tree. simpl. rewrite !find_app'.
  set (d' := setInnerHTML h html d).
  assert (∀ l, (∀ y, y ∈ l → y ∈ head d ++ body d) →
            ∀ y, y ∈ l → has_id d' id y = has_id d id y) as Hold.
  { intros l Hl y Hy. apply has_id_setInnerHTML_old. auto. }
  destruct (List.find (has_id d id) (head d)) as [a|] eqn:E1.
  - intros [= ->]. erewrite graft_find; [done| |exact E1].
    apply Hold. intros y Hy. apply elem_of_app. by left.
  - intros E2.
    assert (h ∉ head d) as Hh.
    { intros Hin. apply find_some in E2 as [_ E2].
      eapply find_none in E1; [|by apply list_elem_of_In]. congruence. }
    erewrite graft_find_none, E1; [| |done].
    + erewrite graft_find; [done| |exact E2].
      apply Hold. intros y Hy. apply elem_of_app. by right.
    + apply Hold. intros y Hy. apply elem_of_app. by left.
Qed.

End DomLemmas.

(** ** Timers of one call *)

Section Owned.
Implicit Types (ts : gmap nat Timer) (t : Timer) (c h : nat).

Lemma owned_lookup c ts h t :
  owned c ts !! h = Some t ↔ ts !! h = Some t ∧ timer_call t = c.
Proof. unfold owned. by rewrite map_lookup_filter_Some. Qed.

Lemma owned_insert c ts h t :
  ts !! h = None →
  owned c (<[h:=t]> ts)
  = if decide (timer_call t = c) then <[h:=t]> (owned c ts) else owned c ts.
Proof.
  intros Hfresh. unfold owned. rewrite map_filter_insert. simpl.
  case_decide; [done|]. by rewrite delete_id.
Qed.

Lemma owned_delete c ts h : owned c (delete h ts) = delete h (owned c ts).
Proof. unfold owned. apply map_filter_delete. Qed.

Lemma owned_delete_other c ts h t :
  ts !! h = Some t → timer_call t ≠ c → owned c (delete h ts) = owned c ts.
Proof.
  intros Hh Hne. rewrite owned_delete. apply delete_id.
  destruct (owned c ts !! h) as [t'|] eqn:E; [|done].
  apply owned_lookup in E as [E1 E2]. congruence.
Qed.

Lemma owned_empty c : owned c ∅ = ∅.
Proof. unfold owned. apply map_filter_empty. Qed.
End Owned.

(** ** Phases of one call *)

Section Phases.
Implicit Types (w : World) (c h : nat) (p : Phase).

Lemma in_phase_frame c w w' p :
  calls w' !! c = calls w !! c → owned c (timers w') = owned c (timers w) →
  in_phase c w p → in_phase c w' p.
Proof. intros Hc Ht (k & Hk & Hp). exists k. by rewrite Hc, Ht. Qed.

Lemma in_phase_lt c w p : in_phase c w p → c < length (calls w).
Proof. intros (k & Hk & _). by eapply lookup_lt_Some. Qed.

Lemma fresh_timer w : consistent w → timers w !! next_timer w = None.
Proof.
  intros Hw. destruct (timers w !! next_timer w) as [t|] eqn:E; [|done].
  apply (cons_timers _ Hw) in E as [E _]. lia.
Qed.

Lemma fetching_Some c w cl :
  fetching c w = Some cl ↔
  ∃ k, calls w !! c = Some k ∧ c_fired k = false ∧ c_closure k = Some cl.
Proof.
  unfold fetching. split.
  - destruct (calls w !! c) as [k|]; [|done].
    destruct (c_fired k) eqn:E; [done|]. intros. by exists k.
  - intros (k & -> & -> & ->). done.
Qed.

Lemma fetching_phase c w cl :
  consistent w → fetching c w = Some cl → in_phase c w AwaitingResource.
Proof.
  intros Hw Hf. apply fetching_Some in Hf as (k & Hk & Hfired & Hcl).
  destruct (cons_phase _ Hw c) as [p (k' & Hk' & Hp)]; [by eapply lookup_lt_Some|].
  assert (k' = k) as -> by congruence.
  exists k. split; [done|].
  destruct p; simpl in *; destruct Hp as (H1 & H2 & H3); try congruence.
  - split; [done|]. by destruct H3.
  - destruct H1; congruence.
Qed.

Lemma checkInterval_phase c w h :
  consistent w → timers w !! h = Some (CheckInterval c) →
  in_phase c w (AwaitingLibraryGlobal h).
Proof.
  intros Hw Ht.
  destruct (cons_timers _ Hw _ _ Ht) as [_ Hc]. simpl in Hc.
  destruct (cons_phase _ Hw c Hc) as [p (k & Hk & Hp)].
  assert (owned c (timers w) !! h = Some (CheckInterval c)) as Ho
    by (by apply owned_lookup).
  exists k. split; [done|].
  destruct p; simpl in *.
  - destruct Hp as (_ & _ & _ & E). by rewrite E in Ho.
  - destruct Hp as (? & ? & ? & E). rewrite E in Ho.
    apply lookup_singleton_Some in Ho as [-> _]. done.
  - destruct Hp as (? & ? & ? & E). rewrite E in Ho.
    apply lookup_singleton_Some in Ho as [_ ?]. done.
  - destruct Hp as (_ & _ & E). by rewrite E in Ho.
Qed.

Lemma onLoaded_phase c w h :
  consistent w → timers w !! h = Some (OnLoaded c) →
  in_phase c w (AwaitingInstance h).
Proof.
  intros Hw Ht.
  destruct (cons_timers _ Hw _ _ Ht) as [_ Hc]. simpl in Hc.
  destruct (cons_phase _ Hw c Hc) as [p (k & Hk & Hp)].
  assert (owned c (timers w) !! h = Some (OnLoaded c)) as Ho
    by (by apply owned_lookup).
  exists k. split; [done|].
  destruct p; simpl in *.
  - destruct Hp as (_ & _ & _ & E). by rewrite E in Ho.
  - destruct Hp as (? & ? & ? & E). rewrite E in Ho.
    apply lookup_singleton_Some in Ho as [_ ?]. done.
  - destruct Hp as (? & ? & ? & E). rewrite E in Ho.
    apply lookup_singleton_Some in Ho as [-> _]. done.
  - destruct Hp as (_ & _ & E). by rewrite E in Ho.
Qed.

(** A call is in one phase only. *)
Lemma in_phase_unique c w p q : in_phase c w p → in_phase c w q → p = q.
Proof.
  intros (k & Hk & Hp) (k' & Hk' & Hq).
  assert (k' = k) as -> by congruence.
  destruct p as [|hp|hp|op], q as [|hq|hq|oq]; simpl in *;
    destruct_and!; try congruence.
  all: match goal with
       | E1 : ?ts = {[?a := _]}, E2 : ?ts = {[_ := _]} |- _ =>
           rewrite E1 in E2; apply (f_equal (lookup a)) in E2;
           rewrite lookup_singleton_eq in E2;
           apply eq_sym, lookup_singleton_Some in E2 as [? ?];
           by simplify_eq
       end.
Qed.
End Phases.

(** ** One event moves every call forward, or leaves it where it is *)

Section Steps.
Implicit Types (w : World) (c h : nat) (p : Phase).

Lemma load_calls containerId f is3D w :
  ∃ k, calls (loadGeoGebra containerId f is3D w).1 = calls w ++ [k]
       ∧ (loadGeoGebra containerId f is3D w).2 = length (calls w)
       ∧ timers (loadGeoGebra containerId f is3D w).1 = timers w
       ∧ next_timer (loadGeoGebra containerId f is3D w).1 = next_timer w
       ∧ window (loadGeoGebra containerId f is3D w).1 = window w
       ∧ location (loadGeoGebra containerId f is3D w).1 = location w
       ∧ constructed (loadGeoGebra containerId f is3D w).1 = constructed w
       ∧ c_fired k = false
       ∧ (c_settles k = [] ∧ is_Some (c_closure k)
          ∨ (∃ r, c_settles k = [Rejected r]) ∧ c_closure k = None).
Proof.
  unfold loadGeoGebra.
  destruct (getElementById containerId (dom w)) as [container|].
  2:{ eexists. repeat split; simpl; try done. right. eauto. }
  destruct (invalidName f).
  { eexists. repeat split; simpl; try done. right. eauto. }
  simpl. destruct (getElementById (scriptId is3D) _);
    (eexists; repeat split; simpl; try done; left; eauto).
Qed.

Lemma step_advance e w c p :
  consistent w → in_phase c w p →
  ∃ p', in_phase c (step e w) p' ∧ (p' = p ∨ advance p p').
Proof.
  intros Hw Hp.
  assert (∀ w', calls w' !! c = calls w !! c →
                owned c (timers w') = owned c (timers w) →
                ∃ p', in_phase c w' p' ∧ (p' = p ∨ advance p p')) as Hframe.
  { intros w' H1 H2. exists p. split; [by eapply in_phase_frame|by left]. }
  pose proof (fresh_timer w Hw) as Hfresh.
  destruct e as [c'|c' err|h|key v|cid f is3D]; simpl.
  - (* script.onload *)
    destruct (fetching c' w) as [cl|] eqn:Hf; [|by apply Hframe].
    destruct (decide (c = c')) as [->|Hne].
    + pose proof (fetching_phase _ _ _ Hw Hf) as Hq.
      rewrite (in_phase_unique _ _ _ _ Hp Hq).
      exists (AwaitingLibraryGlobal (next_timer w)). split; [|right; constructor].
      destruct Hq as (k & Hk & Hcl & _ & Hs & Ho).
      eexists. split.
      { simpl. rewrite list_lookup_alter_eq, Hk. done. }
      simpl. repeat split; try done.
      rewrite owned_insert by done. rewrite decide_True by done.
      by rewrite Ho, insert_empty.
    + apply Hframe; simpl.
      * by rewrite list_lookup_alter_ne.
      * rewrite owned_insert by done. by rewrite decide_False.
  - (* script.onerror *)
    destruct (fetching c' w) as [cl|] eqn:Hf; [|by apply Hframe].
    destruct (decide (c = c')) as [->|Hne].
    + pose proof (fetching_phase _ _ _ Hw Hf) as Hq.
      rewrite (in_phase_unique _ _ _ _ Hp Hq).
      exists (Settled (Rejected (EventObj err))). split; [|right; constructor].
      destruct Hq as (k & Hk & Hcl & _ & Hs & Ho).
      eexists. split.
      { simpl. rewrite !list_lookup_alter_eq, Hk. done. }
      simpl. rewrite Hs. repeat split; try done. by right.
    + apply Hframe; simpl; [|done].
      by rewrite !list_lookup_alter_ne.
  - (* a timer fires *)
    destruct (timers w !! h) as [[c'|c']|] eqn:Ht; [| |by apply Hframe].
    + destruct (closure_of c' w) as [cl|]; [|by apply Hframe].
      unfold checkInterval.
      destruct (truthy (window w !! "GGBApplet")); [|by apply Hframe].
      simpl.
      destruct (instantiate _ _ _) as [message|].
      * destruct (decide (c = c')) as [->|Hne].
        -- pose proof (checkInterval_phase _ _ _ Hw Ht) as Hq.
           rewrite (in_phase_unique _ _ _ _ Hp Hq).
           eexists (Settled (Rejected _)). split; [|right; constructor].
           destruct Hq as (k & Hk & Hcl & Hfired & Hs & Ho).
           eexists. split.
           { simpl. rewrite list_lookup_alter_eq, Hk. done. }
           simpl. rewrite Hs. repeat split; try done; [by right|].
           by rewrite owned_delete, Ho, delete_singleton_eq.
        -- apply Hframe; simpl.
           ++ by rewrite list_lookup_alter_ne.
           ++ by eapply owned_delete_other.
      * assert (delete h (timers w) !! next_timer w = None) as Hfresh'.
        { apply lookup_delete_None. by right. }
        destruct (decide (c = c')) as [->|Hne].
        -- pose proof (checkInterval_phase _ _ _ Hw Ht) as Hq.
           rewrite (in_phase_unique _ _ _ _ Hp Hq).
           exists (AwaitingInstance (next_timer w)). split; [|right; constructor].
           destruct Hq as (k & Hk & Hcl & Hfired & Hs & Ho).
           exists k. split; [done|].
           simpl. repeat split; try done.
           rewrite owned_insert by done. rewrite decide_True by done.
           by rewrite owned_delete, Ho, delete_singleton_eq, insert_empty.
        -- apply Hframe; simpl; [done|].
           rewrite owned_insert by done. rewrite decide_False by done.
           by eapply owned_delete_other.
    + destruct (closure_of c' w) as [cl|]; [|by apply Hframe].
      unfold onLoaded.
      destruct (window w !! (cl_containerId cl +:+ "_applet")) as [v|];
        [|by apply Hframe].
      destruct (truthy (Some v)); [|by apply Hframe].
      destruct (decide (c = c')) as [->|Hne].
      * pose proof (onLoaded_phase _ _ _ Hw Ht) as Hq.
        rewrite (in_phase_unique _ _ _ _ Hp Hq).
        exists (Settled (Resolved v)). split; [|right; constructor].
        destruct Hq as (k & Hk & Hcl & Hfired & Hs & Ho).
        eexists. split.
        { simpl. rewrite list_lookup_alter_eq, Hk. done. }
        simpl. rewrite Hs. repeat split; try done; [by right|].
        by rewrite owned_delete, Ho, delete_singleton_eq.
      * apply Hframe; simpl.
        -- by rewrite list_lookup_alter_ne.
        -- by eapply owned_delete_other.
  - (* the environment writes a property of window *)
    by apply Hframe.
  - (* another call of the loader *)
    destruct (load_calls cid f is3D w) as (k & Hc & _ & Ht & _).
    apply Hframe.
    + rewrite Hc. apply lookup_app_l. by eapply in_phase_lt.
    + by rewrite Ht.
Qed.
End Steps.

(** ** Consistency is preserved *)

Section Consistency.
Implicit Types (w : World) (c h : nat) (p : Phase).

(** An event is a call of the loader or it is not. *)
Lemma call_or_not e :
  (∃ containerId f is3D, e = CallLoad containerId f is3D)
  ∨ ∀ containerId f is3D, e ≠ CallLoad containerId f is3D.
Proof. destruct e; try (by right); left; eauto. Qed.

Lemma endsWith_ggb_valid name :
  endsWith name ".ggb" = true → invalidName (Some name) = false.
Proof.
  intros H. unfold invalidName, truthy_string.
  rewrite H. destruct name; [done|]. done.
Qed.

Lemma load_dom containerId f is3D w :
  dom (loadGeoGebra containerId f is3D w).1 =
  match getElementById containerId (dom w) with
  | Some container =>
      if invalidName f then dom w
      else replaced container (default "" f) is3D (dom w)
  | None => dom w
  end.
Proof.
  unfold loadGeoGebra, replaced.
  destruct (getElementById containerId (dom w)) as [container|]; [|done].
  destruct (invalidName f); [done|]. simpl.
  by destruct (getElementById (scriptId is3D) _).
Qed.

Lemma replaced_next container name is3D d :
  next_node (replaced container name is3D d)
  = S (next_node d + length (fragment container (Text.loadingHtml name) d)).
Proof.
  unfold replaced. simpl. by destruct (getElementById _ _).
Qed.

Lemma replaced_tree container name is3D d x :
  x ∈ tree (replaced container name is3D d) →
  x ∈ tree d
  ∨ (next_node d ≤ x ≤ next_node d + length (fragment container (Text.loadingHtml name) d))%nat.
Proof.
  unfold replaced.
  set (d1 := setInnerHTML container (Text.loadingHtml name) d).
  assert (∀ d2, (∀ y, y ∈ tree d2 → y ∈ tree d1) → next_node d2 = next_node d1 →
    x ∈ tree (appendToHead (next_node d2)
                (createElement (mkElement TagScript (scriptId is3D) (scriptSrc is3D) "") d2).1) →
    x ∈ tree d
    ∨ (next_node d ≤ x ≤ next_node d + length (fragment container (Text.loadingHtml name) d))%nat)
    as Hd2.
  { intros d2 Hsub Hnext. unfold tree at 1. simpl.
    rewrite !elem_of_app, list_elem_of_singleton.
    assert (x ∈ tree d2 → x ∈ tree d
      ∨ (next_node d ≤ x ≤ next_node d + length (fragment container (Text.loadingHtml name) d))%nat)
      as Hold.
    { intros [H|H]%Hsub%tree_setInnerHTML_elem; [by left|right; lia]. }
    unfold tree in Hold. rewrite elem_of_app in Hold.
    intros [[H| ->]|H]; [tauto| |tauto].
    right. rewrite Hnext. simpl. lia. }
  destruct (getElementById _ d1) as [existing|]; apply Hd2; try done.
  intros y Hy. by apply tree_remove_elem in Hy as [? _].
Qed.

Lemma replaced_nodes container name is3D d x :
  is_Some (nodes d !! x) → is_Some (nodes (replaced container name is3D d) !! x).
Proof.
  intros Hx. unfold replaced.
  assert (is_Some (nodes (setInnerHTML container (Text.loadingHtml name) d) !! x))
    by (by apply nodes_setInnerHTML_is_Some).
  destruct (getElementById _ _); simpl; rewrite lookup_insert_is_Some';
    by right.
Qed.

Lemma load_nodes containerId f is3D w x :
  is_Some (nodes (dom w) !! x) →
  is_Some (nodes (dom (loadGeoGebra containerId f is3D w).1) !! x).
Proof.
  rewrite load_dom. intros Hx.
  destruct (getElementById containerId (dom w)); [|done].
  destruct (invalidName f); [done|]. by apply replaced_nodes.
Qed.

(** The handlers of a call are the ones it was given when it was made. *)
Lemma load_closure containerId f is3D w c cl :
  closure_of c (loadGeoGebra containerId f is3D w).1 = Some cl →
  closure_of c w = Some cl
  ∨ getElementById containerId (dom w) = Some (cl_container cl).
Proof.
  unfold closure_of, loadGeoGebra.
  destruct (getElementById containerId (dom w)) as [container|] eqn:Hg.
  2:{ simpl. rewrite lookup_app. destruct (calls w !! c); [by left|].
      by destruct (c - length (calls w)) as [|[|?]]. }
  destruct (invalidName f).
  { simpl. rewrite lookup_app. destruct (calls w !! c); [by left|].
    by destruct (c - length (calls w)) as [|[|?]]. }
  simpl. destruct (getElementById (scriptId is3D) _); simpl;
    rewrite lookup_app; (destruct (calls w !! c); [by left|]);
    destruct (c - length (calls w)) as [|[|?]]; simpl; try done;
    intros [= <-]; by right.
Qed.

Lemma closure_of_alter (g : Call → Call) c c' (l : list Call) :
  (∀ k, c_closure (g k) = c_closure k) →
  alter g c' l !! c ≫= c_closure = l !! c ≫= c_closure.
Proof.
  intros Hg. rewrite list_lookup_alter. case_decide; [|done].
  subst. destruct (l !! c); simpl; [apply Hg|done].
Qed.

Lemma step_closure_of e w c :
  (∀ containerId f is3D, e ≠ CallLoad containerId f is3D) →
  closure_of c (step e w) = closure_of c w.
Proof.
  intros Hne. unfold closure_of.
  destruct e as [c'|c' err|h|key v|cid f is3D]; simpl.
  - destruct (fetching c' w); [|done]. simpl. by apply closure_of_alter.
  - destruct (fetching c' w); [|done]. simpl.
    rewrite closure_of_alter by done. by apply closure_of_alter.
  - destruct (timers w !! h) as [[c'|c']|]; [| |done].
    + destruct (closure_of c' w); [|done]. unfold checkInterval.
      destruct (truthy _); [|done]. simpl.
      destruct (instantiate _ _ _); simpl; [|done]. by apply closure_of_alter.
    + destruct (closure_of c' w); [|done]. unfold onLoaded.
      destruct (window w !! _); [|done].
      destruct (truthy _); [|done]. simpl. by apply closure_of_alter.
  - done.
  - by destruct (Hne cid f is3D).
Qed.

Lemma step_nodes e w x :
  is_Some (nodes (dom w) !! x) → is_Some (nodes (dom (step e w)) !! x).
Proof.
  intros Hx.
  destruct e as [c'|c' err|h|key v|cid f is3D]; simpl.
  - by destruct (fetching c' w).
  - destruct (fetching c' w); [|done].
    by apply (nodes_setInnerHTML_is_Some _ _ (dom w)).
  - destruct (timers w !! h) as [[c'|c']|]; [| |done].
    + destruct (closure_of c' w); [|done]. unfold checkInterval.
      destruct (truthy _); [|done]. simpl. by destruct (instantiate _ _ _).
    + destruct (closure_of c' w); [|done]. unfold onLoaded.
      destruct (window w !! _); [|done]. by destruct (truthy _).
  - done.
  - by apply load_nodes.
Qed.

Lemma load_consistent containerId f is3D w :
  consistent w → consistent (loadGeoGebra containerId f is3D w).1.
Proof.
  intros Hw.
  destruct (load_calls containerId f is3D w)
    as (k & Hc & _ & Ht & Hn & _ & _ & _ & Hfired & Hk).
  split.
  - rewrite load_dom. intros x.
    destruct (getElementById containerId (dom w)); [|apply Hw].
    destruct (invalidName f); [apply Hw|].
    rewrite replaced_next. intros [Hx|Hx]%replaced_tree; [|lia].
    apply (cons_dom _ Hw) in Hx. lia.
  - intros c cl Hcl. apply load_nodes.
    destruct (load_closure containerId f is3D w c cl Hcl) as [Hold|Hnew].
    + by apply (cons_closure _ Hw c).
    + apply getElementById_Some in Hnew as (_ & e & -> & _). eauto.
  - rewrite Ht, Hn, Hc, length_app. intros h t Hh.
    apply (cons_timers _ Hw) in Hh. simpl. lia.
  - rewrite Hc, length_app. simpl. intros c Hlt.
    destruct (decide (c < length (calls w))) as [Hold|Hnew].
    + destruct (cons_phase _ Hw c Hold) as [p Hp]. exists p.
      eapply in_phase_frame; [| |exact Hp].
      * rewrite Hc. by apply lookup_app_l.
      * by rewrite Ht.
    + assert (c = length (calls w)) as -> by lia.
      assert (owned (length (calls w)) (timers w) = ∅) as Ho.
      { apply map_eq. intros h. rewrite lookup_empty.
        destruct (owned _ _ !! h) as [t|] eqn:E; [|done].
        apply owned_lookup in E as [E1 E2].
        apply (cons_timers _ Hw) in E1. lia. }
      destruct Hk as [[Hs Hcl]|[[r Hs] Hcl]].
      * exists AwaitingResource, k. split.
        { rewrite Hc. by apply list_lookup_middle. }
        simpl. by rewrite Ht.
      * exists (Settled (Rejected r)), k. split.
        { rewrite Hc. by apply list_lookup_middle. }
        simpl. rewrite Ht. repeat split; try done. by left.
Qed.

Lemma step_shape e w :
  (∀ containerId f is3D, e ≠ CallLoad containerId f is3D) →
  length (calls (step e w)) = length (calls w)
  ∧ location (step e w) = location w.
Proof.
  intros Hne.
  destruct e as [c'|c' err|h|key v|cid f is3D]; simpl.
  - destruct (fetching c' w); [|done]. simpl. by rewrite length_alter.
  - destruct (fetching c' w); [|done]. simpl. by rewrite !length_alter.
  - destruct (timers w !! h) as [[c'|c']|]; [| |done].
    + destruct (closure_of c' w); [|done]. unfold checkInterval.
      destruct (truthy _); [|done]. simpl.
      destruct (instantiate _ _ _); simpl; by rewrite ?length_alter.
    + destruct (closure_of c' w); [|done]. unfold onLoaded.
      destruct (window w !! _); [|done].
      destruct (truthy _); [|done]. simpl. by rewrite length_alter.
  - done.
  - by destruct (Hne cid f is3D).
Qed.

(** The only handler that touches the page is [script.onerror], which
    writes the error panel into the container it has captured. *)
Lemma step_dom e w :
  (∀ containerId f is3D, e ≠ CallLoad containerId f is3D) →
  dom (step e w) = dom w
  ∨ ∃ c error cl,
      e = ScriptError c error ∧ fetching c w = Some cl
      ∧ dom (step e w)
        = setInnerHTML (cl_container cl)
            (Text.errorPanelHtml (cl_ggbFileName cl)
               (basePath (location w) +:+ cl_ggbFileName cl)) (dom w).
Proof.
  intros Hne.
  destruct e as [c'|c' err|h|key v|cid f is3D]; simpl.
  - left. by destruct (fetching c' w).
  - destruct (fetching c' w) as [cl|] eqn:Hf; [|by left].
    right. by exists c', err, cl.
  - left. destruct (timers w !! h) as [[c'|c']|]; [| |done].
    + destruct (closure_of c' w); [|done]. unfold checkInterval.
      destruct (truthy _); [|done]. simpl. by destruct (instantiate _ _ _).
    + destruct (closure_of c' w); [|done]. unfold onLoaded.
      destruct (window w !! _); [|done]. by destruct (truthy _).
  - by left.
  - by destruct (Hne cid f is3D).
Qed.

Lemma setInnerHTML_bound h html d :
  (∀ x, x ∈ tree d → x < next_node d) →
  ∀ x, x ∈ tree (setInnerHTML h html d) → x < next_node (setInnerHTML h html d).
Proof.
  intros Hd x [Hx|Hx]%tree_setInnerHTML_elem; simpl; [|lia].
  apply Hd in Hx. lia.
Qed.

Lemma step_timers e w h t :
  consistent w → timers (step e w) !! h = Some t →
  h < next_timer (step e w) ∧ timer_call t < length (calls (step e w)).
Proof.
  intros Hw.
  assert (∀ h t, timers w !! h = Some t →
            h < S (next_timer w) ∧ timer_call t < length (calls w)) as Hweak.
  { intros h' t' H'. apply (cons_timers _ Hw) in H'. lia. }
  destruct e as [c'|c' err|h'|key v|cid f is3D]; simpl.
  - destruct (fetching c' w) as [cl|] eqn:Hf; [|apply Hw].
    simpl. rewrite length_alter, lookup_insert.
    case_decide; [|apply Hweak]. intros [= <-]. subst. simpl.
    apply fetching_Some in Hf as (k & Hk & _). apply lookup_lt_Some in Hk. lia.
  - destruct (fetching c' w) as [cl|] eqn:Hf; [|apply Hw].
    simpl. rewrite !length_alter. apply Hw.
  - destruct (timers w !! h') as [[c'|c']|] eqn:Ht'; [| |apply Hw].
    + destruct (closure_of c' w); [|apply Hw]. unfold checkInterval.
      destruct (truthy _); [|apply Hw]. simpl.
      destruct (instantiate _ _ _); simpl.
      * rewrite length_alter. intros [_ H]%lookup_delete_Some. by apply Hw.
      * rewrite lookup_insert. case_decide.
        -- intros [= <-]. subst. simpl.
           apply (cons_timers _ Hw) in Ht'. simpl in Ht'. lia.
        -- intros [_ H']%lookup_delete_Some. by apply Hweak.
    + destruct (closure_of c' w); [|apply Hw]. unfold onLoaded.
      destruct (window w !! _); [|apply Hw].
      destruct (truthy _); [|apply Hw]. simpl.
      rewrite length_alter. intros [_ H]%lookup_delete_Some. by apply Hw.
  - apply Hw.
  - apply (load_consistent cid f is3D w Hw).
Qed.

Lemma step_consistent e w : consistent w → consistent (step e w).
Proof.
  intros Hw.
  destruct (call_or_not e) as [(cid & f & is3D & ->)|Hne].
  { by apply load_consistent. }
  destruct (step_shape e w Hne) as (Hlen & _).
  split.
  - destruct (step_dom e w Hne) as [->|(c & err & cl & _ & _ & ->)];
      [apply Hw|].
    apply setInnerHTML_bound, Hw.
  - intros c cl. rewrite step_closure_of by done. intros Hcl.
    by apply step_nodes, (cons_closure _ Hw c).
  - intros h t. by apply step_timers.
  - rewrite Hlen. intros c Hc.
    destruct (cons_phase _ Hw c Hc) as [p Hp].
    destruct (step_advance e w c p Hw Hp) as (p' & Hp' & _). eauto.
Qed.

Lemma run_snoc es e w : run (es ++ [e]) w = step e (run es w).
Proof. unfold run. by rewrite fold_left_app. Qed.

Lemma run_app es es' w : run (es ++ es') w = run es' (run es w).
Proof. unfold run. by rewrite fold_left_app. Qed.

Lemma run_cons e es w : run (e :: es) w = run es (step e w).
Proof. done. Qed.

Lemma run_consistent es w : consistent w → consistent (run es w).
Proof.
  revert w. induction es as [|e es IH]; intros w Hw; [done|].
  rewrite run_cons. by apply IH, step_consistent.
Qed.

Lemma document_consistent l els : consistent (document l els).
Proof.
  split; simpl.
  - unfold tree. simpl. intros x Hx. by apply elem_of_seq in Hx as [_ ?].
  - intros c cl. unfold closure_of. by destruct c.
  - intros h t. by rewrite lookup_empty.
  - intros c Hc. lia.
Qed.

Lemma page_consistent l els : consistent (page l els).
Proof. apply document_consistent. Qed.

End Consistency.

(** ** Validation *)

Section Validation.
Implicit Types (w : World).

Lemma rejected_spec r w :
  let res := rejected r w in
  promise res.2 res.1 = Failed r
  ∧ settlements res.2 res.1 = 1
  ∧ dom res.1 = dom w
  ∧ fetching res.2 res.1 = None
  ∧ timers res.1 = timers w.
Proof.
  unfold rejected, promise, settlements, fetching. simpl.
  by rewrite list_lookup_middle.
Qed.

Lemma load_without_mount containerId f is3D w :
  getElementById containerId (dom w) = None →
  loadGeoGebra containerId f is3D w
  = rejected (ErrorObj (Text.mountNotFound containerId)) w.
Proof. intros Hmount. unfold loadGeoGebra. by rewrite Hmount. Qed.

Lemma invalidName_true f :
  invalidName f = true
  ↔ f = None ∨ ∃ name, f = Some name ∧ endsWith name ".ggb" = false.
Proof.
  unfold invalidName. split.
  - destruct f as [name|]; [|by left]. intros H. right. exists name.
    split; [done|].
    destruct (endsWith name ".ggb") eqn:E; [|done].
    rewrite orb_false_r in H. unfold truthy_string in H.
    destruct name; [done|]. done.
  - intros [->|(name & -> & ->)]; [done|]. apply orb_true_r.
Qed.

Lemma load_with_invalid_name containerId f is3D w container :
  getElementById containerId (dom w) = Some container →
  f = None ∨ (∃ name, f = Some name ∧ endsWith name ".ggb" = false) →
  loadGeoGebra containerId f is3D w
  = rejected (ErrorObj Text.invalidResourceName) w.
Proof.
  intros Hmount Hname%invalidName_true. unfold loadGeoGebra.
  by rewrite Hmount, Hname.
Qed.

End Validation.

(** C5: a call whose mount point is absent returns a promise that is
    already rejected with the mount-not-found error, and the page is left
    as it was: no node is created, none is attached, no content is
    written, and the call has no script element that could fire later. *)
Theorem C5_mount_not_found containerId ggbFileName is3D w :
  getElementById containerId (dom w) = None →
  let r := loadGeoGebra containerId ggbFileName is3D w in
  promise r.2 r.1 = Failed (ErrorObj (Text.mountNotFound containerId))
  ∧ settlements r.2 r.1 = 1
  ∧ dom r.1 = dom w
  ∧ fetching r.2 r.1 = None
  ∧ timers r.1 = timers w.
Proof.
  intros Hmount. rewrite load_without_mount by done. apply rejected_spec.
Qed.

Lemma C5_mount_not_found_witness :
  let r := loadGeoGebra "chart" (Some "derivative.ggb") false demoPage in
  promise r.2 r.1 = Failed (ErrorObj (Text.mountNotFound "chart"))
  ∧ settlements r.2 r.1 = 1
  ∧ dom r.1 = dom demoPage
  ∧ fetching r.2 r.1 = None
  ∧ timers r.1 = timers demoPage.
Proof.
  apply (C5_mount_not_found "chart" (Some "derivative.ggb") false demoPage).
  vm_compute. reflexivity.
Defined.

(** C6: with the mount point present, a file name without the [.ggb]
    extension makes the call return a promise that is already rejected
    with the invalid-name error; no script element is created or
    appended (the page is unchanged), so nothing is fetched. *)
Theorem C6_invalid_resource_name containerId name is3D w container :
  getElementById containerId (dom w) = Some container →
  endsWith name ".ggb" = false →
  let r := loadGeoGebra containerId (Some name) is3D w in
  promise r.2 r.1 = Failed (ErrorObj Text.invalidResourceName)
  ∧ settlements r.2 r.1 = 1
  ∧ dom r.1 = dom w
  ∧ fetching r.2 r.1 = None
  ∧ timers r.1 = timers w.
Proof.
  intros Hmount Hext.
  rewrite (load_with_invalid_name _ _ _ _ container) by eauto.
  apply rejected_spec.
Qed.

Lemma C6_invalid_resource_name_witness :
  let r := loadGeoGebra "box" (Some "notAGgbFile.txt") false demoPage in
  promise r.2 r.1 = Failed (ErrorObj Text.invalidResourceName)
  ∧ settlements r.2 r.1 = 1
  ∧ dom r.1 = dom demoPage
  ∧ fetching r.2 r.1 = None
  ∧ timers r.1 = timers demoPage.
Proof.
  apply (C6_invalid_resource_name "box" "notAGgbFile.txt" false demoPage 0).
  - vm_compute. reflexivity.
  - vm_compute. reflexivity.
Defined.

(** C9: the mount-point check comes first.  Whatever the file name is
    (missing, empty, without extension or valid), an absent mount point
    gives the mount-not-found rejection; and the invalid-name rejection
    is only ever produced for a mount point that exists. *)
Theorem C9_mount_check_first containerId ggbFileName is3D w :
  let r := loadGeoGebra containerId ggbFileName is3D w in
  (getElementById containerId (dom w) = None →
   promise r.2 r.1 = Failed (ErrorObj (Text.mountNotFound containerId))
   ∧ promise r.2 r.1 ≠ Failed (ErrorObj Text.invalidResourceName))
  ∧ (promise r.2 r.1 = Failed (ErrorObj Text.invalidResourceName) →
     is_Some (getElementById containerId (dom w))).
Proof.
  simpl.
  assert (getElementById containerId (dom w) = None →
    promise (loadGeoGebra containerId ggbFileName is3D w).2
            (loadGeoGebra containerId ggbFileName is3D w).1
    = Failed (ErrorObj (Text.mountNotFound containerId))) as Hfirst.
  { intros H. rewrite load_without_mount by done. apply rejected_spec. }
  split.
  - intros H. split; [by apply Hfirst|]. rewrite Hfirst by done.
    intros E.
    assert (Text.mountNotFound containerId = Text.invalidResourceName) as E'
      by congruence.
    by apply mountNotFound_not_invalidName in E'.
  - intros Hp. destruct (getElementById containerId (dom w)) eqn:E; [by eexists|].
    rewrite Hfirst in Hp by done.
    assert (Text.mountNotFound containerId = Text.invalidResourceName) as E'
      by congruence.
    by apply mountNotFound_not_invalidName in E'.
Qed.

(** Both validations fail at once: the mount error wins. *)
Example mount_error_wins :
  let r := loadGeoGebra "chart" (Some "notAGgbFile.txt") false demoPage in
  promise r.2 r.1 = Failed (ErrorObj (Text.mountNotFound "chart")).
Proof. vm_compute. reflexivity. Qed.

Example mount_error_wins_without_name :
  let r := loadGeoGebra "chart" None true demoPage in
  promise r.2 r.1 = Failed (ErrorObj (Text.mountNotFound "chart")).
Proof. vm_compute. reflexivity. Qed.
(** ** The iframe helper *)

Lemma append_assoc (s t u : string) : (s +:+ t) +:+ u = s +:+ (t +:+ u).
Proof.
  induction s as [|a s IH]; [done|].
  change (String a ((s +:+ t) +:+ u) = String a (s +:+ (t +:+ u))).
  by rewrite IH.
Qed.

(** The template carries an [iframe] whose address names the material and
    the two sizes, and whose style starts with the border style. *)
Lemma iframeHtml_src materialId width height borderStyle :
  ∃ before after,
    Text.iframeHtml materialId width height borderStyle
    = before +:+ "<iframe src=" +:+ dq
      +:+ "https://www.geogebra.org/material/iframe/id/" +:+ materialId
      +:+ "/width/" +:+ width +:+ "/height/" +:+ height +:+ dq +:+ after.
Proof.
  exists ("
    <div>
      <p class=" +:+ dq +:+ "text-sm text-gray-600 mb-2" +:+ dq +:+ ">材料ID：<code class=" +:+ dq +:+ "bg-gray-100 px-1 rounded" +:+ dq +:+ ">" +:+ materialId +:+ "</code></p>
      "), (" 
              width=" +:+ dq +:+ width +:+ dq +:+ " 
              height=" +:+ dq +:+ height +:+ dq +:+ " 
              frameborder=" +:+ dq +:+ "0" +:+ dq +:+ " 
              style=" +:+ dq +:+ borderStyle +:+ " box-shadow: 0 4px 6px rgba(0, 0, 0, 0.1);" +:+ dq +:+ "
              allowfullscreen>
      </iframe>
      <p class=" +:+ dq +:+ "text-sm text-gray-500 mt-2" +:+ dq +:+ ">
        <i class=" +:+ dq +:+ "fas fa-info-circle mr-1" +:+ dq +:+ "></i> 拖动滑块或图形进行交互，点击右下角可全屏查看
      </p>
    </div>
  ").
  unfold Text.iframeHtml. rewrite !append_assoc. reflexivity.
Qed.

Lemma iframeHtml_style materialId width height borderStyle :
  ∃ before after,
    Text.iframeHtml materialId width height borderStyle
    = before +:+ "style=" +:+ dq +:+ borderStyle
      +:+ " box-shadow: 0 4px 6px rgba(0, 0, 0, 0.1);" +:+ dq +:+ after.
Proof.
  exists ("
    <div>
      <p class=" +:+ dq +:+ "text-sm text-gray-600 mb-2" +:+ dq +:+ ">材料ID：<code class=" +:+ dq +:+ "bg-gray-100 px-1 rounded" +:+ dq +:+ ">" +:+ materialId +:+ "</code></p>
      <iframe src=" +:+ dq +:+ "https://www.geogebra.org/material/iframe/id/" +:+ materialId +:+ "/width/" +:+ width +:+ "/height/" +:+ height +:+ dq +:+ " 
              width=" +:+ dq +:+ width +:+ dq +:+ " 
              height=" +:+ dq +:+ height +:+ dq +:+ " 
              frameborder=" +:+ dq +:+ "0" +:+ dq +:+ " 
              "), ("
              allowfullscreen>
      </iframe>
      <p class=" +:+ dq +:+ "text-sm text-gray-500 mt-2" +:+ dq +:+ ">
        <i class=" +:+ dq +:+ "fas fa-info-circle mr-1" +:+ dq +:+ "></i> 拖动滑块或图形进行交互，点击右下角可全屏查看
      </p>
    </div>
  ").
  unfold Text.iframeHtml. rewrite !append_assoc. reflexivity.
Qed.

Section Subtrees.
Implicit Types (d : Dom) (h x c : nat) (l fresh : list nat).

(** After the contents of [c] have been replaced by deeper fresh nodes,
    these are its subtree. *)
Lemma subtree_graft d d' c fresh inside l :
  NoDup l →
  (∀ x, x ∈ fresh → x ≠ c ∧ below d' c x = true) →
  (∀ x, x ∈ l → below d' c x = below d c x) →
  subtree d' c inside (graft d c (c :: fresh) inside l)
  = if decide (c ∈ l) then fresh else [].
Proof.
  intros Hnd Hfresh Hold.
  assert (∀ l', subtree d' c true (fresh ++ l') = fresh ++ subtree d' c true l')
    as Hrun.
  { intros l'. induction fresh as [|y fr IH]; [done|]. simpl.
    destruct (Hfresh y) as [Hy Hb]; [by apply elem_of_cons; left|].
    destruct (Nat.eqb_spec y c) as [?|_]; [done|]. rewrite Hb. simpl.
    f_equal. apply IH. intros x Hx. apply Hfresh. by apply elem_of_cons; right. }
  revert inside. induction l as [|y l IH]; intros inside.
  { done. }
  apply NoDup_cons in Hnd as [Hy Hnd].
  assert (∀ x, x ∈ l → below d' c x = below d c x) as Hold'.
  { intros x Hx. apply Hold. by apply elem_of_cons; right. }
  specialize (IH Hnd Hold'). cbn [graft].
  destruct (Nat.eqb_spec y c) as [->|Hne].
  - cbn [app subtree]. rewrite Nat.eqb_refl, Hrun, IH.
    rewrite decide_False by done.
    rewrite decide_True by (by apply elem_of_cons; left).
    apply app_nil_r.
  - assert ((if decide (c ∈ y :: l) then fresh else [])
            = if decide (c ∈ l) then fresh else []) as ->.
    { destruct (decide (c ∈ l)) as [Hin|Hin].
      - by rewrite decide_True by (by apply elem_of_cons; right).
      - rewrite decide_False; [done|].
        intros [?|?]%elem_of_cons; [congruence|done]. }
    destruct (inside && below d c y) eqn:E.
    + apply andb_true_iff in E as [-> _]. apply IH.
    + cbn [subtree]. destruct (Nat.eqb_spec y c) as [?|_]; [done|].
      rewrite Hold by (by apply elem_of_cons; left). rewrite E. apply IH.
Qed.

(** The contents of an attached element, once written, are the elements
    built from the markup. *)
Lemma descendants_setInnerHTML h html d :
  NoDup (tree d) → (∀ y, y ∈ tree d → y < next_node d) → h ∈ tree d →
  descendants h (setInnerHTML h html d)
  = seq (next_node d) (length (fragment h html d)).
Proof.
  intros Hnd Hd Hh. unfold descendants. simpl.
  set (d' := setInnerHTML h html d).
  set (fresh := seq (next_node d) (length (fragment h html d))).
  assert (h < next_node d) as Hlt by auto.
  assert (∀ x, x ∈ fresh → x ≠ h ∧ below d' h x = true) as Hfresh.
  { intros x Hx%elem_of_seq. split; [lia|]. by apply depth_setInnerHTML_new. }
  assert (∀ x, x ∈ tree d → below d' h x = below d h x) as Hold.
  { intros x Hx. unfold below, d'. by rewrite !depth_setInnerHTML_old by auto. }
  unfold tree in *. apply NoDup_app in Hnd as (Hn1 & Hdisj & Hn2).
  rewrite !(subtree_graft d d'); try done.
  2,3: intros x Hx; apply Hold, elem_of_app; tauto.
  fold fresh. apply elem_of_app in Hh as [Hh|Hh].
  - destruct (decide (h ∈ head d)); [|done].
    destruct (decide (h ∈ body d)) as [Hb|_]; [|apply app_nil_r].
    by apply Hdisj in Hb.
  - destruct (decide (h ∈ body d)); [|done].
    destruct (decide (h ∈ head d)) as [Hb|_]; [|done].
    by apply Hdisj in Hb.
Qed.

(** The elements built from the markup, as they are in the store. *)
Lemma nodes_setInnerHTML_fresh h html d :
  h < next_node d →
  (fun x => nodes (setInnerHTML h html d) !! x)
    <$> seq (next_node d) (length (fragment h html d))
  = Some <$> (fragment h html d).*1.
Proof.
  intros Hh. apply list_eq. intros i.
  rewrite !list_lookup_fmap.
  destruct (decide (i < length (fragment h html d))) as [Hi|Hi].
  - rewrite lookup_seq_lt by done. simpl.
    unfold setInnerHTML. simpl. rewrite lookup_alter_ne by lia.
    rewrite lookup_union.
    assert (length (fragment h html d).*1 = length (fragment h html d)) as Hlen
      by apply length_fmap.
    rewrite <- Hlen, lookup_fresh.
    destruct (decide (next_node d ≤ next_node d + i)%nat); [|lia].
    assert (next_node d + i - next_node d = i) as -> by lia.
    destruct (lookup_lt_is_Some_2 (fragment h html d).*1 i) as [e He];
      [by rewrite Hlen|].
    rewrite He. rewrite list_lookup_fmap in He. rewrite He.
    by destruct (nodes d !! (next_node d + i)).
  - rewrite lookup_seq_ge by lia.
    by rewrite (lookup_ge_None_2 (fragment h html d)) by lia.
Qed.

End Subtrees.

(** C10: [embedGeoGebra] with a missing container, or with a falsy
    material id (omitted or empty), logs an error and returns (the source
    has no [throw] on these paths and the model no exceptional exit): the
    DOM, the globals, the timers and the promises are what they were, and
    the console has got the one message of the failing guard, the
    container's first.  Only with the container present and a truthy
    material id does it assign the iframe template to the container's
    [innerHTML]: the markup holds an [iframe] whose address names the
    material and the sizes, and the chosen border style; the container
    stays where it is, its former descendants give way to the elements
    that the browser builds from the template, and no other element is
    attached. *)
Theorem C10_embed_guards containerId materialId width height showBorder w :
  let w' := embedGeoGebra containerId materialId width height showBorder w in
  (getElementById containerId (dom w) = None
   ∨ materialId = None ∨ materialId = Some "" →
   dom w' = dom w ∧ window w' = window w ∧ timers w' = timers w
   ∧ calls w' = calls w)
  ∧ (getElementById containerId (dom w) = None →
     console w' = console w ++ ["❌ 错误：找不到容器 #" +:+ containerId])
  ∧ (is_Some (getElementById containerId (dom w)) →
     materialId = None ∨ materialId = Some "" →
     console w' = console w ++ ["❌ 错误：请提供有效的 GeoGebra 材料ID"])
  ∧ (∀ container m,
       getElementById containerId (dom w) = Some container →
       materialId = Some m → m ≠ "" →
       let border := if showBorder
                     then "border: 1px solid #e2e8f0; border-radius: 8px;"
                     else "border: none; border-radius: 8px;" in
       let html := Text.iframeHtml m (pretty width) (pretty height) border in
       let fresh := seq (next_node (dom w)) (length (fragment container html (dom w))) in
       innerHTML_of container (dom w') = Some html
       ∧ (∃ before after,
            html = before +:+ "<iframe src=" +:+ dq
                   +:+ "https://www.geogebra.org/material/iframe/id/" +:+ m
                   +:+ "/width/" +:+ pretty width
                   +:+ "/height/" +:+ pretty height +:+ dq +:+ after)
       ∧ (∃ before after,
            html = before +:+ "style=" +:+ dq +:+ border
                   +:+ " box-shadow: 0 4px 6px rgba(0, 0, 0, 0.1);" +:+ dq
                   +:+ after)
       ∧ container ∈ tree (dom w')
       ∧ (∀ x, x ∈ fresh → x ∈ tree (dom w'))
       ∧ (∀ x, x ∈ tree (dom w') → x ∈ tree (dom w) ∨ x ∈ fresh)
       ∧ (NoDup (tree (dom w)) →
          (∀ x, x ∈ tree (dom w) → x < next_node (dom w)) →
          descendants container (dom w') = fresh
          ∧ (fun x => nodes (dom w') !! x) <$> fresh
            = Some <$> (fragment container html (dom w)).*1)
       ∧ window w' = window w ∧ timers w' = timers w ∧ calls w' = calls w
       ∧ console w' = console w).
Proof.
  simpl. unfold embedGeoGebra. split; [|split; [|split]].
  - intros [Hmount|Hfalsy].
    + by rewrite Hmount.
    + destruct (getElementById containerId (dom w)); [|done].
      by destruct Hfalsy as [-> | ->].
  - intros Hmount. by rewrite Hmount.
  - intros [container Hmount] Hfalsy. rewrite Hmount.
    by destruct Hfalsy as [-> | ->].
  - intros container m Hmount -> Hm. rewrite Hmount.
    assert (truthy_arg (Some m) = true) as ->.
    { simpl. unfold truthy_string. by destruct m. }
    pose proof Hmount as (Hin & e & He & _)%getElementById_Some.
    simpl. split; [|split; [|split; [|split; [|split; [|split; [|split]]]]]].
    + apply innerHTML_of_setInnerHTML. eauto.
    + apply iframeHtml_src.
    + apply iframeHtml_style.
    + apply tree_setInnerHTML_keep; [done|by left].
    + intros x Hx%elem_of_seq. apply tree_setInnerHTML_keep; [done|by right].
    + intros x [Hx|Hx]%tree_setInnerHTML_elem; [by left|right].
      by apply elem_of_seq.
    + intros Hnd Hd. split.
      * by apply descendants_setInnerHTML.
      * apply nodes_setInnerHTML_fresh. auto.
    + done.
Qed.

Lemma C10_embed_guards_witness :
  let w' := embedGeoGebra "box" (Some "abc123") 800 500 true nestedPage in
  innerHTML_of 0 (dom w')
  = Some (Text.iframeHtml "abc123" "800" "500"
            "border: 1px solid #e2e8f0; border-radius: 8px;")
  ∧ 0 ∈ tree (dom w')
  ∧ descendants 0 (dom w') = []
  ∧ console w' = console nestedPage.
Proof.
  destruct (C10_embed_guards "box" (Some "abc123") 800 500 true nestedPage)
    as (_ & _ & _ & Hok).
  destruct (Hok 0 "abc123")
    as (Hhtml & _ & _ & Hin & _ & _ & Hsub & _ & _ & _ & Hconsole).
  - vm_compute. reflexivity.
  - reflexivity.
  - discriminate.
  - destruct Hsub as [Hdesc _].
    + change (NoDup (seq 0 3)). apply NoDup_seq.
    + intros x Hx. change (x ∈ seq 0 3) in Hx. change (x < 3).
      apply elem_of_seq in Hx. lia.
    + split; [exact Hhtml|]. split; [exact Hin|]. split; [exact Hdesc|exact Hconsole].
Defined.

Example embed_writes_iframe :
  innerHTML_of 0 (dom (embedGeoGebra "box" (Some "abc123") 800 500 true demoPage))
  = Some (Text.iframeHtml "abc123" "800" "500" Text.borderOn).
Proof. vm_compute. reflexivity. Qed.

Example embed_without_material :
  dom (embedGeoGebra "box" None 800 500 true demoPage) = dom demoPage
  ∧ console (embedGeoGebra "box" None 800 500 true demoPage)
    = [Text.invalidMaterial].
Proof. vm_compute. done. Qed.

Example embed_without_container :
  dom (embedGeoGebra "chart" (Some "abc123") 800 500 true demoPage) = dom demoPage.
Proof. vm_compute. reflexivity. Qed.

(** ** The source-document URL *)

Lemma basePath_spec l : basePath l = spec_basePath l.
Proof.
  unfold basePath, spec_basePath, isLiveServer, isFileProtocol.
  rewrite !eqb_decide.
  destruct (decide (hostname l = "localhost")) as [H1|H1];
    destruct (decide (hostname l = "127.0.0.1")) as [H2|H2];
    destruct (decide (protocol l = "file:")) as [H3|H3];
    rewrite ?(bool_decide_eq_true_2 _ H1), ?(bool_decide_eq_false_2 _ H1),
      ?(bool_decide_eq_true_2 _ H2), ?(bool_decide_eq_false_2 _ H2),
      ?(bool_decide_eq_true_2 _ H3), ?(bool_decide_eq_false_2 _ H3); simpl;
    repeat case_decide; try done; tauto.
Qed.

Lemma step_closure_keep e w c cl :
  closure_of c w = Some cl → closure_of c (step e w) = Some cl.
Proof.
  intros Hcl.
  destruct (call_or_not e) as [(cid & f & is3D & ->)|Hne].
  - simpl. destruct (load_calls cid f is3D w) as (k & Hc & _).
    unfold closure_of in *. rewrite Hc.
    destruct (calls w !! c) as [k'|] eqn:E; [|done].
    by rewrite (lookup_app_l_Some _ _ _ _ E).
  - by rewrite step_closure_of.
Qed.

Lemma run_closure_keep es w c cl :
  closure_of c w = Some cl → closure_of c (run es w) = Some cl.
Proof.
  revert w. induction es as [|e es IH]; intros w Hcl; [done|].
  rewrite run_cons. by apply IH, step_closure_keep.
Qed.

(** What a call that passes both validations leaves behind. *)
Lemma load_valid containerId name is3D w container :
  getElementById containerId (dom w) = Some container →
  endsWith name ".ggb" = true →
  let r := loadGeoGebra containerId (Some name) is3D w in
  r.2 = length (calls w)
  ∧ dom r.1 = replaced container name is3D (dom w)
  ∧ (∃ script, calls r.1 = calls w ++
       [mkCall (Some (mkClosure container containerId name
                        (mkParamsFor (location w) name is3D) script)) false []])
  ∧ timers r.1 = timers w
  ∧ next_timer r.1 = next_timer w
  ∧ window r.1 = window w
  ∧ location r.1 = location w
  ∧ constructed r.1 = constructed w.
Proof.
  intros Hmount Hext. simpl. split; [|split].
  - by destruct (load_calls containerId (Some name) is3D w) as (? & _ & ? & _).
  - by rewrite load_dom, Hmount, (endsWith_ggb_valid _ Hext).
  - unfold loadGeoGebra. rewrite Hmount, (endsWith_ggb_valid _ Hext). simpl.
    destruct (getElementById (scriptId is3D) _); simpl; eauto 10.
Qed.

(** C8: the [filename] option handed to the library is the base path
    followed by the caller's file name, and the base path is the
    three-way formula: the port-5500 URL on a development host,
    [./assets/ggb/] under the file protocol, [/assets/ggb/] otherwise. *)
Theorem C8_source_url containerId name is3D w container es h :
  getElementById containerId (dom w) = Some container →
  endsWith name ".ggb" = true →
  let r := loadGeoGebra containerId (Some name) is3D w in
  let w' := run es r.1 in
  timers w' !! h = Some (CheckInterval r.2) →
  truthy (window w' !! "GGBApplet") = true →
  basePath (location w) = spec_basePath (location w)
  ∧ ∃ p, constructed (step (Tick h) w') = constructed w' ++ [(p, containerId)]
         ∧ filename p = spec_basePath (location w) +:+ name.
Proof.
  intros Hmount Hext r w' Ht Hlib. split; [apply basePath_spec|].
  destruct (load_valid containerId name is3D w container Hmount Hext)
    as (Hc & _ & [script Hcalls] & _).
  fold r in Hc, Hcalls.
  assert (closure_of r.2 w' = Some (mkClosure container containerId name
            (mkParamsFor (location w) name is3D) script)) as Hcl.
  { apply run_closure_keep. unfold closure_of.
    by rewrite Hcalls, Hc, list_lookup_middle. }
  exists (mkParamsFor (location w) name is3D). split.
  - simpl. rewrite Ht, Hcl. unfold checkInterval. rewrite Hlib. simpl.
    by destruct (instantiate _ _ _).
  - simpl. by rewrite basePath_spec.
Qed.

Lemma C8_source_url_witness :
  basePath (location demoPage) = spec_basePath (location demoPage)
  ∧ ∃ p, constructed (step (Tick 0)
             (run [ScriptLoad 0; SetWindow "GGBApplet" mockLibrary] demoLoading))
         = constructed (run [ScriptLoad 0; SetWindow "GGBApplet" mockLibrary] demoLoading)
           ++ [(p, "box")]
         ∧ filename p = spec_basePath (location demoPage) +:+ "derivative.ggb".
Proof.
  apply (C8_source_url "box" "derivative.ggb" false demoPage 0
           [ScriptLoad 0; SetWindow "GGBApplet" mockLibrary] 0).
  - vm_compute. reflexivity.
  - vm_compute. reflexivity.
  - vm_compute. reflexivity.
  - vm_compute. reflexivity.
Defined.

Example basePath_localhost :
  basePath (mkLocation "localhost" "http:") = "http://localhost:5500/assets/ggb/".
Proof. reflexivity. Qed.

Example basePath_loopback :
  basePath (mkLocation "127.0.0.1" "http:") = "http://127.0.0.1:5500/assets/ggb/".
Proof. reflexivity. Qed.

Example basePath_file :
  basePath (mkLocation "" "file:") = "./assets/ggb/".
Proof. reflexivity. Qed.

Example basePath_production :
  basePath (mkLocation "example.org" "https:") = "/assets/ggb/".
Proof. reflexivity. Qed.
(** ** Error outcomes *)

Lemma promise_in_phase c w p :
  in_phase c w p →
  promise c w = match p with
                | Settled (Resolved v) => Fulfilled v
                | Settled (Rejected r) => Failed r
                | _ => Pending
                end
  ∧ settlements c w = match p with Settled _ => 1 | _ => 0 end.
Proof.
  intros (k & Hk & Hp). unfold promise, settlements. rewrite Hk.
  destruct p as [| | |[v|r]]; simpl in Hp; destruct_and!;
    by match goal with E : c_settles k = _ |- _ => rewrite E end.
Qed.

(** Once a call is settled, no event changes that. *)
Lemma settled_forever es w c o :
  consistent w → in_phase c w (Settled o) → in_phase c (run es w) (Settled o).
Proof.
  revert w. induction es as [|e es IH]; intros w Hw Hp; [done|].
  rewrite run_cons. apply IH; [by apply step_consistent|].
  destruct (step_advance e w c _ Hw Hp) as (p' & Hp' & [->|Hadv]); [done|].
  inversion Hadv.
Qed.

(** The two handlers that reject. *)
Lemma onerror_settles c cl error w :
  consistent w → fetching c w = Some cl →
  in_phase c (step (ScriptError c error) w) (Settled (Rejected (EventObj error))).
Proof.
  intros Hw Hf.
  destruct (fetching_phase _ _ _ Hw Hf) as (k & Hk & _ & _ & Hs & Ho).
  simpl. rewrite Hf. eexists. split.
  { simpl. by rewrite !list_lookup_alter_eq, Hk. }
  simpl. rewrite Hs. repeat split; try done. by right.
Qed.

Lemma init_failure_settles h c cl message w :
  consistent w →
  timers w !! h = Some (CheckInterval c) →
  closure_of c w = Some cl →
  truthy (window w !! "GGBApplet") = true →
  instantiate (window w !! "GGBApplet") (cl_params cl) (cl_containerId cl)
    = Some message →
  in_phase c (step (Tick h) w)
    (Settled (Rejected (ErrorObj (Text.initializationFailed message))))
  ∧ dom (step (Tick h) w) = dom w
  ∧ timers (step (Tick h) w) = delete h (timers w).
Proof.
  intros Hw Ht Hcl Hlib Hthrow.
  destruct (checkInterval_phase _ _ _ Hw Ht) as (k & Hk & _ & Hfired & Hs & Ho).
  simpl. rewrite Ht, Hcl. unfold checkInterval. rewrite Hlib. simpl.
  rewrite Hthrow. split; [|done].
  eexists. split.
  { simpl. by rewrite list_lookup_alter_eq, Hk. }
  simpl. rewrite Hs. repeat split; try done; [by right|].
  by rewrite owned_delete, Ho, delete_singleton_eq.
Qed.

(** C3, as the code has it: every error outcome rejects the promise of
    the call.  When the resource fails to load, [script.onerror] also
    replaces the contents of the mount point with the diagnostic panel.
    A missing mount point and an invalid file name reject at the guard
    and leave the page as it was; a failed initialization rejects with
    the thrown message. *)
Theorem C3_error_outcomes w :
  consistent w →
  (∀ containerId f is3D,
     getElementById containerId (dom w) = None →
     let r := loadGeoGebra containerId f is3D w in
     promise r.2 r.1 = Failed (ErrorObj (Text.mountNotFound containerId))
     ∧ dom r.1 = dom w)
  ∧ (∀ containerId f is3D container,
     getElementById containerId (dom w) = Some container →
     f = None ∨ (∃ name, f = Some name ∧ endsWith name ".ggb" = false) →
     let r := loadGeoGebra containerId f is3D w in
     promise r.2 r.1 = Failed (ErrorObj Text.invalidResourceName)
     ∧ dom r.1 = dom w)
  ∧ (∀ c cl error,
     fetching c w = Some cl →
     let w' := step (ScriptError c error) w in
     promise c w' = Failed (EventObj error)
     ∧ innerHTML_of (cl_container cl) (dom w')
       = Some (Text.errorPanelHtml (cl_ggbFileName cl)
                 (basePath (location w) +:+ cl_ggbFileName cl)))
  ∧ (∀ h c cl message,
     timers w !! h = Some (CheckInterval c) →
     closure_of c w = Some cl →
     truthy (window w !! "GGBApplet") = true →
     instantiate (window w !! "GGBApplet") (cl_params cl) (cl_containerId cl)
       = Some message →
     promise c (step (Tick h) w)
     = Failed (ErrorObj (Text.initializationFailed message))).
Proof.
  intros Hw. split; [|split; [|split]].
  - intros containerId f is3D Hmount. simpl.
    rewrite load_without_mount by done. split; apply rejected_spec.
  - intros containerId f is3D container Hmount Hname. simpl.
    rewrite (load_with_invalid_name _ _ _ _ container) by done.
    split; apply rejected_spec.
  - intros c cl error Hf. simpl. split.
    + by apply (promise_in_phase _ _ _ (onerror_settles c cl error w Hw Hf)).
    + rewrite Hf. simpl. apply innerHTML_of_setInnerHTML.
      apply (cons_closure _ Hw c). apply fetching_Some in Hf as (k & Hk & _ & Hcl).
      unfold closure_of. by rewrite Hk.
  - intros h c cl message Ht Hcl Hlib Hthrow.
    destruct (init_failure_settles h c cl message w Hw Ht Hcl Hlib Hthrow)
      as (Hp & _).
    by apply (promise_in_phase _ _ _ Hp).
Qed.

Lemma C3_error_outcomes_witness :
  promise 0 (step (ScriptError 0 "error") demoLoading) = Failed (EventObj "error")
  ∧ innerHTML_of 0 (dom (step (ScriptError 0 "error") demoLoading))
    = Some (Text.errorPanelHtml "derivative.ggb" "/assets/ggb/derivative.ggb").
Proof.
  assert (consistent demoLoading) as Hw
    by apply load_consistent, page_consistent.
  destruct (C3_error_outcomes demoLoading Hw) as (_ & _ & Hfailed & _).
  apply (Hfailed 0 (mkClosure 0 "box" "derivative.ggb"
                      (mkParamsFor demoLocation "derivative.ggb" false) 1) "error").
  vm_compute. reflexivity.
Defined.

(** C3 as stated fails: a call with an existing mount point and the file
    name [notAGgbFile.txt] is rejected with the invalid-name error, and
    the mount point still holds its old contents, not the diagnostic
    panel. *)
Lemma C3_no_panel_for_invalid_name :
  let r := loadGeoGebra "box" (Some "notAGgbFile.txt") false demoPage in
  promise r.2 r.1 = Failed (ErrorObj Text.invalidResourceName)
  ∧ innerHTML_of 0 (dom r.1) = Some "old"
  ∧ innerHTML_of 0 (dom r.1)
    ≠ Some (Text.errorPanelHtml "notAGgbFile.txt"
              (basePath demoLocation +:+ "notAGgbFile.txt")).
Proof.
  simpl. split; [|split].
  - vm_compute. reflexivity.
  - vm_compute. reflexivity.
  - intros E. vm_compute in E. discriminate E.
Qed.

(** What the page shows after a failed initialization. *)
Example failed_initialization_on_demo :
  promise 0 (step (Tick 0) demoBroken)
  = Failed (ErrorObj (Text.initializationFailed "boom"))
  ∧ innerHTML_of 0 (dom (step (Tick 0) demoBroken))
    = Some (Text.loadingHtml "derivative.ggb").
Proof. split; vm_compute; reflexivity. Qed.

(** ** Every call moves forward only *)

Lemma run_advance es w c p :
  consistent w → in_phase c w p →
  ∃ p', in_phase c (run es w) p' ∧ rtc advance p p'.
Proof.
  revert w p. induction es as [|e es IH]; intros w p Hw Hp.
  { exists p. by split. }
  destruct (step_advance e w c p Hw Hp) as (q & Hq & Hadv).
  destruct (IH (step e w) q (step_consistent _ _ Hw) Hq) as (p' & Hp' & Hrtc).
  exists p'. split; [done|].
  destruct Hadv as [->|Hadv]; [done|]. by eapply rtc_l.
Qed.

Lemma load_phase containerId f is3D w :
  consistent w →
  ∃ p, in_phase (loadGeoGebra containerId f is3D w).2
         (loadGeoGebra containerId f is3D w).1 p.
Proof.
  intros Hw. apply (cons_phase _ (load_consistent containerId f is3D w Hw)).
  destruct (load_calls containerId f is3D w) as (k & -> & -> & _).
  rewrite length_app. simpl. lia.
Qed.

(** C7: when construction throws on the tick that first sees the library
    global, that tick clears the first timer and installs no other, the
    promise is rejected with the initialization error, an [Error] whose
    message is the fixed prefix of the source followed by the message of
    the error that was thrown, and from then on the call owns no timer:
    the second polling phase never starts, whatever happens next, and the
    rejection stays. *)
Theorem C7_construction_throws w h c cl message es :
  consistent w →
  timers w !! h = Some (CheckInterval c) →
  closure_of c w = Some cl →
  truthy (window w !! "GGBApplet") = true →
  instantiate (window w !! "GGBApplet") (cl_params cl) (cl_containerId cl)
    = Some message →
  let w' := step (Tick h) w in
  timers w' = delete h (timers w)
  ∧ promise c w' = Failed (ErrorObj ("❌ GeoGebra 初始化失败: " +:+ message))
  ∧ owned c (timers (run es w')) = ∅
  ∧ (∀ h', timers (run es w') !! h' ≠ Some (OnLoaded c))
  ∧ promise c (run es w')
    = Failed (ErrorObj ("❌ GeoGebra 初始化失败: " +:+ message))
  ∧ settlements c (run es w') = 1.
Proof.
  intros Hw Ht Hcl Hlib Hthrow w'.
  destruct (init_failure_settles h c cl message w Hw Ht Hcl Hlib Hthrow)
    as (Hp & _ & Htimers).
  fold w' in Hp, Htimers.
  assert (consistent w') as Hw' by by apply step_consistent.
  pose proof (settled_forever es w' c _ Hw' Hp) as Hes.
  destruct (promise_in_phase _ _ _ Hp) as [Hpromise _].
  destruct (promise_in_phase _ _ _ Hes) as [Hpromise' Hcount'].
  destruct Hes as (k & _ & _ & _ & Howned).
  repeat split; try done.
  intros h' Hh'.
  assert (owned c (timers (run es w')) !! h' = Some (OnLoaded c)) as E
    by by apply owned_lookup.
  by rewrite Howned in E.
Qed.

Lemma C7_construction_throws_witness :
  timers (step (Tick 0) demoBroken) = delete 0 (timers demoBroken)
  ∧ promise 0 (step (Tick 0) demoBroken)
    = Failed (ErrorObj "❌ GeoGebra 初始化失败: boom")
  ∧ owned 0 (timers (run [Tick 0; Tick 1] (step (Tick 0) demoBroken))) = ∅
  ∧ (∀ h', timers (run [Tick 0; Tick 1] (step (Tick 0) demoBroken)) !! h'
           ≠ Some (OnLoaded 0))
  ∧ promise 0 (run [Tick 0; Tick 1] (step (Tick 0) demoBroken))
    = Failed (ErrorObj "❌ GeoGebra 初始化失败: boom")
  ∧ settlements 0 (run [Tick 0; Tick 1] (step (Tick 0) demoBroken)) = 1.
Proof.
  apply (C7_construction_throws demoBroken 0 0
           (mkClosure 0 "box" "derivative.ggb"
              (mkParamsFor demoLocation "derivative.ggb" false) 1)
           "boom" [Tick 0; Tick 1]).
  - apply run_consistent, load_consistent, page_consistent.
  - vm_compute. reflexivity.
  - vm_compute. reflexivity.
  - vm_compute. reflexivity.
  - vm_compute. reflexivity.
Defined.

(** C1, as the code has it: a call invokes [resolve] or [reject] at most
    once in all, under any sequence of events (script events, ticks,
    writes to [window], further calls of the loader), and a promise that
    is settled keeps its state.  Whether the promise is settled at all
    is up to the environment: there is no timeout. *)
Theorem C1_settled_at_most_once w containerId f is3D es es' :
  consistent w →
  let r := loadGeoGebra containerId f is3D w in
  (settlements r.2 (run es r.1) ≤ 1)%nat
  ∧ (settlements r.2 (run es r.1) = 1 ↔ promise r.2 (run es r.1) ≠ Pending)
  ∧ (promise r.2 (run es r.1) ≠ Pending →
     promise r.2 (run (es ++ es') r.1) = promise r.2 (run es r.1)
     ∧ settlements r.2 (run (es ++ es') r.1) = 1).
Proof.
  intros Hw r.
  assert (consistent r.1) as Hr by by apply load_consistent.
  destruct (load_phase containerId f is3D w Hw) as [p0 Hp0]. fold r in Hp0.
  destruct (run_advance es r.1 r.2 p0 Hr Hp0) as (p & Hp & _).
  destruct (promise_in_phase _ _ _ Hp) as [Hpromise Hcount].
  rewrite Hpromise, Hcount.
  split; [by destruct p; lia|]. split.
  - by destruct p as [| | |[v|r']].
  - intros Hsettled. destruct p as [| | |o]; try done.
    rewrite run_app.
    pose proof (settled_forever es' _ _ _ (run_consistent es _ Hr) Hp) as Hp'.
    destruct (promise_in_phase _ _ _ Hp') as [-> ->]. done.
Qed.

Lemma C1_settled_at_most_once_witness :
  let r := loadGeoGebra "box" (Some "derivative.ggb") false demoPage in
  let es := [ScriptLoad 0; SetWindow "GGBApplet" brokenLibrary; Tick 0] in
  (settlements r.2 (run es r.1) ≤ 1)%nat
  ∧ (settlements r.2 (run es r.1) = 1 ↔ promise r.2 (run es r.1) ≠ Pending)
  ∧ (promise r.2 (run es r.1) ≠ Pending →
     promise r.2 (run (es ++ [Tick 0; ScriptError 0 "late"]) r.1)
     = promise r.2 (run es r.1)
     ∧ settlements r.2 (run (es ++ [Tick 0; ScriptError 0 "late"]) r.1) = 1).
Proof.
  apply (C1_settled_at_most_once demoPage "box" (Some "derivative.ggb") false
           [ScriptLoad 0; SetWindow "GGBApplet" brokenLibrary; Tick 0]
           [Tick 0; ScriptError 0 "late"]).
  apply page_consistent.
Defined.

Lemma run_repeat_fixed e n w : step e w = w → run (repeat e n) w = w.
Proof.
  intros He. induction n as [|n IH]; [done|].
  cbn [repeat]. by rewrite run_cons, He.
Qed.

(** C1 as stated fails: the script loads and the first timer ticks for
    ever without the library global appearing; the promise is never
    settled. *)
Lemma C1_pending_for_ever :
  ¬ ∃ n, promise 0 (run (ScriptLoad 0 :: repeat (Tick 0) n) demoLoading) ≠ Pending.
Proof.
  intros [n Hn]. apply Hn. rewrite run_cons.
  rewrite run_repeat_fixed; vm_compute; reflexivity.
Qed.
(** ** The mock schedule *)

Lemma length_append (s t : string) :
  String.length (s +:+ t) = String.length s + String.length t.
Proof. induction s as [|a s IH]; simpl; [done|]. by rewrite IH. Qed.

(** The slot of the instance is never the slot of the library. *)
Lemma instance_key_not_library containerId :
  containerId +:+ "_applet" ≠ "GGBApplet".
Proof.
  intros E.
  assert (String.length containerId = 2) as Hlen.
  { apply (f_equal String.length) in E. rewrite length_append in E.
    simpl in E. lia. }
  destruct containerId as [|a [|b [|? ?]]]; try discriminate Hlen.
  simpl in E. discriminate E.
Qed.

Section Handlers.
Implicit Types (x : World) (c h : nat) (cl : Closure).

Lemma script_load_runs c cl x :
  fetching c x = Some cl → step (ScriptLoad c) x = onload c (fire c x).
Proof. intros Hf. simpl. by rewrite Hf. Qed.

Lemma tick_library_absent h c x :
  timers x !! h = Some (CheckInterval c) →
  truthy (window x !! "GGBApplet") = false →
  step (Tick h) x = x.
Proof.
  intros Ht Hlib. simpl. rewrite Ht. destruct (closure_of c x); [|done].
  unfold checkInterval. by rewrite Hlib.
Qed.

Lemma tick_library_present h c cl throws x :
  timers x !! h = Some (CheckInterval c) →
  closure_of c x = Some cl →
  window x !! "GGBApplet" = Some (VConstructor throws) →
  throws (cl_params cl) (cl_containerId cl) = None →
  step (Tick h) x
  = setInterval (OnLoaded c)
      (construct (cl_params cl) (cl_containerId cl) (clearInterval h x)).
Proof.
  intros Ht Hcl Hlib Hok. simpl. rewrite Ht, Hcl.
  unfold checkInterval. rewrite Hlib. simpl. rewrite Hlib.
  unfold instantiate. by rewrite Hok.
Qed.

Lemma tick_instance_absent h c cl x :
  timers x !! h = Some (OnLoaded c) →
  closure_of c x = Some cl →
  truthy (window x !! (cl_containerId cl +:+ "_applet")) = false →
  step (Tick h) x = x.
Proof.
  intros Ht Hcl Hinst. simpl. rewrite Ht, Hcl. unfold onLoaded.
  destruct (window x !! _); [|done]. by rewrite Hinst.
Qed.

Lemma tick_instance_present h c cl v x :
  timers x !! h = Some (OnLoaded c) →
  closure_of c x = Some cl →
  window x !! (cl_containerId cl +:+ "_applet") = Some v →
  truthy (Some v) = true →
  step (Tick h) x
  = settle c (Resolved v)
      (log (Text.appletLoaded (cl_ggbFileName cl)) (clearInterval h x)).
Proof.
  intros Ht Hcl Hinst Htruthy. simpl. rewrite Ht, Hcl. unfold onLoaded.
  by rewrite Hinst, Htruthy.
Qed.

(** Where timers come from. *)
Lemma step_installs_onLoaded e x h c :
  timers (step e x) !! h = Some (OnLoaded c) →
  timers x !! h = Some (OnLoaded c)
  ∨ ∃ h', e = Tick h' ∧ timers x !! h' = Some (CheckInterval c)
          ∧ truthy (window x !! "GGBApplet") = true.
Proof.
  destruct e as [c'|c' err|h'|key v|cid f is3D]; simpl.
  - destruct (fetching c' x); [|by left]. simpl.
    rewrite lookup_insert. case_decide; [done|by left].
  - destruct (fetching c' x); by left.
  - destruct (timers x !! h') as [[c'|c']|] eqn:Ht; [| |by left].
    + destruct (closure_of c' x); [|by left]. unfold checkInterval.
      destruct (truthy (window x !! "GGBApplet")) eqn:Hlib; [|by left].
      simpl. destruct (instantiate _ _ _); simpl.
      * intros [_ H]%lookup_delete_Some. by left.
      * rewrite lookup_insert. case_decide.
        -- intros [= <-]. right. eauto.
        -- intros [_ H']%lookup_delete_Some. by left.
    + destruct (closure_of c' x); [|by left]. unfold onLoaded.
      destruct (window x !! _); [|by left].
      destruct (truthy _); [|by left]. simpl.
      intros [_ H]%lookup_delete_Some. by left.
  - by left.
  - destruct (load_calls cid f is3D x) as (k & _ & _ & -> & _). by left.
Qed.

Lemma step_installs_checkInterval e x h c :
  timers (step e x) !! h = Some (CheckInterval c) →
  timers x !! h = Some (CheckInterval c)
  ∨ e = ScriptLoad c ∧ is_Some (fetching c x).
Proof.
  destruct e as [c'|c' err|h'|key v|cid f is3D]; simpl.
  - destruct (fetching c' x) eqn:Hf; [|by left]. simpl.
    rewrite lookup_insert. case_decide; [|by left].
    intros [= <-]. right. by rewrite Hf.
  - destruct (fetching c' x); by left.
  - destruct (timers x !! h') as [[c'|c']|] eqn:Ht; [| |by left].
    + destruct (closure_of c' x); [|by left]. unfold checkInterval.
      destruct (truthy (window x !! "GGBApplet")); [|by left].
      simpl. destruct (instantiate _ _ _); simpl.
      * intros [_ H]%lookup_delete_Some. by left.
      * rewrite lookup_insert. case_decide; [done|].
        intros [_ H']%lookup_delete_Some. by left.
    + destruct (closure_of c' x); [|by left]. unfold onLoaded.
      destruct (window x !! _); [|by left].
      destruct (truthy _); [|by left]. simpl.
      intros [_ H]%lookup_delete_Some. by left.
  - by left.
  - destruct (load_calls cid f is3D x) as (k & _ & _ & -> & _). by left.
Qed.

Lemma run_installs_onLoaded es x h c :
  timers (run es x) !! h = Some (OnLoaded c) →
  timers x !! h = Some (OnLoaded c)
  ∨ ∃ es1 h' es2, es = es1 ++ Tick h' :: es2
      ∧ timers (run es1 x) !! h' = Some (CheckInterval c)
      ∧ truthy (window (run es1 x) !! "GGBApplet") = true.
Proof.
  revert h. induction es as [|e es IH] using rev_ind; intros h; [by left|].
  rewrite run_snoc.
  intros [Hold|(h' & -> & Ht & Hlib)]%step_installs_onLoaded.
  - destruct (IH h Hold) as [?|(es1 & h' & es2 & -> & Ht & Hlib)]; [by left|].
    right. exists es1, h', (es2 ++ [e]). by rewrite <- app_assoc.
  - right. by exists es, h', [].
Qed.

Lemma run_installs_checkInterval es x h c :
  timers (run es x) !! h = Some (CheckInterval c) →
  timers x !! h = Some (CheckInterval c)
  ∨ ∃ es1 es2, es = es1 ++ ScriptLoad c :: es2
      ∧ is_Some (fetching c (run es1 x)).
Proof.
  revert h. induction es as [|e es IH] using rev_ind; intros h; [by left|].
  rewrite run_snoc.
  intros [Hold|[-> Hf]]%step_installs_checkInterval.
  - destruct (IH h Hold) as [?|(es1 & es2 & -> & Hf)]; [by left|].
    right. exists es1, (es2 ++ [e]). by rewrite <- app_assoc.
  - right. by exists es, [].
Qed.

End Handlers.
Lemma promise_stable es x c :
  consistent x → promise c x ≠ Pending → promise c (run es x) = promise c x.
Proof.
  intros Hx Hsettled.
  assert (c < length (calls x)) as Hc.
  { unfold promise in Hsettled. destruct (calls x !! c) eqn:E; [|done].
    by eapply lookup_lt_Some. }
  destruct (cons_phase _ Hx c Hc) as [p Hp].
  destruct (promise_in_phase _ _ _ Hp) as [Hpromise _].
  destruct p as [| | |o]; try (by rewrite Hpromise in Hsettled).
  pose proof (settled_forever es x c o Hx Hp) as Hp'.
  destruct (promise_in_phase _ _ _ Hp') as [-> _]. by rewrite Hpromise.
Qed.

Lemma proper_prefix_snoc {A} (es rest pre : list A) (last : A) :
  es ++ rest = pre ++ [last] → rest ≠ [] → ∃ mid, pre = es ++ mid.
Proof.
  intros E Hrest. destruct rest as [|y rest' _] using rev_ind; [done|].
  rewrite app_assoc in E. apply app_inj_tail in E as [<- _]. eauto.
Qed.

Lemma filter_isTick_repeat h n :
  List.filter isTick (repeat (Tick h) n) = repeat (Tick h) n.
Proof. induction n as [|n IH]; [done|]. simpl. by rewrite IH. Qed.

(** C2: in the mock scheduler the script loads, the [N]-th tick of the
    first timer is the first to see the library global, and the [M]-th
    tick of the second timer is the first to see the instance.  The
    schedule has [N + M] ticks and ends with one; the promise is pending
    after every proper prefix of it and fulfilled with the instance at
    its end.  In any run, a second-phase timer of the call exists only
    after a first-phase tick of the call that saw the library global, and
    a first-phase timer only after the script's load event. *)
Theorem C2_resolves_on_tick_N_plus_M
    w containerId name is3D container throws instance (N M : nat) :
  consistent w →
  getElementById containerId (dom w) = Some container →
  endsWith name ".ggb" = true →
  truthy (window w !! "GGBApplet") = false →
  truthy (window w !! (containerId +:+ "_applet")) = false →
  throws (mkParamsFor (location w) name is3D) containerId = None →
  truthy (Some instance) = true →
  (1 ≤ N)%nat → (1 ≤ M)%nat →
  let r := loadGeoGebra containerId (Some name) is3D w in
  let hA := next_timer w in
  let hB := S (next_timer w) in
  let schedule :=
    mockSchedule r.2 hA hB N M containerId (VConstructor throws) instance in
  length (List.filter isTick schedule) = N + M
  ∧ (∃ es, schedule = es ++ [Tick hB])
  ∧ promise r.2 (run schedule r.1) = Fulfilled instance
  ∧ (∀ es rest, schedule = es ++ rest → rest ≠ [] →
       promise r.2 (run es r.1) = Pending)
  ∧ (∀ es h, timers (run es r.1) !! h = Some (OnLoaded r.2) →
       ∃ es1 h' es2, es = es1 ++ Tick h' :: es2
         ∧ timers (run es1 r.1) !! h' = Some (CheckInterval r.2)
         ∧ truthy (window (run es1 r.1) !! "GGBApplet") = true)
  ∧ (∀ es h, timers (run es r.1) !! h = Some (CheckInterval r.2) →
       ∃ es1 es2, es = es1 ++ ScriptLoad r.2 :: es2
         ∧ is_Some (fetching r.2 (run es1 r.1))).
Proof.
  intros Hw Hmount Hext Hnolib Hnoinst Hok Hinst HN HM r hA hB schedule.
  destruct (load_valid containerId name is3D w container Hmount Hext)
    as (Hc & _ & [script Hcalls] & Htimers & Hnext & Hwindow & _).
  fold r in Hc, Hcalls, Htimers, Hnext, Hwindow.
  set (cl := mkClosure container containerId name
               (mkParamsFor (location w) name is3D) script) in *.
  assert (consistent r.1) as Hr by by apply load_consistent.
  assert (calls r.1 !! r.2 = Some (mkCall (Some cl) false [])) as Hcall.
  { by rewrite Hcalls, Hc, list_lookup_middle. }
  assert (fetching r.2 r.1 = Some cl) as Hf.
  { unfold fetching. by rewrite Hcall. }
  assert (owned r.2 (timers r.1) = ∅) as Hnone.
  { by destruct (fetching_phase _ _ _ Hr Hf) as (? & _ & _ & _ & _ & ?). }
  (* the states the schedule goes through *)
  set (w2 := onload r.2 (fire r.2 r.1)).
  set (w3 := with_window (insert "GGBApplet" (VConstructor throws)) w2).
  set (w4 := setInterval (OnLoaded r.2)
               (construct (cl_params cl) (cl_containerId cl) (clearInterval hA w3))).
  set (w5 := with_window (insert (containerId +:+ "_applet") instance) w4).
  set (w6 := settle r.2 (Resolved instance)
               (log (Text.appletLoaded (cl_ggbFileName cl)) (clearInterval hB w5))).
  assert (∀ x, calls x = calls w2 → closure_of r.2 x = Some cl) as Hclosure.
  { intros x Hx. unfold closure_of. rewrite Hx. simpl.
    by rewrite list_lookup_alter_eq, Hcall. }
  assert (timers w2 !! hA = Some (CheckInterval r.2)) as HtA.
  { simpl. rewrite Hnext. apply lookup_insert_eq. }
  assert (timers w4 !! hB = Some (OnLoaded r.2)) as HtB.
  { simpl. rewrite Hnext. apply lookup_insert_eq. }
  assert (step (ScriptLoad r.2) r.1 = w2) as E12
    by by apply script_load_runs with (cl := cl).
  assert (step (Tick hA) w2 = w2) as E22.
  { eapply tick_library_absent; [done|]. simpl. by rewrite Hwindow. }
  assert (step (Tick hA) w3 = w4) as E34.
  { apply tick_library_present with (throws := throws); try done.
    - by apply Hclosure.
    - simpl. apply lookup_insert_eq. }
  assert (step (Tick hB) w4 = w4) as E44.
  { apply tick_instance_absent with (c := r.2) (cl := cl); try done.
    - by apply Hclosure.
    - simpl. rewrite lookup_insert_ne, Hwindow; [done|].
      intros E. by apply (instance_key_not_library containerId). }
  assert (step (Tick hB) w5 = w6) as E56.
  { apply tick_instance_present; try done.
    - by apply Hclosure.
    - simpl. apply lookup_insert_eq. }
  set (pre := ScriptLoad r.2 :: repeat (Tick hA) (N - 1)
                ++ SetWindow "GGBApplet" (VConstructor throws) :: Tick hA
                   :: repeat (Tick hB) (M - 1)
                ++ [SetWindow (containerId +:+ "_applet") instance]).
  assert (schedule = pre ++ [Tick hB]) as Hsched.
  { unfold schedule, mockSchedule, pre. simpl.
    rewrite <- !app_assoc. simpl. by rewrite <- !app_assoc. }
  assert (run pre r.1 = w5) as Hpre.
  { unfold pre. rewrite run_cons, E12, run_app, (run_repeat_fixed _ _ _ E22).
    rewrite !run_cons. change (step (SetWindow _ _) w2) with w3.
    by rewrite E34, run_app, (run_repeat_fixed _ _ _ E44). }
  assert (promise r.2 w5 = Pending) as Hpending.
  { unfold promise. simpl. by rewrite list_lookup_alter_eq, Hcall. }
  repeat split.
  - unfold schedule, mockSchedule. simpl.
    rewrite !List.filter_app. simpl. rewrite !List.filter_app. simpl.
    rewrite !filter_isTick_repeat, !length_app. simpl.
    rewrite length_app, !repeat_length. simpl. lia.
  - by exists pre.
  - rewrite Hsched, run_app, Hpre.
    change (run [Tick hB] w5) with (step (Tick hB) w5). rewrite E56.
    unfold promise. simpl. by rewrite !list_lookup_alter_eq, Hcall.
  - intros es rest Hes Hrest. rewrite Hsched in Hes.
    destruct (proper_prefix_snoc _ _ _ _ (eq_sym Hes) Hrest) as [mid Hmid].
    destruct (promise r.2 (run es r.1)) eqn:E; [done| |];
      exfalso;
      (assert (promise r.2 (run es r.1) ≠ Pending) as Hne by by rewrite E);
      pose proof (promise_stable mid _ _ (run_consistent es _ Hr) Hne) as Hst;
      rewrite <- run_app, <- Hmid, Hpre, Hpending in Hst; by rewrite E in Hst.
  - intros es h Ht.
    destruct (run_installs_onLoaded es r.1 h r.2 Ht) as [Hold|?]; [|done].
    assert (owned r.2 (timers r.1) !! h = Some (OnLoaded r.2)) as E
      by by apply owned_lookup.
    by rewrite Hnone in E.
  - intros es h Ht.
    destruct (run_installs_checkInterval es r.1 h r.2 Ht) as [Hold|?]; [|done].
    assert (owned r.2 (timers r.1) !! h = Some (CheckInterval r.2)) as E
      by by apply owned_lookup.
    by rewrite Hnone in E.
Qed.
Lemma C2_resolves_on_tick_N_plus_M_witness :
  let schedule := mockSchedule 0 0 1 2 3 "box" mockLibrary (VObject 7) in
  length (List.filter isTick schedule) = 5
  ∧ promise 0 (run schedule demoLoading) = Fulfilled (VObject 7)
  ∧ (∀ es rest, schedule = es ++ rest → rest ≠ [] →
       promise 0 (run es demoLoading) = Pending).
Proof.
  destruct (C2_resolves_on_tick_N_plus_M demoPage "box" "derivative.ggb" false 0
              (fun _ _ => None) (VObject 7) 2 3)
    as (Hticks & _ & Hresolved & Hpending & _).
  - apply page_consistent.
  - vm_compute. reflexivity.
  - vm_compute. reflexivity.
  - vm_compute. reflexivity.
  - vm_compute. reflexivity.
  - reflexivity.
  - reflexivity.
  - lia.
  - lia.
  - split; [exact Hticks|]. split; [exact Hresolved|exact Hpending].
Defined.

(** ** One script element per key *)

Section SingleScript.
Implicit Types (d : Dom) (w : World) (id : string).

Lemma scripts_with_id_le id d :
  (length (scripts_with_id id d) ≤ length (with_id id d))%nat.
Proof. apply filter_length_le. Qed.

Lemma with_id_nil_split id d :
  with_id id d = [] →
  List.filter (has_id d id) (head d) = [] ∧ List.filter (has_id d id) (body d) = [].
Proof. rewrite with_id_split. apply app_eq_nil. Qed.

(** [writes] names the writes that an event makes: a handler leaves the
    page as these writes leave it, and a call that passes validation
    makes its one write before it replaces the script element. *)
Lemma step_writes e w :
  (∀ containerId f is3D, e ≠ CallLoad containerId f is3D) →
  dom (step e w)
  = fold_left (fun d wr => setInnerHTML wr.1 wr.2 d) (writes e w) (dom w).
Proof.
  intros Hne.
  destruct (step_dom e w Hne) as [E|(c & err & cl & -> & Hf & ->)].
  - rewrite E. destruct e as [c|c err|h|key v|cid f is3D]; simpl; try done.
    + simpl in E. destruct (fetching c w) as [cl|]; [|done]. done.
    + by destruct (Hne cid f is3D).
  - simpl. by rewrite Hf.
Qed.

Lemma load_writes containerId f is3D w :
  (writes (CallLoad containerId f is3D) w = []
   ∧ dom (loadGeoGebra containerId f is3D w).1 = dom w)
  ∨ ∃ container name,
      f = Some name
      ∧ writes (CallLoad containerId f is3D) w
        = [(container, Text.loadingHtml name)]
      ∧ dom (loadGeoGebra containerId f is3D w).1
        = replaced container name is3D (dom w).
Proof.
  rewrite load_dom. simpl.
  destruct (getElementById containerId (dom w)) as [container|]; [|by left].
  destruct (invalidName f) eqn:E; [by left|].
  destruct f as [name|]; [|done]. right. by exists container, name.
Qed.

Lemma scriptId_not_empty is3D : String.eqb (scriptId is3D) "" = false.
Proof. by destruct is3D. Qed.

(** The teardown: after it, no attached element carries the script id. *)
Lemma teardown_clears is3D d :
  (length (with_id (scriptId is3D) d) ≤ 1)%nat →
  with_id (scriptId is3D)
    match getElementById (scriptId is3D) d with
    | Some existingScript => remove existingScript d
    | None => d
    end = [].
Proof.
  intros Hone.
  destruct (getElementById (scriptId is3D) d) as [x|] eqn:E.
  - by apply with_id_teardown.
  - rewrite getElementById_with_id in E.
    by destruct (with_id (scriptId is3D) d).
Qed.

Lemma teardown_tree is3D d :
  (∀ x, x ∈ tree d → x < next_node d) →
  let d' := match getElementById (scriptId is3D) d with
            | Some existingScript => remove existingScript d
            | None => d
            end in
  (∀ x, x ∈ tree d' → x < next_node d') ∧ next_node d' = next_node d.
Proof.
  intros Hd. destruct (getElementById (scriptId is3D) d); simpl; [|done].
  split; [|done]. intros x [Hx _]%tree_remove_elem. by apply Hd.
Qed.

(** The teardown removes elements and adds none. *)
Lemma teardown_le is3D id d :
  (length (with_id id
     match getElementById (scriptId is3D) d with
     | Some existingScript => remove existingScript d
     | None => d
     end) ≤ length (with_id id d))%nat.
Proof.
  destruct (getElementById (scriptId is3D) d); [|done].
  apply with_id_remove_le.
Qed.

Lemma replaced_with_id container name is3D d :
  (∀ x, x ∈ tree d → x < next_node d) →
  builds_id d (scriptId is3D) container (Text.loadingHtml name) = false →
  (length (with_id (scriptId is3D) d) ≤ 1)%nat →
  with_id (scriptId is3D) (replaced container name is3D d)
  = [next_node d + length (fragment container (Text.loadingHtml name) d)].
Proof.
  intros Hd Hno Hone. unfold replaced.
  set (d1 := setInnerHTML container (Text.loadingHtml name) d).
  assert (∀ x, x ∈ tree d1 → x < next_node d1) as Hd1
    by (by apply setInnerHTML_bound).
  assert (length (with_id (scriptId is3D) d1) ≤ 1)%nat as Hone1.
  { etrans; [by apply with_id_setInnerHTML_le|done]. }
  pose proof (teardown_clears is3D d1 Hone1) as Hclear.
  destruct (teardown_tree is3D d1 Hd1) as [Hd2 Hnext].
  simpl in Hd2, Hnext.
  set (d2 := match getElementById (scriptId is3D) d1 with
             | Some existingScript => remove existingScript d1
             | None => d1
             end) in *.
  rewrite with_id_append by done.
  apply with_id_nil_split in Hclear as [-> ->]. simpl.
  rewrite scriptId_not_empty, bool_decide_eq_true_2 by done. simpl.
  by rewrite Hnext.
Qed.

(** A call adds no element with an id that its notice does not build and
    that is not the id of its script element. *)
Lemma replaced_with_id_le container name is3D id d :
  (∀ x, x ∈ tree d → x < next_node d) →
  builds_id d id container (Text.loadingHtml name) = false →
  (length (with_id id d) ≤ 1)%nat →
  (length (with_id id (replaced container name is3D d)) ≤ 1)%nat.
Proof.
  intros Hd Hno Hone.
  destruct (decide (id = scriptId is3D)) as [->|Hne].
  { by rewrite replaced_with_id. }
  unfold replaced.
  set (d1 := setInnerHTML container (Text.loadingHtml name) d).
  assert (∀ x, x ∈ tree d1 → x < next_node d1) as Hd1
    by (by apply setInnerHTML_bound).
  assert (length (with_id id d1) ≤ 1)%nat as Hone1.
  { etrans; [by apply with_id_setInnerHTML_le|done]. }
  destruct (teardown_tree is3D d1 Hd1) as [Hd2 Hnext].
  pose proof (teardown_le is3D id d1) as Hle.
  simpl in Hd2, Hnext.
  set (d2 := match getElementById (scriptId is3D) d1 with
             | Some existingScript => remove existingScript d1
             | None => d1
             end) in *.
  rewrite with_id_append by done. simpl.
  rewrite (bool_decide_eq_false_2 (scriptId is3D = id)) by done.
  rewrite andb_false_r. simpl.
  rewrite <- with_id_split. lia.
Qed.

Lemma replaced_script container name is3D d :
  let script := next_node d + length (fragment container (Text.loadingHtml name) d) in
  nodes (replaced container name is3D d) !! script
  = Some (mkElement TagScript (scriptId is3D) (scriptSrc is3D) "")
  ∧ script ∈ head (replaced container name is3D d).
Proof.
  unfold replaced. simpl.
  destruct (getElementById _ _); simpl; rewrite lookup_insert_eq;
    (split; [done|]); apply elem_of_app; right; by apply list_elem_of_singleton.
Qed.

Lemma replaced_has_id_old container name is3D d id x :
  x < next_node d →
  has_id (replaced container name is3D d) id x = has_id d id x.
Proof.
  intros Hx.
  rewrite <- (has_id_setInnerHTML_old container (Text.loadingHtml name) d id x)
    by done.
  unfold replaced, has_id.
  destruct (getElementById _ _); simpl; by rewrite lookup_insert_ne by lia.
Qed.

Lemma tidy_load containerId f is3D w id container :
  getElementById containerId (dom w) = Some container →
  invalidName f = false →
  tidy id (CallLoad containerId f is3D) w = true →
  builds_id (dom w) id container (Text.loadingHtml (default "" f)) = false.
Proof.
  unfold tidy. simpl. intros -> ->. simpl.
  rewrite andb_true_r. apply negb_true_iff.
Qed.

Lemma step_unique e w id :
  consistent w →
  (length (with_id id (dom w)) ≤ 1)%nat →
  tidy id e w = true →
  (length (with_id id (dom (step e w))) ≤ 1)%nat.
Proof.
  intros Hw Hone Htidy.
  destruct (call_or_not e) as [(cid & f & is3D & ->)|Hne].
  - simpl. rewrite load_dom.
    destruct (getElementById cid (dom w)) as [container|] eqn:Hmount; [|done].
    destruct (invalidName f) eqn:Hname; [done|].
    apply replaced_with_id_le; [apply Hw| |done].
    by eapply tidy_load.
  - destruct (step_dom e w Hne) as [->|(c & err & cl & -> & Hf & ->)];
      [done|].
    etrans; [|exact Hone].
    apply with_id_setInnerHTML_le; [apply Hw|].
    unfold tidy in Htidy. simpl in Htidy. rewrite Hf in Htidy. simpl in Htidy.
    rewrite andb_true_r in Htidy. by apply negb_true_iff.
Qed.

Lemma run_unique es w id :
  consistent w →
  (length (with_id id (dom w)) ≤ 1)%nat →
  clean id es w = true →
  (length (with_id id (dom (run es w))) ≤ 1)%nat.
Proof.
  revert w. induction es as [|e es IH]; intros w Hw Hone Hclean; [done|].
  simpl in Hclean. apply andb_true_iff in Hclean as [Htidy Hclean].
  rewrite run_cons.
  apply IH; [by apply step_consistent|by apply step_unique|done].
Qed.

Lemma clean_app id es es' w :
  clean id (es ++ es') w = clean id es w && clean id es' (run es w).
Proof.
  revert w. induction es as [|e es IH]; intros w; [done|].
  cbn [clean app]. rewrite IH, run_cons. by rewrite andb_assoc.
Qed.

End SingleScript.

(** C4, as the code has it.  The loader removes the first element that
    carries the script id of the key, and no other, and it writes markup
    into the mount point.  So: on a page where at most one element
    carries that id, and as long as no markup written during the run
    builds an element with that id, at most one element, hence at most
    one script element, with that id is attached at any time; and a call
    that passes validation, made after an earlier call with the same key
    and anything that happened in between, leaves exactly one element
    with that id: the script element it has just created and appended to
    the head.  Every element that carried the id before that call is
    detached (none, when none was present). *)
Theorem C4_single_script_element w is3D :
  consistent w →
  (length (with_id (scriptId is3D) (dom w)) ≤ 1)%nat →
  (∀ es, clean (scriptId is3D) es w = true →
         (length (with_id (scriptId is3D) (dom (run es w))) ≤ 1)%nat
         ∧ (length (scripts_with_id (scriptId is3D) (dom (run es w))) ≤ 1)%nat)
  ∧ (∀ containerId1 f1 es containerId2 name2 container2,
       let first := CallLoad containerId1 f1 is3D in
       let second := CallLoad containerId2 (Some name2) is3D in
       let w1 := run (first :: es) w in
       let r2 := loadGeoGebra containerId2 (Some name2) is3D w1 in
       let script := next_node (dom w1)
                     + length (fragment container2 (Text.loadingHtml name2)
                                 (dom w1)) in
       clean (scriptId is3D) (first :: es ++ [second]) w = true →
       getElementById containerId2 (dom w1) = Some container2 →
       endsWith name2 ".ggb" = true →
       with_id (scriptId is3D) (dom r2.1) = [script]
       ∧ scripts_with_id (scriptId is3D) (dom r2.1) = [script]
       ∧ nodes (dom r2.1) !! script
         = Some (mkElement TagScript (scriptId is3D) (scriptSrc is3D) "")
       ∧ script ∈ head (dom r2.1)
       ∧ (script ∉ tree (dom w1))
       ∧ (∀ x, x ∈ with_id (scriptId is3D) (dom w1) → x ∉ tree (dom r2.1))).
Proof.
  intros Hw Hone. split.
  - intros es Hclean.
    assert (length (with_id (scriptId is3D) (dom (run es w))) ≤ 1)%nat
      by (by apply run_unique).
    split; [done|]. etrans; [apply scripts_with_id_le|done].
  - intros containerId1 f1 es containerId2 name2 container first second w1 r2
      script Hclean Hmount Hext.
    change (first :: es ++ [second]) with ((first :: es) ++ [second]) in Hclean.
    rewrite clean_app in Hclean. apply andb_true_iff in Hclean as [Hclean Hlast].
    fold w1 in Hlast. simpl in Hlast. rewrite andb_true_r in Hlast.
    assert (consistent w1) as Hw1 by (by apply run_consistent).
    assert (length (with_id (scriptId is3D) (dom w1)) ≤ 1)%nat as Hone1
      by (by apply run_unique).
    assert (builds_id (dom w1) (scriptId is3D) container (Text.loadingHtml name2)
            = false) as Hno.
    { eapply (tidy_load containerId2 (Some name2)); try done.
      by apply endsWith_ggb_valid. }
    destruct (load_valid containerId2 name2 is3D w1 container Hmount Hext)
      as (_ & Hdom & _).
    fold r2 in Hdom. rewrite Hdom.
    destruct (replaced_script container name2 is3D (dom w1)) as [Hnode Hhead].
    fold script in Hnode, Hhead.
    assert (with_id (scriptId is3D) (replaced container name2 is3D (dom w1))
            = [script]) as Hwith
      by (by apply replaced_with_id; [apply Hw1| |]).
    assert (script ∉ tree (dom w1)) as Hfresh.
    { intros Hin. apply (cons_dom _ Hw1) in Hin. unfold script in Hin. lia. }
    split; [done|]. split; [|split; [done|split; [done|split; [done|]]]].
    + unfold scripts_with_id. rewrite Hwith. simpl.
      unfold is_script. by rewrite Hnode.
    + intros x Hx Hin.
      assert (x ∈ with_id (scriptId is3D) (replaced container name2 is3D (dom w1)))
        as Hx'.
      { apply with_id_elem. split; [done|].
        apply with_id_elem in Hx as [Hx Hid].
        rewrite replaced_has_id_old; [done|]. by apply (cons_dom _ Hw1). }
      rewrite Hwith in Hx'. apply list_elem_of_singleton in Hx'.
      apply with_id_elem in Hx as [Hx _]. congruence.
Qed.

Lemma C4_single_script_element_witness :
  (∀ es, clean "geogebra-script" es demoPage = true →
         (length (with_id "geogebra-script" (dom (run es demoPage))) ≤ 1)%nat
         ∧ (length (scripts_with_id "geogebra-script" (dom (run es demoPage))) ≤ 1)%nat)
  ∧ with_id "geogebra-script"
      (dom (loadGeoGebra "box" (Some "integral.ggb") false demoLoading).1) = [2]
  ∧ (∀ x, x ∈ with_id "geogebra-script" (dom demoLoading) →
          x ∉ tree (dom (loadGeoGebra "box" (Some "integral.ggb") false demoLoading).1)).
Proof.
  destruct (C4_single_script_element demoPage false) as [Hatmost Htwice].
  - apply page_consistent.
  - vm_compute. lia.
  - split; [exact Hatmost|].
    destruct (Htwice "box" (Some "derivative.ggb") [] "box" "integral.ggb" 0)
      as (Hone & _ & _ & _ & _ & Hgone).
    + vm_compute. reflexivity.
    + vm_compute. reflexivity.
    + vm_compute. reflexivity.
    + split; [exact Hone|exact Hgone].
Defined.

(** C4 as stated fails: on a page where two script elements carry the
    script id, two calls with the same key, both passing validation,
    leave two script elements with that id, since each call removes only
    the first element that [getElementById] finds. *)
Lemma C4_twin_scripts_remain :
  let r1 := loadGeoGebra "box" (Some "derivative.ggb") false twinPage in
  let r2 := loadGeoGebra "box" (Some "integral.ggb") false r1.1 in
  promise r1.2 r1.1 = Pending
  ∧ promise r2.2 r2.1 = Pending
  ∧ scripts_with_id "geogebra-script" (dom r2.1) = [4; 2]
  ∧ length (scripts_with_id "geogebra-script" (dom r2.1)) ≠ 1.
Proof. vm_compute. repeat split; try reflexivity. lia. Qed.

(** The first script element is gone after the second call. *)
Example second_call_replaces_script :
  head (dom demoLoading) = [1]
  ∧ head (dom (loadGeoGebra "box" (Some "integral.ggb") false demoLoading).1) = [2].
Proof. split; vm_compute; reflexivity. Qed.

(** On a page that already has two elements with the script id, only the
    first one is removed. *)
Example duplicate_ids_survive :
  scripts_with_id "geogebra-script"
    (dom (loadGeoGebra "box" (Some "derivative.ggb") false twinPage).1) = [3; 2].
Proof. vm_compute. reflexivity. Qed.

(** The file name goes into the loading notice as it is.  A name that
    passes the check and holds the markup of a script element with the
    script id makes the browser build that element inside the mount
    point: after two calls with that name two script elements carry the
    id, the one the second call appended to the head and the one inside
    the mount point.  Such a run is not [clean]. *)
Example markup_in_name_adds_script :
  let r1 := loadGeoGebra "box" (Some markupName) false demoPage in
  let r2 := loadGeoGebra "box" (Some markupName) false r1.1 in
  endsWith markupName ".ggb" = true
  ∧ length (with_id "geogebra-script" (dom demoPage)) = 0
  ∧ promise r2.2 r2.1 = Pending
  ∧ scripts_with_id "geogebra-script" (dom r2.1) = [4; 3]
  ∧ head (dom r2.1) = [4] ∧ body (dom r2.1) = [0; 3]
  ∧ clean "geogebra-script" [CallLoad "box" (Some markupName) false] demoPage
    = false.
Proof. vm_compute. repeat split; reflexivity. Qed.

(** ** What the file-name check accepts *)

Section Suffix.
Implicit Types (s p suffix : string).

Lemma substring_whole s : String.substring 0 (String.length s) s = s.
Proof. induction s as [|a s IH]; simpl; [done|]. by rewrite IH. Qed.

Lemma substring_after p suffix :
  String.substring (String.length p) (String.length suffix) (p +:+ suffix) = suffix.
Proof. induction p as [|a p IH]; simpl; [apply substring_whole|done]. Qed.

Lemma substring_split s (n : nat) :
  (n ≤ String.length s)%nat →
  s = String.substring 0 n s +:+ String.substring n (String.length s - n) s.
Proof.
  revert n. induction s as [|a s IH]; intros n Hn; simpl in *.
  - by destruct n.
  - destruct n as [|n]; simpl.
    + by rewrite substring_whole.
    + transitivity (String a (String.substring 0 n s
                               +:+ String.substring n (String.length s - n) s));
        [|done].
      f_equal. apply IH. lia.
Qed.

Lemma endsWith_spec s suffix :
  endsWith s suffix = true ↔ ∃ p, s = p +:+ suffix.
Proof.
  unfold endsWith. split.
  - intros [Hle Heq]%andb_true_iff.
    apply Nat.leb_le in Hle. apply String.eqb_eq in Heq.
    exists (String.substring 0 (String.length s - String.length suffix) s).
    pose proof (substring_split s (String.length s - String.length suffix)) as Hs.
    replace (String.length s - (String.length s - String.length suffix))
      with (String.length suffix) in Hs by lia.
    rewrite Heq in Hs. apply Hs. lia.
  - intros [p ->]. rewrite length_append. apply andb_true_iff. split.
    + apply Nat.leb_le. lia.
    + apply String.eqb_eq.
      replace (String.length p + String.length suffix - String.length suffix)
        with (String.length p) by lia.
      apply substring_after.
Qed.

End Suffix.

(** X1: the file-name check accepts exactly the names made of any stem,
    the empty one included, followed by [.ggb] in lower case; every other
    argument (omitted, empty, another extension or another letter case)
    is refused. *)
Theorem X1_accepted_file_names ggbFileName :
  invalidName ggbFileName = false
  ↔ ∃ stem, ggbFileName = Some (stem +:+ ".ggb").
Proof.
  split.
  - destruct ggbFileName as [name|]; [|done]. unfold invalidName.
    intros [_ Hext]%orb_false_iff. apply negb_false_iff in Hext.
    apply endsWith_spec in Hext as [stem ->]. eauto.
  - intros [stem ->]. apply endsWith_ggb_valid, endsWith_spec. eauto.
Qed.

Example bare_extension_is_accepted : invalidName (Some ".ggb") = false.
Proof. reflexivity. Qed.

Example upper_case_extension_is_refused : invalidName (Some "curve.GGB") = true.
Proof. reflexivity. Qed.

(** ** What a call does to the page *)

Section PageEffects.
Implicit Types (d : Dom) (w : World) (id : string).

Lemma replaced_innerHTML container name is3D d :
  container ∈ tree d → (∀ x, x ∈ tree d → x < next_node d) →
  is_Some (nodes d !! container) →
  innerHTML_of container (replaced container name is3D d)
  = Some (Text.loadingHtml name).
Proof.
  intros Hin Hd Hnode. apply Hd in Hin.
  rewrite <- (innerHTML_of_setInnerHTML container (Text.loadingHtml name) d)
    by done.
  unfold innerHTML_of, replaced.
  destruct (getElementById _ _); simpl; by rewrite lookup_insert_ne by lia.
Qed.

(** When the mount point is itself the first element with the script id,
    the teardown takes it away together with the notice just written into
    it, and no element with the script id is left. *)
Lemma teardown_of_mount id container html d :
  (∀ x, x ∈ tree d → x < next_node d) →
  (length (with_id id d) ≤ 1)%nat →
  getElementById id d = Some container →
  let d1 := setInnerHTML container html d in
  getElementById id d1 = Some container
  ∧ tree (remove container d1) = tree (remove container d)
  ∧ with_id id (remove container d1) = [].
Proof.
  intros Hd Hone Hmount d1.
  pose proof Hmount as (Hin & _)%getElementById_Some.
  pose proof (Hd _ Hin) as Hlt.
  assert (tree (remove container d1) = tree (remove container d)) as Htree
    by (by apply tree_remove_setInnerHTML).
  split; [by apply getElementById_setInnerHTML_self|]. split; [done|].
  pose proof (with_id_teardown id container d Hone Hmount) as Hclear.
  unfold with_id in *. rewrite Htree.
  rewrite <- Hclear. apply List.filter_ext_in.
  intros x [Hx _]%list_elem_of_In%tree_remove_elem.
  rewrite !has_id_remove. apply has_id_setInnerHTML_old. auto.
Qed.

End PageEffects.

(** X2: a call that passes both validations returns a pending promise:
    neither [resolve] nor [reject] has been invoked, the call owns no
    timer and no timer was started or stopped, [window] is untouched, the
    script element is waiting for its load or error event, and the mount
    point shows the loading notice with the file name. *)
Theorem X2_valid_call_is_pending containerId name is3D w container :
  consistent w →
  getElementById containerId (dom w) = Some container →
  endsWith name ".ggb" = true →
  let r := loadGeoGebra containerId (Some name) is3D w in
  promise r.2 r.1 = Pending
  ∧ settlements r.2 r.1 = 0
  ∧ owned r.2 (timers r.1) = ∅
  ∧ timers r.1 = timers w
  ∧ window r.1 = window w
  ∧ is_Some (fetching r.2 r.1)
  ∧ innerHTML_of container (dom r.1) = Some (Text.loadingHtml name).
Proof.
  intros Hw Hmount Hext r.
  destruct (load_valid containerId name is3D w container Hmount Hext)
    as (Hc & Hdom & [script Hcalls] & Htimers & _ & Hwindow & _).
  fold r in Hc, Hdom, Hcalls, Htimers, Hwindow.
  assert (calls r.1 !! r.2 = Some (mkCall (Some (mkClosure container containerId
            name (mkParamsFor (location w) name is3D) script)) false [])) as Hcall.
  { by rewrite Hcalls, Hc, list_lookup_middle. }
  assert (fetching r.2 r.1 = Some (mkClosure container containerId
            name (mkParamsFor (location w) name is3D) script)) as Hf.
  { unfold fetching. by rewrite Hcall. }
  pose proof (load_consistent containerId (Some name) is3D w Hw) as Hr.
  fold r in Hr.
  destruct (fetching_phase _ _ _ Hr Hf) as (? & _ & _ & _ & _ & Hnone).
  unfold promise, settlements. rewrite Hcall, Hf, Hdom. simpl.
  repeat split; try done.
  apply getElementById_Some in Hmount as (Hin & e & He & _).
  apply replaced_innerHTML; [done|apply Hw|eauto].
Qed.

Lemma X2_valid_call_is_pending_witness :
  let r := loadGeoGebra "box" (Some "derivative.ggb") false demoPage in
  promise r.2 r.1 = Pending
  ∧ settlements r.2 r.1 = 0
  ∧ owned r.2 (timers r.1) = ∅
  ∧ timers r.1 = timers demoPage
  ∧ window r.1 = window demoPage
  ∧ is_Some (fetching r.2 r.1)
  ∧ innerHTML_of 0 (dom r.1) = Some (Text.loadingHtml "derivative.ggb").
Proof.
  apply (X2_valid_call_is_pending "box" "derivative.ggb" false demoPage 0).
  - apply page_consistent.
  - vm_compute. reflexivity.
  - vm_compute. reflexivity.
Defined.

(** X5: when the mount point's own id is the script id of the key, a
    valid call detaches the mount point: the teardown of the previous
    script element finds the mount point and removes it, and with it the
    elements that the browser has just built from the loading notice,
    whatever they are.  The notice went into the detached node, and on a
    page with unique ids [getElementById(containerId)] now finds the new
    script element, which is the node created after the elements of the
    notice. *)
Theorem X5_mount_with_script_id_is_detached name is3D w container :
  consistent w →
  (length (with_id (scriptId is3D) (dom w)) ≤ 1)%nat →
  getElementById (scriptId is3D) (dom w) = Some container →
  endsWith name ".ggb" = true →
  let r := loadGeoGebra (scriptId is3D) (Some name) is3D w in
  let script := next_node (dom w)
                + length (fragment container (Text.loadingHtml name) (dom w)) in
  (container ∉ tree (dom r.1))
  ∧ innerHTML_of container (dom r.1) = Some (Text.loadingHtml name)
  ∧ getElementById (scriptId is3D) (dom r.1) = Some script
  ∧ nodes (dom r.1) !! script
    = Some (mkElement TagScript (scriptId is3D) (scriptSrc is3D) "")
  ∧ with_id (scriptId is3D) (dom r.1) = [script].
Proof.
  intros Hw Hone Hmount Hext r script.
  destruct (load_valid (scriptId is3D) name is3D w container Hmount Hext)
    as (_ & Hdom & _).
  fold r in Hdom. rewrite Hdom.
  pose proof Hmount as (Hin & e & He & _)%getElementById_Some.
  pose proof (cons_dom _ Hw _ Hin) as Hlt.
  destruct (teardown_of_mount (scriptId is3D) container (Text.loadingHtml name)
              (dom w) (cons_dom _ Hw) Hone Hmount) as (Hfound & Htree & Hclear).
  assert (with_id (scriptId is3D) (replaced container name is3D (dom w))
          = [script]) as Hwith.
  { unfold replaced. rewrite Hfound.
    set (d2 := remove container
                 (setInnerHTML container (Text.loadingHtml name) (dom w))) in *.
    assert (∀ x, x ∈ tree d2 → x < next_node d2) as Hd2.
    { intros x Hx. rewrite Htree in Hx. apply tree_remove_elem in Hx as [Hx _].
      apply (cons_dom _ Hw) in Hx. simpl. lia. }
    rewrite with_id_append by done.
    apply with_id_nil_split in Hclear as [-> ->]. simpl.
    by rewrite scriptId_not_empty, bool_decide_eq_true_2 by done. }
  split; [|split; [|split; [|split]]].
  - unfold replaced. rewrite Hfound. unfold tree at 1. simpl.
    rewrite <- app_assoc, elem_of_app.
    intros [Hx|Hx].
    + apply graft_elem in Hx as [[Hx _]|[_ ?]]; [|done].
      by apply elem_of_nil in Hx.
    + apply elem_of_cons in Hx as [E|Hx]; [lia|].
      apply graft_elem in Hx as [[Hx _]|[_ ?]]; [|done].
      by apply elem_of_nil in Hx.
  - apply replaced_innerHTML; [done|apply Hw|eauto].
  - by rewrite getElementById_with_id, Hwith.
  - apply replaced_script.
  - done.
Qed.

Lemma X5_mount_with_script_id_is_detached_witness :
  let w := page demoLocation [mkElement TagDiv "geogebra-script" "" "old"] in
  let r := loadGeoGebra "geogebra-script" (Some markupName) false w in
  (0 ∉ tree (dom r.1))
  ∧ innerHTML_of 0 (dom r.1) = Some (Text.loadingHtml markupName)
  ∧ getElementById "geogebra-script" (dom r.1) = Some 2
  ∧ nodes (dom r.1) !! 2
    = Some (mkElement TagScript "geogebra-script" (scriptSrc false) "")
  ∧ with_id "geogebra-script" (dom r.1) = [2].
Proof.
  apply (X5_mount_with_script_id_is_detached markupName false
           (page demoLocation [mkElement TagDiv "geogebra-script" "" "old"]) 0).
  - apply page_consistent.
  - vm_compute. lia.
  - vm_compute. reflexivity.
  - vm_compute. reflexivity.
Defined.

(** ** What the handlers leave behind *)

Lemma resolve_settles h c cl v w :
  consistent w →
  timers w !! h = Some (OnLoaded c) →
  closure_of c w = Some cl →
  window w !! (cl_containerId cl +:+ "_applet") = Some v →
  truthy (Some v) = true →
  in_phase c (step (Tick h) w) (Settled (Resolved v))
  ∧ dom (step (Tick h) w) = dom w
  ∧ timers (step (Tick h) w) = delete h (timers w)
  ∧ console (step (Tick h) w)
    = console w ++ [Text.appletLoaded (cl_ggbFileName cl)].
Proof.
  intros Hw Ht Hcl Hinst Htruthy.
  destruct (onLoaded_phase _ _ _ Hw Ht) as (k & Hk & _ & Hfired & Hs & Ho).
  rewrite (tick_instance_present h c cl v w) by done.
  split; [|done].
  eexists. split.
  { simpl. by rewrite list_lookup_alter_eq, Hk. }
  simpl. rewrite Hs. repeat split; try done; [by right|].
  by rewrite owned_delete, Ho, delete_singleton_eq.
Qed.

(** X6: when the script fails to load, no polling is started: the error
    handler starts no timer, and after any further events the call owns
    no timer and its promise is still rejected with the event that
    [onerror] received. *)
Theorem X6_load_failure_starts_no_polling w c cl error es :
  consistent w →
  fetching c w = Some cl →
  let w' := step (ScriptError c error) w in
  timers w' = timers w
  ∧ promise c w' = Failed (EventObj error)
  ∧ owned c (timers (run es w')) = ∅
  ∧ promise c (run es w') = Failed (EventObj error)
  ∧ settlements c (run es w') = 1.
Proof.
  intros Hw Hf w'.
  pose proof (onerror_settles c cl error w Hw Hf) as Hp. fold w' in Hp.
  assert (consistent w') as Hw' by by apply step_consistent.
  pose proof (settled_forever es w' c _ Hw' Hp) as Hes.
  destruct (promise_in_phase _ _ _ Hp) as [Hpromise _].
  destruct (promise_in_phase _ _ _ Hes) as [Hpromise' Hcount'].
  destruct Hes as (k & _ & _ & _ & Howned).
  repeat split; try done.
  unfold w'. simpl. by rewrite Hf.
Qed.

Lemma X6_load_failure_starts_no_polling_witness :
  timers (step (ScriptError 0 "error") demoLoading) = timers demoLoading
  ∧ promise 0 (step (ScriptError 0 "error") demoLoading) = Failed (EventObj "error")
  ∧ owned 0 (timers (run [ScriptLoad 0; Tick 0]
                       (step (ScriptError 0 "error") demoLoading))) = ∅
  ∧ promise 0 (run [ScriptLoad 0; Tick 0]
                 (step (ScriptError 0 "error") demoLoading))
    = Failed (EventObj "error")
  ∧ settlements 0 (run [ScriptLoad 0; Tick 0]
                     (step (ScriptError 0 "error") demoLoading)) = 1.
Proof.
  apply (X6_load_failure_starts_no_polling demoLoading 0
           (mkClosure 0 "box" "derivative.ggb"
              (mkParamsFor demoLocation "derivative.ggb" false) 1)
           "error" [ScriptLoad 0; Tick 0]).
  - apply load_consistent, page_consistent.
  - vm_compute. reflexivity.
Defined.

(** X7: the tick that finds the instance stops the polling: it clears
    the second timer and starts none, logs the success message, leaves
    the page as it is and fulfils the promise with the value found; after
    any further events the call owns no timer and the promise still holds
    that value. *)
Theorem X7_resolution_stops_polling w h c cl v es :
  consistent w →
  timers w !! h = Some (OnLoaded c) →
  closure_of c w = Some cl →
  window w !! (cl_containerId cl +:+ "_applet") = Some v →
  truthy (Some v) = true →
  let w' := step (Tick h) w in
  timers w' = delete h (timers w)
  ∧ dom w' = dom w
  ∧ console w' = console w ++ [Text.appletLoaded (cl_ggbFileName cl)]
  ∧ promise c w' = Fulfilled v
  ∧ owned c (timers (run es w')) = ∅
  ∧ promise c (run es w') = Fulfilled v
  ∧ settlements c (run es w') = 1.
Proof.
  intros Hw Ht Hcl Hinst Htruthy w'.
  destruct (resolve_settles h c cl v w Hw Ht Hcl Hinst Htruthy)
    as (Hp & Hdom & Htimers & Hconsole).
  fold w' in Hp, Hdom, Htimers, Hconsole.
  assert (consistent w') as Hw' by by apply step_consistent.
  pose proof (settled_forever es w' c _ Hw' Hp) as Hes.
  destruct (promise_in_phase _ _ _ Hp) as [Hpromise _].
  destruct (promise_in_phase _ _ _ Hes) as [Hpromise' Hcount'].
  destruct Hes as (k & _ & _ & _ & Howned).
  repeat split; done.
Qed.

Lemma X7_resolution_stops_polling_witness :
  timers (step (Tick 1) demoReady) = delete 1 (timers demoReady)
  ∧ dom (step (Tick 1) demoReady) = dom demoReady
  ∧ console (step (Tick 1) demoReady)
    = console demoReady ++ [Text.appletLoaded "derivative.ggb"]
  ∧ promise 0 (step (Tick 1) demoReady) = Fulfilled (VObject 7)
  ∧ owned 0 (timers (run [Tick 1; Tick 0] (step (Tick 1) demoReady))) = ∅
  ∧ promise 0 (run [Tick 1; Tick 0] (step (Tick 1) demoReady))
    = Fulfilled (VObject 7)
  ∧ settlements 0 (run [Tick 1; Tick 0] (step (Tick 1) demoReady)) = 1.
Proof.
  apply (X7_resolution_stops_polling demoReady 1 0
           (mkClosure 0 "box" "derivative.ggb"
              (mkParamsFor demoLocation "derivative.ggb" false) 1)
           (VObject 7) [Tick 1; Tick 0]).
  - apply run_consistent, load_consistent, page_consistent.
  - vm_compute. reflexivity.
  - vm_compute. reflexivity.
  - vm_compute. reflexivity.
  - reflexivity.
Defined.

(** ** Calls do not interfere *)

(** X8: a new call of the loader, whatever its arguments, does nothing
    to the calls made before: their promises are neither resolved nor
    rejected, no timer is stopped, and the handlers of a script element
    that has not yet fired stay armed, also when the new call has just
    removed that element from the page. *)
Theorem X8_new_call_leaves_earlier_calls containerId f is3D w c :
  c < length (calls w) →
  let r := loadGeoGebra containerId f is3D w in
  calls r.1 !! c = calls w !! c
  ∧ promise c r.1 = promise c w
  ∧ fetching c r.1 = fetching c w
  ∧ timers r.1 = timers w
  ∧ window r.1 = window w.
Proof.
  intros Hc r.
  destruct (load_calls containerId f is3D w)
    as (k & Hcalls & _ & Htimers & _ & Hwindow & _).
  fold r in Hcalls, Htimers, Hwindow.
  assert (calls r.1 !! c = calls w !! c) as E.
  { rewrite Hcalls. by apply lookup_app_l. }
  unfold promise, fetching. by rewrite E.
Qed.

Lemma X8_new_call_leaves_earlier_calls_witness :
  let r := loadGeoGebra "box" (Some "integral.ggb") false demoLoading in
  calls r.1 !! 0 = calls demoLoading !! 0
  ∧ promise 0 r.1 = promise 0 demoLoading
  ∧ fetching 0 r.1 = fetching 0 demoLoading
  ∧ timers r.1 = timers demoLoading
  ∧ window r.1 = window demoLoading.
Proof.
  apply (X8_new_call_leaves_earlier_calls "box" (Some "integral.ggb") false
           demoLoading 0).
  vm_compute. lia.
Defined.

(** With a script element that still dispatches its load event after it
    has been detached, the superseded call is resolved all the same. *)
Example superseded_call_still_resolves :
  let w := run [CallLoad "box" (Some "integral.ggb") false;
                ScriptLoad 0; SetWindow "GGBApplet" mockLibrary; Tick 0;
                SetWindow "box_applet" (VObject 7); Tick 1] demoLoading in
  scripts_with_id "geogebra-script" (dom w) = [2]
  ∧ promise 0 w = Fulfilled (VObject 7)
  ∧ promise 1 w = Pending.
Proof. vm_compute. done. Qed.

Lemma step_other_call e w c :
  consistent w →
  (∀ containerId f is3D, e ≠ CallLoad containerId f is3D) →
  subject e w ≠ Some c →
  calls (step e w) !! c = calls w !! c
  ∧ owned c (timers (step e w)) = owned c (timers w).
Proof.
  intros Hw Hne Hsubject.
  pose proof (fresh_timer w Hw) as Hfresh.
  destruct e as [c'|c' err|h|key v|cid f is3D]; simpl in *.
  - assert (c' ≠ c) as Hc by congruence.
    destruct (fetching c' w); [|done]. simpl.
    rewrite list_lookup_alter_ne by done.
    rewrite owned_insert by done. by rewrite decide_False.
  - assert (c' ≠ c) as Hc by congruence.
    destruct (fetching c' w); [|done]. simpl.
    by rewrite !list_lookup_alter_ne.
  - destruct (timers w !! h) as [[c'|c']|] eqn:Ht; [| |done]; simpl in *;
      (assert (c' ≠ c) as Hc by congruence).
    + destruct (closure_of c' w); [|done]. unfold checkInterval.
      destruct (truthy _); [|done]. simpl.
      destruct (instantiate _ _ _); simpl.
      * rewrite list_lookup_alter_ne by done.
        split; [done|]. by eapply owned_delete_other.
      * split; [done|].
        rewrite owned_insert by (apply lookup_delete_None; by right).
        rewrite decide_False by done. by eapply owned_delete_other.
    + destruct (closure_of c' w); [|done]. unfold onLoaded.
      destruct (window w !! _); [|done].
      destruct (truthy _); [|done]. simpl.
      rewrite list_lookup_alter_ne by done.
      split; [done|]. by eapply owned_delete_other.
  - done.
  - by destruct (Hne cid f is3D).
Qed.

(** X9: the handlers of one call never touch another call: a script
    event or a tick that belongs to a different call, and any write to
    [window], leaves the call's record, its promise and its timers
    exactly as they were.  A write to [window] settles nothing by
    itself; only a later tick of the call can. *)
Theorem X9_handlers_touch_their_own_call_only e w c :
  consistent w →
  (∀ containerId f is3D, e ≠ CallLoad containerId f is3D) →
  subject e w ≠ Some c →
  calls (step e w) !! c = calls w !! c
  ∧ promise c (step e w) = promise c w
  ∧ owned c (timers (step e w)) = owned c (timers w)
  ∧ ∀ p, in_phase c w p → in_phase c (step e w) p.
Proof.
  intros Hw Hne Hsubject.
  destruct (step_other_call e w c Hw Hne Hsubject) as [Hcalls Howned].
  split; [done|]. split; [|split; [done|]].
  - unfold promise. by rewrite Hcalls.
  - intros p. by apply in_phase_frame.
Qed.

Lemma X9_handlers_touch_their_own_call_only_witness :
  let w := (loadGeoGebra "box" (Some "integral.ggb") true demoLoading).1 in
  calls (step (ScriptError 1 "error") w) !! 0 = calls w !! 0
  ∧ promise 0 (step (ScriptError 1 "error") w) = promise 0 w
  ∧ owned 0 (timers (step (ScriptError 1 "error") w)) = owned 0 (timers w)
  ∧ ∀ p, in_phase 0 w p → in_phase 0 (step (ScriptError 1 "error") w) p.
Proof.
  apply (X9_handlers_touch_their_own_call_only (ScriptError 1 "error")
           (loadGeoGebra "box" (Some "integral.ggb") true demoLoading).1 0).
  - apply load_consistent, load_consistent, page_consistent.
  - discriminate.
  - discriminate.
Defined.

(** ** The protocol has no way back *)

Lemma advance_progress p q : advance p q → progress p < progress q.
Proof. destruct 1; simpl; lia. Qed.

Lemma rtc_advance_progress p q :
  rtc advance p q → p = q ∨ progress p < progress q.
Proof.
  induction 1 as [|p q r Hpq _ IH]; [by left|]. right.
  apply advance_progress in Hpq. destruct IH as [<-|?]; lia.
Qed.

(** X10: every call goes through the load protocol in one direction.
    After any sequence of events (further loader calls included) a call
    that was in some state is in a state reached from it by forward
    transitions only (resource awaited, library global awaited, instance
    awaited, settled), it never comes back to a state it has left, and
    it owns at most one timer. *)
Theorem X10_protocol_moves_forward w c p es :
  consistent w →
  in_phase c w p →
  ∃ p', in_phase c (run es w) p'
        ∧ rtc advance p p'
        ∧ (progress p ≤ progress p')%nat
        ∧ (rtc advance p' p → p' = p)
        ∧ (size (owned c (timers (run es w))) ≤ 1)%nat.
Proof.
  intros Hw Hp.
  destruct (run_advance es w c p Hw Hp) as (p' & Hp' & Hrtc).
  exists p'. split; [done|]. split; [done|].
  pose proof (rtc_advance_progress _ _ Hrtc) as Hfwd.
  split; [destruct Hfwd as [->|?]; lia|]. split.
  - intros Hback. apply rtc_advance_progress in Hback.
    destruct Hfwd as [->|?]; [done|]. destruct Hback as [->|?]; [done|lia].
  - destruct Hp' as (k & _ & Hk).
    destruct p' as [|h|h|o]; simpl in Hk; destruct_and!;
      match goal with E : owned _ _ = _ |- _ => rewrite E end;
      rewrite ?map_size_empty, ?map_size_singleton; lia.
Qed.

Lemma X10_protocol_moves_forward_witness :
  ∃ p', in_phase 0 (run [ScriptLoad 0; SetWindow "GGBApplet" mockLibrary; Tick 0]
                      demoLoading) p'
        ∧ rtc advance AwaitingResource p'
        ∧ (progress AwaitingResource ≤ progress p')%nat
        ∧ (rtc advance p' AwaitingResource → p' = AwaitingResource)
        ∧ (size (owned 0 (timers (run [ScriptLoad 0;
                   SetWindow "GGBApplet" mockLibrary; Tick 0] demoLoading))) ≤ 1)%nat.
Proof.
  apply (X10_protocol_moves_forward demoLoading 0 AwaitingResource
           [ScriptLoad 0; SetWindow "GGBApplet" mockLibrary; Tick 0]).
  - apply load_consistent, page_consistent.
  - apply (fetching_phase 0 demoLoading
             (mkClosure 0 "box" "derivative.ggb"
                (mkParamsFor demoLocation "derivative.ggb" false) 1)).
    + apply load_consistent, page_consistent.
    + vm_compute. reflexivity.
Defined.

(** ** Where settlements come from *)

Section Settlements.
Implicit Types (w : World) (c : nat) (k : Call).

Lemma step_settles e w c k :
  calls w !! c = Some k →
  ∃ k', calls (step e w) !! c = Some k'
        ∧ c_closure k' = c_closure k
        ∧ (c_settles k' = c_settles k
           ∨ ∃ o, c_settles k' = c_settles k ++ [o] ∧ settles_by e w c o).
Proof.
  intros Hk.
  assert (∀ w', calls w' = calls w →
    ∃ k', calls w' !! c = Some k' ∧ c_closure k' = c_closure k
          ∧ (c_settles k' = c_settles k
             ∨ ∃ o, c_settles k' = c_settles k ++ [o] ∧ settles_by e w c o))
    as Hsame.
  { intros w' ->. exists k. auto. }
  assert (∀ k', c_closure k' = c_closure k → c_settles k' = c_settles k →
    ∃ k'', Some k' = Some k'' ∧ c_closure k'' = c_closure k
           ∧ (c_settles k'' = c_settles k
              ∨ ∃ o, c_settles k'' = c_settles k ++ [o] ∧ settles_by e w c o))
    as Hkeep.
  { intros k' ? ?. exists k'. auto. }
  destruct e as [c'|c' err|h|key v|cid f is3D]; simpl.
  - destruct (fetching c' w); [|by apply Hsame]. simpl.
    rewrite list_lookup_alter. destruct (decide (c' = c)) as [->|Hc];
      rewrite ?decide_True, ?decide_False by done; rewrite ?Hk; simpl; by apply Hkeep.
  - destruct (fetching c' w); [|by apply Hsame]. simpl.
    rewrite !list_lookup_alter. destruct (decide (c' = c)) as [->|Hc];
      rewrite ?decide_True, ?decide_False by done; rewrite ?Hk; simpl; [|by apply Hkeep].
    eexists. split; [reflexivity|]. split; [done|]. right.
    eexists. split; [done|]. by constructor.
  - destruct (timers w !! h) as [[c'|c']|] eqn:Ht; [| |by apply Hsame].
    + destruct (closure_of c' w) as [cl|] eqn:Hcl; [|by apply Hsame].
      unfold checkInterval.
      destruct (truthy (window w !! "GGBApplet")) eqn:Hlib; [|by apply Hsame].
      simpl. destruct (instantiate _ _ _) eqn:Hthrow; simpl; [|by apply Hsame].
      rewrite list_lookup_alter. destruct (decide (c' = c)) as [->|Hc];
      rewrite ?decide_True, ?decide_False by done; rewrite ?Hk; simpl; [|by apply Hkeep].
      eexists. split; [reflexivity|]. split; [done|]. right.
      eexists. split; [done|]. by eapply by_initialization.
    + destruct (closure_of c' w) as [cl|] eqn:Hcl; [|by apply Hsame].
      unfold onLoaded.
      destruct (window w !! _) as [v|] eqn:Hinst; [|by apply Hsame].
      destruct (truthy (Some v)) eqn:Htruthy; [|by apply Hsame]. simpl.
      rewrite list_lookup_alter. destruct (decide (c' = c)) as [->|Hc];
      rewrite ?decide_True, ?decide_False by done; rewrite ?Hk; simpl; [|by apply Hkeep].
      eexists. split; [reflexivity|]. split; [done|]. right.
      eexists. split; [done|]. by eapply by_instance.
  - by apply Hsame.
  - destruct (load_calls cid f is3D w) as (k0 & -> & _).
    exists k. rewrite (lookup_app_l_Some _ _ _ _ Hk). auto.
Qed.

Lemma promise_state_app (l l' : list Outcome) :
  l ≠ [] → promise_state (l ++ l') = promise_state l.
Proof. by destruct l. Qed.

(** A step changes a promise only from pending, and only through a
    handler of its call. *)
Lemma step_promise e w c :
  c < length (calls w) →
  c < length (calls (step e w))
  ∧ (promise c (step e w) = promise c w
     ∨ promise c w = Pending
       ∧ ∃ o, settles_by e w c o ∧ promise c (step e w) = promise_state [o]).
Proof.
  intros Hc. destruct (lookup_lt_is_Some_2 _ _ Hc) as [k Hk].
  destruct (step_settles e w c k Hk) as (k' & Hk' & _ & Hs).
  split; [by eapply lookup_lt_Some|].
  unfold promise. rewrite Hk, Hk'.
  destruct Hs as [->|(o & -> & Ho)]; [by left|].
  destruct (c_settles k) as [|o' l] eqn:E; [right; eauto|by left].
Qed.

Lemma run_promise es w c s :
  c < length (calls w) →
  promise c (run es w) = s →
  promise c w = s
  ∨ ∃ es1 e es2 o, es = es1 ++ e :: es2
      ∧ promise c (run es1 w) = Pending
      ∧ settles_by e (run es1 w) c o
      ∧ s = promise_state [o].
Proof.
  intros Hc. revert s.
  assert (∀ es, c < length (calls (run es w))) as Hlen.
  { intros es'. induction es' as [|e es' IH] using rev_ind; [done|].
    rewrite run_snoc. by apply step_promise. }
  induction es as [|e es IH] using rev_ind; intros s; [by left|].
  rewrite run_snoc.
  destruct (step_promise e (run es w) c (Hlen es)) as [_ [->|(Hpending & o & Ho & ->)]].
  - intros Hs. destruct (IH s Hs) as [?|(es1 & e' & es2 & o & -> & ? & ? & ?)];
      [by left|].
    right. exists es1, e', (es2 ++ [e]), o. by rewrite <- app_assoc.
  - intros <-. right. by exists es, e, [], o.
Qed.

Lemma step_closure_eq e w c :
  c < length (calls w) → closure_of c (step e w) = closure_of c w.
Proof.
  intros Hc. destruct (lookup_lt_is_Some_2 _ _ Hc) as [k Hk].
  destruct (step_settles e w c k Hk) as (k' & Hk' & Hcl & _).
  unfold closure_of. by rewrite Hk, Hk'.
Qed.

Lemma run_closure_eq es w c :
  c < length (calls w) → closure_of c (run es w) = closure_of c w.
Proof.
  revert w. induction es as [|e es IH]; intros w Hc; [done|].
  rewrite run_cons, IH; [by apply step_closure_eq|by apply step_promise].
Qed.

(** What a call keeps in its closure. *)
Lemma load_new_call containerId f is3D w :
  let r := loadGeoGebra containerId f is3D w in
  r.2 < length (calls r.1)
  ∧ (promise r.2 r.1 = Failed (ErrorObj (Text.mountNotFound containerId))
     ∧ getElementById containerId (dom w) = None
     ∧ closure_of r.2 r.1 = None
     ∨ promise r.2 r.1 = Failed (ErrorObj Text.invalidResourceName)
       ∧ (is_Some (getElementById containerId (dom w)) ∧ invalidName f = true)
       ∧ closure_of r.2 r.1 = None
     ∨ promise r.2 r.1 = Pending
       ∧ ∃ container name script,
           getElementById containerId (dom w) = Some container
           ∧ f = Some name ∧ invalidName f = false
           ∧ closure_of r.2 r.1
             = Some (mkClosure container containerId name
                       (mkParamsFor (location w) name is3D) script)).
Proof.
  simpl. unfold loadGeoGebra, promise, closure_of.
  destruct (getElementById containerId (dom w)) as [container|] eqn:Hmount.
  2:{ simpl. rewrite length_app, list_lookup_middle by done. simpl.
      split; [lia|]. by left. }
  destruct (invalidName f) eqn:Hname.
  { simpl. rewrite length_app, list_lookup_middle by done. simpl.
    split; [lia|]. right. left. eauto 6. }
  destruct f as [name|]; [|done]. simpl.
  destruct (getElementById (scriptId is3D) _); simpl;
    rewrite length_app, list_lookup_middle by done; simpl;
    (split; [lia|]); right; right; (split; [done|]); eauto 10.
Qed.

End Settlements.

(** X11: the promise of a call is only ever fulfilled by a tick of that
    call's own second timer, with the value that
    [window[containerId + '_applet']] held at that tick, which was
    truthy; until that tick the promise was pending. *)
Theorem X11_fulfilled_only_by_own_tick containerId f is3D w es v :
  let r := loadGeoGebra containerId f is3D w in
  promise r.2 (run es r.1) = Fulfilled v →
  ∃ es1 h es2,
    es = es1 ++ Tick h :: es2
    ∧ promise r.2 (run es1 r.1) = Pending
    ∧ timers (run es1 r.1) !! h = Some (OnLoaded r.2)
    ∧ window (run es1 r.1) !! (containerId +:+ "_applet") = Some v
    ∧ truthy (Some v) = true.
Proof.
  intros r Hv.
  destruct (load_new_call containerId f is3D w) as [Hlt Hnew]. fold r in Hlt, Hnew.
  destruct (run_promise es r.1 r.2 _ Hlt Hv)
    as [Hnow|(es1 & e & es2 & o & -> & Hpending & Ho & Hstate)].
  { destruct Hnew as [[E _]|[[E _]|[E _]]]; congruence. }
  destruct Ho as [h cl v' -> Ht Hcl Hinst Htruthy|?|?]; try done.
  injection Hstate as ->.
  exists es1, h, es2. repeat split; try done.
  rewrite run_closure_eq in Hcl by done.
  destruct Hnew as [[E _]|[[E _]|[_ (container & name & script & _ & _ & _ & Hcl0)]]].
  - destruct (run_promise es1 r.1 r.2 _ Hlt Hpending)
      as [?|(? & ? & ? & o & _ & _ & _ & Ho)]; [congruence|by destruct o].
  - destruct (run_promise es1 r.1 r.2 _ Hlt Hpending)
      as [?|(? & ? & ? & o & _ & _ & _ & Ho)]; [congruence|by destruct o].
  - rewrite Hcl0 in Hcl. injection Hcl as <-. done.
Qed.

Lemma X11_fulfilled_only_by_own_tick_witness :
  ∃ es1 h es2,
    [ScriptLoad 0; SetWindow "GGBApplet" mockLibrary; Tick 0;
     SetWindow "box_applet" (VObject 7); Tick 1] = es1 ++ Tick h :: es2
    ∧ promise 0 (run es1 demoLoading) = Pending
    ∧ timers (run es1 demoLoading) !! h = Some (OnLoaded 0)
    ∧ window (run es1 demoLoading) !! "box_applet" = Some (VObject 7)
    ∧ truthy (Some (VObject 7)) = true.
Proof.
  apply (X11_fulfilled_only_by_own_tick "box" (Some "derivative.ggb") false demoPage
           [ScriptLoad 0; SetWindow "GGBApplet" mockLibrary; Tick 0;
            SetWindow "box_applet" (VObject 7); Tick 1] (VObject 7)).
  vm_compute. reflexivity.
Defined.

(** X12: the promise of a call is only ever rejected for one of four
    reasons, each with its cause: the mount-point error when the mount
    point was absent at the call, the file-name error when the mount
    point was there and the name was refused, the event of the script's
    error handler, or the initialization error with the message thrown
    by the construction on a first-timer tick that saw the library
    global. *)
Theorem X12_rejection_reasons containerId f is3D w es reason :
  let r := loadGeoGebra containerId f is3D w in
  promise r.2 (run es r.1) = Failed reason →
  (reason = ErrorObj (Text.mountNotFound containerId)
   ∧ getElementById containerId (dom w) = None)
  ∨ (reason = ErrorObj Text.invalidResourceName
     ∧ is_Some (getElementById containerId (dom w))
     ∧ invalidName f = true)
  ∨ (∃ error es1 es2,
       reason = EventObj error ∧ es = es1 ++ ScriptError r.2 error :: es2)
  ∨ (∃ message h cl es1 es2,
       reason = ErrorObj (Text.initializationFailed message)
       ∧ es = es1 ++ Tick h :: es2
       ∧ timers (run es1 r.1) !! h = Some (CheckInterval r.2)
       ∧ closure_of r.2 (run es1 r.1) = Some cl
       ∧ instantiate (window (run es1 r.1) !! "GGBApplet")
           (cl_params cl) (cl_containerId cl) = Some message).
Proof.
  intros r Hfailed.
  destruct (load_new_call containerId f is3D w) as [Hlt Hnew]. fold r in Hlt, Hnew.
  destruct (run_promise es r.1 r.2 _ Hlt Hfailed)
    as [Hnow|(es1 & e & es2 & o & -> & Hpending & Ho & Hstate)].
  - destruct Hnew as [(E & ? & _)|[(E & ? & _)|[E _]]].
    + left. split; [congruence|done].
    + right. left. split; [congruence|done].
    + congruence.
  - right. right.
    destruct Ho as [?|error ->|h cl message -> Ht Hcl Hlib Hthrow]; try done;
      injection Hstate as ->.
    + left. by exists error, es1, es2.
    + right. by exists message, h, cl, es1, es2.
Qed.

Lemma X12_rejection_reasons_witness :
  (ErrorObj (Text.initializationFailed "boom")
   = ErrorObj (Text.mountNotFound "box")
   ∧ getElementById "box" (dom demoPage) = None)
  ∨ (ErrorObj (Text.initializationFailed "boom") = ErrorObj Text.invalidResourceName
     ∧ is_Some (getElementById "box" (dom demoPage))
     ∧ invalidName (Some "derivative.ggb") = true)
  ∨ (∃ error es1 es2,
       ErrorObj (Text.initializationFailed "boom") = EventObj error
       ∧ [ScriptLoad 0; SetWindow "GGBApplet" brokenLibrary; Tick 0]
         = es1 ++ ScriptError 0 error :: es2)
  ∨ (∃ message h cl es1 es2,
       ErrorObj (Text.initializationFailed "boom")
       = ErrorObj (Text.initializationFailed message)
       ∧ [ScriptLoad 0; SetWindow "GGBApplet" brokenLibrary; Tick 0]
         = es1 ++ Tick h :: es2
       ∧ timers (run es1 demoLoading) !! h = Some (CheckInterval 0)
       ∧ closure_of 0 (run es1 demoLoading) = Some cl
       ∧ instantiate (window (run es1 demoLoading) !! "GGBApplet")
           (cl_params cl) (cl_containerId cl) = Some message).
Proof.
  apply (X12_rejection_reasons "box" (Some "derivative.ggb") false demoPage
           [ScriptLoad 0; SetWindow "GGBApplet" brokenLibrary; Tick 0]
           (ErrorObj (Text.initializationFailed "boom"))).
  vm_compute. reflexivity.
Defined.

(** ** What the library is given *)

Section Constructed.
Implicit Types (w : World).


Lemma step_constructed e w :
  constructed (step e w) = constructed w
  ∨ ∃ c cl, closure_of c w = Some cl
      ∧ constructed (step e w)
        = constructed w ++ [(cl_params cl, cl_containerId cl)].
Proof.
  destruct e as [c'|c' err|h|key v|cid f is3D]; simpl.
  - destruct (fetching c' w); by left.
  - destruct (fetching c' w); by left.
  - destruct (timers w !! h) as [[c'|c']|]; [| |by left].
    + destruct (closure_of c' w) as [cl|] eqn:Hcl; [|by left].
      unfold checkInterval. destruct (truthy _); [|by left]. simpl.
      right. exists c', cl. split; [done|]. by destruct (instantiate _ _ _).
    + destruct (closure_of c' w); [|by left]. unfold onLoaded.
      destruct (window w !! _); [|by left]. destruct (truthy _); by left.
  - by left.
  - left. by destruct (load_calls cid f is3D w) as (? & _ & _ & _ & _ & _ & _ & ? & _).
Qed.


End Constructed.



(** ** Composing the iframe helper *)

Section Embed.
Implicit Types (d : Dom) (w : World) (l fresh : list nat).

Lemma graft_filter_old d c fresh inside l (p : nat → bool) :
  (∀ x, x ∈ l → p x = true) → (∀ x, x ∈ fresh → p x = false) →
  List.filter p (graft d c (c :: fresh) inside l) = graft d c [c] inside l.
Proof.
  intros Hold Hfresh. revert inside.
  induction l as [|y l IH]; intros inside; [done|]. simpl.
  assert (∀ x, x ∈ l → p x = true) as Hold'.
  { intros x Hx. apply Hold. by apply elem_of_cons; right. }
  assert (p y = true) as Hy by (by apply Hold, elem_of_cons; left).
  destruct (Nat.eqb_spec y c) as [->|Hne].
  - simpl. rewrite Hy, List.filter_app, (filter_nil_intro p fresh) by done.
    simpl. f_equal. by apply IH.
  - destruct (inside && below d c y); [by apply IH|].
    simpl. rewrite Hy. f_equal. by apply IH.
Qed.

Lemma fmap_pair {A B C} (f : A → B) (g : A → C) (xs : list A) :
  (fun x => (f x, g x)) <$> xs = zip (f <$> xs) (g <$> xs).
Proof. induction xs as [|x xs IH]; [done|]. by rewrite !fmap_cons, IH. Qed.

(** The depths of the elements built from the markup. *)
Lemma depth_setInnerHTML_fresh h html d :
  depth_of (setInnerHTML h html d)
    <$> seq (next_node d) (length (fragment h html d))
  = (fun r => S (depth_of d h + r)) <$> (fragment h html d).*2.
Proof.
  apply list_eq. intros i. rewrite !list_lookup_fmap.
  destruct (decide (i < length (fragment h html d))) as [Hi|Hi].
  - rewrite lookup_seq_lt by done. simpl.
    unfold depth_of at 1. rewrite depth_setInnerHTML.
    destruct (decide (next_node d ≤ next_node d + i)%nat); [|lia].
    assert (next_node d + i - next_node d = i) as -> by lia.
    rewrite list_lookup_fmap.
    destruct (lookup_lt_is_Some_2 (fragment h html d) i) as [[e r] He]; [done|].
    rewrite He. simpl. by destruct (depth d !! (next_node d + i)).
  - rewrite lookup_seq_ge by lia.
    by rewrite (lookup_ge_None_2 (fragment h html d)) by lia.
Qed.

(** What is shown of the elements built from the markup. *)
Lemma rendered_fresh h html d :
  h < next_node d →
  (fun x => (nodes (setInnerHTML h html d) !! x,
             depth_of (setInnerHTML h html d) x))
    <$> seq (next_node d) (length (fragment h html d))
  = zip (Some <$> (fragment h html d).*1)
        ((fun r => S (depth_of d h + r)) <$> (fragment h html d).*2).
Proof.
  intros Hh.
  rewrite <- (nodes_setInnerHTML_fresh h html d Hh).
  rewrite <- (depth_setInnerHTML_fresh h html d).
  apply (fmap_pair (fun x => nodes (setInnerHTML h html d) !! x)
           (depth_of (setInnerHTML h html d))).
Qed.

(** Writing twice into an attached element: the page shows what the
    second write alone would show, and the same old nodes are attached. *)
Lemma setInnerHTML_twice container html html' d :
  (∀ x, x ∈ tree d → x < next_node d) → container < next_node d →
  let twice := setInnerHTML container html' (setInnerHTML container html d) in
  let once := setInnerHTML container html' d in
  rendered twice = rendered once
  ∧ List.filter (fun x => Nat.ltb x (next_node d)) (tree twice)
    = List.filter (fun x => Nat.ltb x (next_node d)) (tree once)
  ∧ (∀ x, x < next_node d → nodes twice !! x = nodes once !! x).
Proof.
  intros Hd Hc twice once.
  set (d1 := setInnerHTML container html d).
  assert (∀ x, x ∈ head d → x < next_node d) as Hh
    by (intros x Hx; apply Hd, elem_of_app; by left).
  assert (∀ x, x ∈ body d → x < next_node d) as Hb
    by (intros x Hx; apply Hd, elem_of_app; by right).
  assert (container < next_node d1) as Hc1 by (simpl; lia).
  assert (∀ x, x < next_node d → nodes twice !! x = nodes once !! x) as Hnodes.
  { intros x Hx. unfold twice, once.
    rewrite (nodes_setInnerHTML_old container html' d1) by (simpl; lia).
    rewrite (nodes_setInnerHTML_old container html' d) by done.
    unfold d1. rewrite nodes_setInnerHTML_old by done.
    destruct (decide (x = container)); [|done].
    by destruct (nodes d !! x). }
  assert (∀ x, x < next_node d → depth_of twice x = depth_of once x) as Hdepth.
  { intros x Hx. unfold twice, once.
    rewrite (depth_setInnerHTML_old container html' d1) by (simpl; lia).
    rewrite (depth_setInnerHTML_old container html' d) by done.
    unfold d1. by rewrite depth_setInnerHTML_old by done. }
  assert (fragment container html' d1 = fragment container html' d) as Hfrag
    by (by apply fragment_setInnerHTML).
  assert (head twice
          = graft d container
              (container :: seq (next_node d1) (length (fragment container html' d)))
              false (head d)) as Hhead
    by (rewrite <- Hfrag; by apply graft_setInnerHTML).
  assert (body twice
          = graft d container
              (container :: seq (next_node d1) (length (fragment container html' d)))
              false (body d)) as Hbody
    by (rewrite <- Hfrag; by apply graft_setInnerHTML).
  split; [|split; [|done]].
  - unfold rendered, tree. rewrite Hhead, Hbody, !fmap_app.
    assert (∀ l, (∀ x, x ∈ l → x < next_node d) →
      (fun x => (nodes twice !! x, depth_of twice x))
        <$> graft d container
              (container :: seq (next_node d1) (length (fragment container html' d)))
              false l
      = (fun x => (nodes once !! x, depth_of once x))
        <$> graft d container
              (container :: seq (next_node d) (length (fragment container html' d)))
              false l) as Hpart.
    { intros l Hl. apply graft_fmap.
      - intros x Hx. by rewrite Hnodes, Hdepth by auto.
      - rewrite !fmap_cons. f_equal; [by rewrite Hnodes, Hdepth|].
        unfold twice, once.
        pose proof (rendered_fresh container html' d1 Hc1) as R1.
        rewrite Hfrag in R1.
        unfold d1 in *.
        rewrite R1, (rendered_fresh container html' d) by done.
        by rewrite depth_setInnerHTML_old by done. }
    simpl. by rewrite !Hpart.
  - unfold tree. rewrite Hhead, Hbody. simpl. rewrite !List.filter_app.
    rewrite !(graft_filter_old d container); try done.
    all: try (intros x Hx; apply Nat.ltb_lt; auto).
    all: intros x Hx%elem_of_seq; apply Nat.ltb_ge; simpl in *; lia.
Qed.

Lemma embed_consistent containerId materialId width height showBorder w :
  consistent w →
  consistent (embedGeoGebra containerId materialId width height showBorder w).
Proof.
  intros Hw. unfold embedGeoGebra.
  destruct (getElementById containerId (dom w)) as [container|].
  2:{ split; try apply Hw. }
  destruct (negb (truthy_arg materialId)).
  { split; try apply Hw. }
  split; simpl.
  - apply setInnerHTML_bound, Hw.
  - intros c cl Hcl.
    apply (nodes_setInnerHTML_is_Some _ _ (dom w)). by apply (cons_closure _ Hw c).
  - apply Hw.
  - intros c Hc. destruct (cons_phase _ Hw c Hc) as [p Hp]. by exists p.
Qed.

Lemma embed_writes containerId container w material width height showBorder :
  getElementById containerId (dom w) = Some container →
  material ≠ "" →
  embedGeoGebra containerId (Some material) width height showBorder w
  = with_dom (setInnerHTML container
                (Text.iframeHtml material (pretty width) (pretty height)
                   (if showBorder then Text.borderOn else Text.borderOff))) w.
Proof.
  intros Hmount Hm. unfold embedGeoGebra. rewrite Hmount.
  assert (negb (truthy_arg (Some material)) = false) as ->; [|done].
  simpl. unfold truthy_string. by destruct material.
Qed.

End Embed.

(** X14: the iframe helper overwrites: two successful embeds into the
    same mount point show the page that the second one alone would show.
    The attached elements, in tree order and with their nesting, are the
    same, the mount point holds the second template, the same nodes of
    the original page are attached and they are as they were, and the
    console, the globals, the timers and the calls are the same; what the
    first embed built inside the mount point is gone.  (The nodes that
    the browser builds from the second template are new ones in each
    case.) *)
Theorem X14_last_embed_wins containerId container w
    material1 width1 height1 border1 material2 width2 height2 border2 :
  consistent w →
  getElementById containerId (dom w) = Some container →
  material1 ≠ "" → material2 ≠ "" →
  let twice :=
    embedGeoGebra containerId (Some material2) width2 height2 border2
      (embedGeoGebra containerId (Some material1) width1 height1 border1 w) in
  let once :=
    embedGeoGebra containerId (Some material2) width2 height2 border2 w in
  rendered (dom twice) = rendered (dom once)
  ∧ innerHTML_of container (dom twice)
    = Some (Text.iframeHtml material2 (pretty width2) (pretty height2)
              (if border2 then Text.borderOn else Text.borderOff))
  ∧ innerHTML_of container (dom once) = innerHTML_of container (dom twice)
  ∧ List.filter (fun x => Nat.ltb x (next_node (dom w))) (tree (dom twice))
    = List.filter (fun x => Nat.ltb x (next_node (dom w))) (tree (dom once))
  ∧ (∀ x, x < next_node (dom w) →
          nodes (dom twice) !! x = nodes (dom once) !! x)
  ∧ console twice = console once
  ∧ window twice = window once
  ∧ timers twice = timers once
  ∧ calls twice = calls once
  ∧ constructed twice = constructed once.
Proof.
  intros Hw Hmount H1 H2 twice once.
  pose proof Hmount as (Hin & e & He & _)%getElementById_Some.
  pose proof (cons_dom _ Hw _ Hin) as Hlt.
  unfold twice, once.
  rewrite (embed_writes _ container _ material1) by done.
  rewrite !(embed_writes _ container _ material2); try done.
  2:{ simpl. apply getElementById_setInnerHTML_self; [apply Hw|done]. }
  simpl.
  destruct (setInnerHTML_twice container
              (Text.iframeHtml material1 (pretty width1) (pretty height1)
                 (if border1 then Text.borderOn else Text.borderOff))
              (Text.iframeHtml material2 (pretty width2) (pretty height2)
                 (if border2 then Text.borderOn else Text.borderOff))
              (dom w) (cons_dom _ Hw) Hlt) as (Hr & Hold & Hnodes).
  split; [done|]. split; [|split; [|split; [done|split; [done|done]]]].
  - apply innerHTML_of_setInnerHTML, nodes_setInnerHTML_is_Some. eauto.
  - rewrite !innerHTML_of_setInnerHTML; [done| |eauto].
    apply nodes_setInnerHTML_is_Some. eauto.
Qed.

Lemma X14_last_embed_wins_witness :
  let twice :=
    embedGeoGebra "box" (Some "xyz789") 640 480 false
      (embedGeoGebra "box" (Some (scriptMarkup +:+ "abc123")) 800 500 true nestedPage) in
  let once := embedGeoGebra "box" (Some "xyz789") 640 480 false nestedPage in
  rendered (dom twice) = rendered (dom once)
  ∧ innerHTML_of 0 (dom twice)
    = Some (Text.iframeHtml "xyz789" "640" "480" Text.borderOff)
  ∧ innerHTML_of 0 (dom once) = innerHTML_of 0 (dom twice)
  ∧ List.filter (fun x => Nat.ltb x 3) (tree (dom twice))
    = List.filter (fun x => Nat.ltb x 3) (tree (dom once))
  ∧ (∀ x, x < 3 → nodes (dom twice) !! x = nodes (dom once) !! x)
  ∧ console twice = console once
  ∧ window twice = window once
  ∧ timers twice = timers once
  ∧ calls twice = calls once
  ∧ constructed twice = constructed once.
Proof.
  apply (X14_last_embed_wins "box" 0 nestedPage).
  - apply document_consistent.
  - vm_compute. reflexivity.
  - done.
  - done.
Defined.

(** The first embed puts a script element inside the mount point, in the
    place of the element that was there; the second embed takes it away
    again.  The sibling after the mount point stays. *)
Example embed_replaces_contents :
  let first := embedGeoGebra "box" (Some (scriptMarkup +:+ "abc123")) 800 500 true
                 nestedPage in
  let second := embedGeoGebra "box" (Some "xyz789") 640 480 false first in
  tree (dom nestedPage) = [0; 1; 2]
  ∧ descendants 0 (dom nestedPage) = [1]
  ∧ tree (dom first) = [0; 3; 2]
  ∧ descendants 0 (dom first) = [3]
  ∧ getElementById "inner" (dom first) = None
  ∧ getElementById "geogebra-script" (dom first) = Some 3
  ∧ getElementById "footer" (dom first) = Some 2
  ∧ tree (dom second) = [0; 2]
  ∧ getElementById "geogebra-script" (dom second) = None.
Proof. vm_compute. repeat split; reflexivity. Qed.

(** A call of the loader does the same to what is inside the mount
    point: the element that was there is detached, the sibling after the
    mount point stays, and the new script element goes to the head. *)
Example load_replaces_contents :
  let r := loadGeoGebra "box" (Some "derivative.ggb") false nestedPage in
  tree (dom r.1) = [3; 0; 2]
  ∧ head (dom r.1) = [3]
  ∧ descendants 0 (dom r.1) = []
  ∧ getElementById "inner" (dom r.1) = None
  ∧ getElementById "footer" (dom r.1) = Some 2.
Proof. vm_compute. repeat split; reflexivity. Qed.

(** X15: embedding a material into the mount point of a load that is
    still waiting for its script does not cancel the load: the call, its
    promise and the timers are untouched, and if the script then fails,
    the error handler rejects the promise and replaces the iframe with
    the diagnostic panel. *)
Theorem X15_embed_does_not_cancel_a_load w c cl containerId materialId
    width height showBorder error :
  consistent w →
  fetching c w = Some cl →
  let w' := embedGeoGebra containerId materialId width height showBorder w in
  calls w' = calls w
  ∧ timers w' = timers w
  ∧ window w' = window w
  ∧ promise c (step (ScriptError c error) w') = Failed (EventObj error)
  ∧ innerHTML_of (cl_container cl) (dom (step (ScriptError c error) w'))
    = Some (Text.errorPanelHtml (cl_ggbFileName cl)
              (basePath (location w) +:+ cl_ggbFileName cl)).
Proof.
  intros Hw Hf w'.
  pose proof (embed_consistent containerId materialId width height showBorder w Hw)
    as Hw'. fold w' in Hw'.
  assert (calls w' = calls w ∧ timers w' = timers w ∧ window w' = window w
          ∧ location w' = location w) as (Hcalls & Htimers & Hwindow & Hloc).
  { unfold w', embedGeoGebra. destruct (getElementById containerId (dom w)); [|done].
    by destruct (negb (truthy_arg materialId)). }
  assert (fetching c w' = Some cl) as Hf' by (unfold fetching; by rewrite Hcalls).
  split; [done|]. split; [done|]. split; [done|]. split.
  - by apply (promise_in_phase _ _ _ (onerror_settles c cl error w' Hw' Hf')).
  - simpl. rewrite Hf'. simpl. rewrite Hloc. apply innerHTML_of_setInnerHTML.
    apply (cons_closure _ Hw' c). apply fetching_Some in Hf' as (k & Hk & _ & Hcl).
    unfold closure_of. by rewrite Hk.
Qed.

Lemma X15_embed_does_not_cancel_a_load_witness :
  let w' := embedGeoGebra "box" (Some "abc123") 800 500 true demoLoading in
  calls w' = calls demoLoading
  ∧ timers w' = timers demoLoading
  ∧ window w' = window demoLoading
  ∧ promise 0 (step (ScriptError 0 "error") w') = Failed (EventObj "error")
  ∧ innerHTML_of 0 (dom (step (ScriptError 0 "error") w'))
    = Some (Text.errorPanelHtml "derivative.ggb" "/assets/ggb/derivative.ggb").
Proof.
  apply (X15_embed_does_not_cancel_a_load demoLoading 0
           (mkClosure 0 "box" "derivative.ggb"
              (mkParamsFor demoLocation "derivative.ggb" false) 1)
           "box" (Some "abc123") 800 500 true "error").
  - apply load_consistent, page_consistent.
  - vm_compute. reflexivity.
Defined.

(** ** Version 1.0 against version 1.1 *)

(** X16: the two versions of the file compute the same base path except
    under the [file:] protocol on a host that is not a development host,
    where version 1.0 gives the absolute [/assets/ggb/] and version 1.1
    the relative [./assets/ggb/]. *)
Theorem X16_base_path_across_versions l :
  (V10.basePath l = basePath l
   ↔ isLiveServer l = true ∨ protocol l ≠ "file:")
  ∧ (isLiveServer l = false → protocol l = "file:" →
     V10.basePath l = "/assets/ggb/" ∧ basePath l = "./assets/ggb/").
Proof.
  unfold V10.basePath, basePath, isFileProtocol. split.
  - destruct (isLiveServer l); [by split; [left|]|].
    destruct (String.eqb_spec (protocol l) "file:") as [E|E]; split.
    + discriminate.
    + intros [?|?]; done.
    + by right.
    + done.
  - intros -> E. by rewrite (proj2 (String.eqb_eq _ _) E).
Qed.

(** X17: version 1.0 of the iframe helper has no guard on the material
    id.  With the mount point present it always overwrites it, for an
    omitted id with an iframe for the id [undefined], where version 1.1
    leaves the page as it is; with the mount point absent it does nothing
    at all, not even a console message. *)
Theorem X17_embed_without_guard containerId materialId width height showBorder w :
  (getElementById containerId (dom w) = None →
   V10.embedGeoGebra containerId materialId width height w = w)
  ∧ (∀ container,
       getElementById containerId (dom w) = Some container →
       innerHTML_of container
         (dom (V10.embedGeoGebra containerId materialId width height w))
       = Some (V10.iframeHtml (V10.interpolate materialId)
                 (pretty width) (pretty height))
       ∧ (materialId = None ∨ materialId = Some "" →
          dom (embedGeoGebra containerId materialId width height showBorder w)
          = dom w)).
Proof.
  unfold V10.embedGeoGebra, embedGeoGebra. split.
  - by intros ->.
  - intros container Hmount. rewrite Hmount. split.
    + apply innerHTML_of_setInnerHTML.
      apply getElementById_Some in Hmount as (_ & e & -> & _). eauto.
    + by intros [-> | ->].
Qed.

Example embed_v10_without_material :
  innerHTML_of 0 (dom (V10.embedGeoGebra "box" None 800 500 demoPage))
  = Some (V10.iframeHtml "undefined" "800" "500")
  ∧ innerHTML_of 0 (dom (embedGeoGebra "box" None 800 500 true demoPage))
    = Some "old".
Proof. split; vm_compute; reflexivity. Qed.

(** ** Nothing is resolved before the applet has been constructed *)

Section ConstructedFirst.
Implicit Types (x w : World) (c h : nat).

Lemma step_appends e x : ∃ l, constructed (step e x) = constructed x ++ l.
Proof.
  destruct (step_constructed e x) as [->|(c & cl & _ & ->)]; [|eauto].
  exists []. by rewrite app_nil_r.
Qed.

Lemma run_appends es x : ∃ l, constructed (run es x) = constructed x ++ l.
Proof.
  revert x. induction es as [|e es IH]; intros x.
  { exists []. by rewrite app_nil_r. }
  rewrite run_cons. destruct (IH (step e x)) as [l ->].
  destruct (step_appends e x) as [l' ->]. exists (l' ++ l). by rewrite app_assoc.
Qed.

Lemma step_onLoaded_constructed e x h c :
  timers (step e x) !! h = Some (OnLoaded c) →
  timers x !! h = Some (OnLoaded c)
  ∨ ∃ cl, closure_of c x = Some cl
      ∧ constructed (step e x)
        = constructed x ++ [(cl_params cl, cl_containerId cl)].
Proof.
  destruct e as [c'|c' err|h'|key v|cid f is3D]; simpl.
  - destruct (fetching c' x); [|by left]. simpl.
    rewrite lookup_insert. case_decide; [done|by left].
  - destruct (fetching c' x); by left.
  - destruct (timers x !! h') as [[c'|c']|] eqn:Ht; [| |by left].
    + destruct (closure_of c' x) as [cl|] eqn:Hcl; [|by left].
      unfold checkInterval.
      destruct (truthy (window x !! "GGBApplet")); [|by left].
      simpl. destruct (instantiate _ _ _); simpl.
      * intros [_ H]%lookup_delete_Some. by left.
      * rewrite lookup_insert. case_decide.
        -- intros [= <-]. right. eauto.
        -- intros [_ H']%lookup_delete_Some. by left.
    + destruct (closure_of c' x); [|by left]. unfold onLoaded.
      destruct (window x !! _); [|by left].
      destruct (truthy _); [|by left]. simpl.
      intros [_ H]%lookup_delete_Some. by left.
  - by left.
  - destruct (load_calls cid f is3D x) as (k & _ & _ & -> & _). by left.
Qed.

Lemma run_onLoaded_constructed es x c cl h :
  c < length (calls x) →
  closure_of c x = Some cl →
  (∀ h', timers x !! h' ≠ Some (OnLoaded c)) →
  timers (run es x) !! h = Some (OnLoaded c) →
  ∃ l1 l2, constructed (run es x)
           = constructed x ++ l1 ++ (cl_params cl, cl_containerId cl) :: l2.
Proof.
  intros Hc Hcl Hnone. revert h.
  induction es as [|e es IH] using rev_ind; intros h.
  { intros Ht. by destruct (Hnone h). }
  rewrite run_snoc.
  intros [Hold|(cl' & Hcl' & Hnew)]%step_onLoaded_constructed.
  - destruct (IH h Hold) as (l1 & l2 & E).
    destruct (step_appends e (run es x)) as [l ->]. rewrite E.
    exists l1, (l2 ++ l). by rewrite <- !app_assoc.
  - rewrite run_closure_eq, Hcl in Hcl' by done. injection Hcl' as <-.
    destruct (run_appends es x) as [l E]. rewrite Hnew, E.
    exists l, []. by rewrite <- app_assoc.
Qed.

End ConstructedFirst.

(** X18: a promise is fulfilled only after the applet of that call has
    been constructed: when the promise of a valid call holds a value,
    [new GGBApplet] was invoked, after the call, with the options of that
    call (its key and its file under the base path) and the applet was
    injected into the container the call named. *)
Theorem X18_fulfilled_after_construction containerId name is3D w container es v :
  consistent w →
  getElementById containerId (dom w) = Some container →
  endsWith name ".ggb" = true →
  let r := loadGeoGebra containerId (Some name) is3D w in
  promise r.2 (run es r.1) = Fulfilled v →
  ∃ before after,
    constructed (run es r.1)
    = constructed w ++ before
        ++ (mkParamsFor (location w) name is3D, containerId) :: after.
Proof.
  intros Hw Hmount Hext r Hv.
  destruct (load_valid containerId name is3D w container Hmount Hext)
    as (Hc & _ & [script Hcalls] & _ & _ & _ & _ & Hconstructed).
  fold r in Hc, Hcalls, Hconstructed.
  set (cl := mkClosure container containerId name
               (mkParamsFor (location w) name is3D) script) in *.
  assert (consistent r.1) as Hr by by apply load_consistent.
  assert (calls r.1 !! r.2 = Some (mkCall (Some cl) false [])) as Hcall.
  { by rewrite Hcalls, Hc, list_lookup_middle. }
  assert (r.2 < length (calls r.1)) as Hlt by by eapply lookup_lt_Some.
  assert (closure_of r.2 r.1 = Some cl) as Hcl.
  { unfold closure_of. by rewrite Hcall. }
  assert (fetching r.2 r.1 = Some cl) as Hf.
  { unfold fetching. by rewrite Hcall. }
  assert (∀ h', timers r.1 !! h' ≠ Some (OnLoaded r.2)) as Hnone.
  { intros h' Ht.
    destruct (fetching_phase _ _ _ Hr Hf) as (? & _ & _ & _ & _ & Hempty).
    assert (owned r.2 (timers r.1) !! h' = Some (OnLoaded r.2)) as E
      by by apply owned_lookup.
    by rewrite Hempty in E. }
  destruct (run_promise es r.1 r.2 _ Hlt Hv)
    as [Hnow|(es1 & e & es2 & o & -> & _ & Ho & Hstate)].
  { unfold promise in Hnow. by rewrite Hcall in Hnow. }
  destruct Ho as [h cl' v' -> Ht _ _ _|?|?]; try done.
  destruct (run_onLoaded_constructed es1 r.1 r.2 cl h Hlt Hcl Hnone Ht)
    as (l1 & l2 & E).
  rewrite run_app. destruct (run_appends (Tick h :: es2) (run es1 r.1)) as [l ->].
  rewrite E, Hconstructed. exists l1, (l2 ++ l). simpl.
  by rewrite <- !app_assoc.
Qed.

Lemma X18_fulfilled_after_construction_witness :
  ∃ before after,
    constructed (run [ScriptLoad 0; SetWindow "GGBApplet" mockLibrary; Tick 0;
                      SetWindow "box_applet" (VObject 7); Tick 1] demoLoading)
    = constructed demoPage ++ before
        ++ (mkParamsFor demoLocation "derivative.ggb" false, "box") :: after.
Proof.
  apply (X18_fulfilled_after_construction "box" "derivative.ggb" false demoPage 0
           [ScriptLoad 0; SetWindow "GGBApplet" mockLibrary; Tick 0;
            SetWindow "box_applet" (VObject 7); Tick 1] (VObject 7)).
  - apply page_consistent.
  - vm_compute. reflexivity.
  - vm_compute. reflexivity.
  - vm_compute. reflexivity.
Defined.

(** A run in which the library is constructed. *)
Example constructed_on_demo :
  constructed (step (Tick 0) (run [ScriptLoad 0; SetWindow "GGBApplet" mockLibrary]
                               demoLoading))
  = [(mkParamsFor demoLocation "derivative.ggb" false, "box")].
Proof. vm_compute. reflexivity. Qed.
